(** * Collage, step A ("Input & Prep"): a model of [Src/main.py]

    The script lists a directory, keeps the first six image files by name,
    decodes them with PIL, writes a contact sheet, resized copies and a JSON
    manifest.  This file embeds the script function by function and proves
    the properties its description states.

    Conventions of the embedding:
    - a Python [int] is a [Z];
    - a Python [str] is a [string], read as the sequence of its code points,
      restricted to code points below 256;
    - a [pathlib.Path] is the list of its parts (POSIX flavour); an
      absolute path starts with its anchor, "/";
    - PIL image objects are mutable and live in a heap, addressed by index;
      their pixel contents are kept symbolic (a term that records which PIL
      operations produced them), and the pixels of a canvas are read off
      that term;
    - the script runs in a state-and-exception monad over the heap and the
      files and directories written so far; a second run with a log gives
      the order of its steps. *)

From Stdlib Require Import ZArith QArith Qround Qabs Lia Ascii String.
From stdpp Require Import base list sorting strings pretty.

Open Scope list_scope.
Open Scope stdpp_scope.

(** ** Python strings *)

Module Py.

(** [str.lower] on one code point below 256: the upper-case letters are
    A-Z and U+00C0..U+00DE without the multiplication sign U+00D7. *)
Definition lower_char (c : ascii) : ascii :=
  let n := N_of_ascii c in
  if ((65 <=? n) && (n <=? 90) || (192 <=? n) && (n <=? 222) && negb (n =? 215))%N
  then ascii_of_N (n + 32) else c.

Fixpoint lower (s : string) : string :=
  match s with
  | EmptyString => EmptyString
  | String c s' => String (lower_char c) (lower s')
  end.

(** [len(s)] *)
Definition len (s : string) : Z := Z.of_nat (String.length s).

(** [s.rfind(c)]: index of the last occurrence of [c], or -1. *)
Fixpoint rfind (c : ascii) (s : string) : Z :=
  match s with
  | EmptyString => (-1)%Z
  | String a s' =>
      let r := rfind c s' in
      if (0 <=? r)%Z then (r + 1)%Z
      else if Ascii.eqb a c then 0%Z else (-1)%Z
  end.

(** [s[i:]] for [0 <= i]. *)
Definition slice_from (i : Z) (s : string) : string :=
  String.substring (Z.to_nat i) (String.length s - Z.to_nat i) s.

(** [repr] of an [int], as used by f-strings and by [json.dumps]. *)
Definition repr_int (z : Z) : string := pretty z.

(** [f"{z:02d}"]: at least two characters, the sign counted, zero filled. *)
Definition format_02d (z : Z) : string :=
  if (z <? 0)%Z then "-" +:+ pretty (Z.abs z)
  else if (z <? 10)%Z then "0" +:+ pretty z
  else pretty z.

End Py.

(** ** pathlib *)

Definition Path := list string.

Module PathLib.

(** [p / name] for a name that is one path part, as the entries of
    [iterdir] and the file names of the script are; a name that held a
    separator would be split into several parts by pathlib and is kept
    whole here. *)
Definition joinpath (p : Path) (name : string) : Path := p ++ [name].

(** [p.name]: the final component. *)
Definition name (p : Path) : string := List.last p "".

(** [p.suffix]: the part of the name from its last dot, when that dot is
    neither the first nor the last character of the name. *)
Definition suffix (p : Path) : string :=
  let nm := name p in
  let i := Py.rfind "."%char nm in
  if ((0 <? i) && (i <? Py.len nm - 1))%Z then Py.slice_from i nm else "".

(** Whether a part is the anchor of an absolute path, "/" or "//": the
    only parts that hold a separator. *)
Definition is_anchor (part : string) : bool :=
  match part with
  | String c _ => Ascii.eqb c "/"
  | EmptyString => false
  end.

(** [str(p)]: "." for the path without parts; the anchor of an absolute
    path is followed by the other parts joined by "/". *)
Definition str (p : Path) : string :=
  match p with
  | [] => "."
  | part :: rest =>
      if is_anchor part then part +:+ String.concat "/" rest
      else String.concat "/" p
  end.

(** [p < q] on paths compares the lists of parts, as Python compares
    sequences: the first differing part decides, a proper prefix is less. *)
Fixpoint leb (p q : Path) : bool :=
  match p, q with
  | [], _ => true
  | _ :: _, [] => false
  | a :: p', b :: q' =>
      match String.compare a b with
      | Lt => true
      | Gt => false
      | Eq => leb p' q'
      end
  end.

Definition le (p q : Path) : Prop := leb p q = true.

#[global] Instance le_dec (p q : Path) : Decision (le p q).
Proof. unfold le. apply _. Defined.

End PathLib.

(** [sorted(paths)] *)
Definition sorted (l : list Path) : list Path := merge_sort PathLib.le l.

(** ** Exceptions *)

Inductive Exn :=
| ValueError (msg : string)                (* raised by the script itself *)
| UnidentifiedImageError (p : Path)        (* PIL does not identify the file *)
| InvalidObject (r : nat).                 (* no object at this address; keeps
                                              heap reads total, never raised
                                              by a run of the script *)

(** ** list_images *)

Definition exts : list string :=
  [".jpg"; ".jpeg"; ".png"; ".webp"; ".tif"; ".tiff"].

Definition in_exts (s : string) : bool := bool_decide (s ∈ exts).

(** The condition of the comprehension: [p.suffix.lower() in exts]. *)
Definition has_image_ext (p : Path) : bool :=
  in_exts (Py.lower (PathLib.suffix p)).

(** [files[:6]] *)
Definition first6 {A} (l : list A) : list A := take 6 l.

(** [list_images], given what [input_dir.iterdir()] yields. *)
Definition list_images (input_dir : Path) (entries : list string)
  : Exn + list Path :=
  let files := sorted (filter (λ p, has_image_ext p = true)
                         (map (PathLib.joinpath input_dir) entries)) in
  if (Z.of_nat (length files) <? 6)%Z
  then inl (ValueError ("Need at least 6 images in " +:+ PathLib.str input_dir
                        +:+ ", found " +:+ Py.repr_int (Z.of_nat (length files))
                        +:+ "."))
  else inr (first6 files).

(** ** PIL images *)

Module PIL.

Definition rgba := (Z * Z * Z * Z)%type.

Inductive Transpose :=
| FLIP_LEFT_RIGHT | ROTATE_180 | FLIP_TOP_BOTTOM
| TRANSPOSE | ROTATE_270 | TRANSVERSE | ROTATE_90.

(** Floating-point coordinates are kept as the expression that computes
    them; [draw.textlength] depends on the font and is left symbolic. *)
Inductive fexpr :=
| FInt (z : Z)
| FTextLength (s : string)
| FAdd (a b : fexpr).

(** Pixel contents, as the PIL operations that produced them. *)
Inductive raster :=
| Decoded (p : Path)
| Transposed (m : Transpose) (r : raster)
| Converted (mode : string) (r : raster)
| Resampled (w h : Z) (r : raster)
| Blank (color : rgba)
| Drawn (base : raster) (op : draw_op)
with draw_op :=
| Composite (src : raster) (sw sh : Z) (x y : Z)
| Rectangle (x0 y0 : Z) (x1 y1 : fexpr) (fill : rgba)
| Text (x y : Z) (label : string) (fill : rgba).

Record Image := {
  mode : string;
  width : Z;
  height : Z;
  orientation : option Z;      (* EXIF tag 0x0112, when present *)
  px : raster
}.

(** The drawing operations applied to a canvas, oldest first. *)
Fixpoint drawn_ops (r : raster) : list draw_op :=
  match r with
  | Drawn base op => drawn_ops base ++ [op]
  | _ => []
  end.

(** The image [Image.open] returns for a file that decodes. *)
Definition opened (mode : string) (w h : Z) (o : option Z) (p : Path) : Image :=
  {| mode := mode; width := w; height := h; orientation := o; px := Decoded p |}.

(** The table of [ImageOps.exif_transpose]. *)
Definition exif_method (o : option Z) : option Transpose :=
  match o with
  | Some 2%Z => Some FLIP_LEFT_RIGHT
  | Some 3%Z => Some ROTATE_180
  | Some 4%Z => Some FLIP_TOP_BOTTOM
  | Some 5%Z => Some TRANSPOSE
  | Some 6%Z => Some ROTATE_270
  | Some 7%Z => Some TRANSVERSE
  | Some 8%Z => Some ROTATE_90
  | _ => None
  end.

Definition swaps_sides (m : Transpose) : bool :=
  match m with
  | TRANSPOSE | ROTATE_270 | TRANSVERSE | ROTATE_90 => true
  | _ => false
  end.

(** [im.transpose(m)] *)
Definition transpose (m : Transpose) (im : Image) : Image :=
  {| mode := mode im;
     width := if swaps_sides m then height im else width im;
     height := if swaps_sides m then width im else height im;
     orientation := orientation im;
     px := Transposed m (px im) |}.

(** The image [ImageOps.exif_transpose] returns: transposed by the method
    of the orientation tag, the tag removed; an unchanged copy otherwise. *)
Definition exif_transposed (im : Image) : Image :=
  match exif_method (orientation im) with
  | Some m =>
      let t := transpose m im in
      {| mode := mode t; width := width t; height := height t;
         orientation := None; px := px t |}
  | None => im
  end.

(** The image [im.convert(m)] returns. *)
Definition converted (m : string) (im : Image) : Image :=
  if String.eqb (mode im) m then im
  else {| mode := m; width := width im; height := height im;
          orientation := orientation im; px := Converted m (px im) |}.

(** [round_aspect] of [Image.thumbnail]: of the two whole numbers next to
    [number], the one with the smaller key, the lower one when the keys are
    equal.  With the exact keys used here a tie is a tie; in binary
    floating point the two keys of a tie can differ in the last bit, and
    PIL then takes the upper number.  What is proved below of a thumbnail
    holds for either choice. *)
Definition round_aspect (number : Q) (key : Z → Q) : Z :=
  let lo := Qfloor number in
  let hi := Qceiling number in
  Z.max (if Qle_bool (key lo) (key hi) then lo else hi) 1.

(** [preserve_aspect_ratio] of [Image.thumbnail]; Python's float division
    is read as exact division of rationals. *)
Definition preserve_aspect_ratio (w h : Z) (size : Z * Z) : option (Z * Z) :=
  let '(x, y) := size in
  if ((w <=? x) && (h <=? y))%Z then None
  else
    let aspect := (inject_Z w / inject_Z h)%Q in
    if Qle_bool aspect (inject_Z x / inject_Z y)%Q then
      Some (round_aspect (inject_Z y * aspect)%Q
              (λ n, Qabs (aspect - inject_Z n / inject_Z y)%Q), y)
    else
      Some (x, round_aspect (inject_Z x / aspect)%Q
                 (λ n, if (n =? 0)%Z then 0%Q
                       else Qabs (aspect - inject_Z x / inject_Z n)%Q)).

(** The image held by an object after [thumbnail(size, LANCZOS)]. *)
Definition thumbnailed (size : Z * Z) (im : Image) : Image :=
  match preserve_aspect_ratio (width im) (height im) size with
  | None => im
  | Some (x, y) =>
      if bool_decide ((width im, height im) = (x, y)) then im
      else {| mode := mode im; width := x; height := y;
              orientation := orientation im;
              px := Resampled x y (px im) |}
  end.

(** The image held by an object after one drawing operation on it. *)
Definition drawn (op : draw_op) (im : Image) : Image :=
  {| mode := mode im; width := width im; height := height im;
     orientation := orientation im; px := Drawn (px im) op |}.

End PIL.

(** ** The world the script runs in *)

(** What PIL finds when it decodes a file. *)
Record ImageFile := {
  f_mode : string;
  f_width : Z;
  f_height : Z;
  f_orientation : option Z
}.

(** The input side of the file system: the entries [iterdir] yields for a
    directory, in the order the operating system gives them, and the image
    each path decodes to, if it decodes.

    Every path is taken to be a readable file whose data is complete, so
    the one way a load fails is that PIL does not identify the file as an
    image: [image_at] is [None] and [Image.open] raises
    [UnidentifiedImageError].  A path that is missing, a directory, or a
    file cut short makes the real calls raise another exception
    ([FileNotFoundError], [IsADirectoryError], [OSError]) at the same
    point of the run; these are not modelled, and neither is a directory
    that cannot be listed. *)
Record FileSystem := {
  iterdir : Path → list string;
  image_at : Path → option ImageFile
}.

Inductive FileData :=
| ImageData (im : PIL.Image) (quality : option Z)   (* [Image.save] *)
| TextData (s : string).                            (* [Path.write_text] *)

Record World := {
  heap : list PIL.Image;               (* the PIL image objects *)
  written : list (Path * FileData);    (* every file write, oldest first *)
  dirs : list Path                     (* every [mkdir], oldest first *)
}.

Definition empty_world : World := {| heap := []; written := []; dirs := [] |}.

(** ** The monad: state, and exceptions that keep the state *)

Definition M (A : Type) : Type := World → (Exn + A) * World.

Definition ret {A} (a : A) : M A := λ w, (inr a, w).

Definition raise {A} (e : Exn) : M A := λ w, (inl e, w).

Definition bind {A B} (m : M A) (k : A → M B) : M B :=
  λ w, match m w with
       | (inr a, w') => k a w'
       | (inl e, w') => (inl e, w')
       end.

Notation "'let*' x ':=' m 'in' k" := (bind m (λ x, k))
  (at level 10, x name, m at level 100, k at level 200, only parsing).
Notation "m >> k" := (bind m (λ _, k))
  (at level 90, right associativity, only parsing).

(** A result computed without the world, possibly an exception. *)
Definition lift {A} (r : Exn + A) : M A := λ w, (r, w).

(** [for x in l: body(x)] *)
Fixpoint for_each {A} (l : list A) (body : A → M unit) : M unit :=
  match l with
  | [] => ret tt
  | x :: l' => body x >> for_each l' body
  end.

(** [enumerate(l, start)] *)
Fixpoint enumerate {A} (start : Z) (l : list A) : list (Z * A) :=
  match l with
  | [] => []
  | x :: l' => (start, x) :: enumerate (start + 1) l'
  end.

(** *** Heap primitives *)

Definition alloc (im : PIL.Image) : M nat :=
  λ w, (inr (length (heap w)),
        {| heap := heap w ++ [im]; written := written w; dirs := dirs w |}).

Definition deref (r : nat) : M PIL.Image :=
  λ w, match heap w !! r with
       | Some im => (inr im, w)
       | None => (inl (InvalidObject r), w)
       end.

Definition mutate (r : nat) (f : PIL.Image → PIL.Image) : M unit :=
  let* im := deref r in
  λ w, (inr tt,
        {| heap := <[r := f im]> (heap w); written := written w; dirs := dirs w |}).

(** *** File-system primitives *)

Definition write_file (p : Path) (d : FileData) : M unit :=
  λ w, (inr tt,
        {| heap := heap w; written := written w ++ [(p, d)]; dirs := dirs w |}).

(** [p.mkdir(parents=True, exist_ok=True)] *)
Definition mkdir (p : Path) : M unit :=
  λ w, (inr tt,
        {| heap := heap w; written := written w; dirs := dirs w ++ [p] |}).

(** [p.write_text(s)] *)
Definition write_text (p : Path) (s : string) : M unit :=
  write_file p (TextData s).

(** ** The [json] module: [json.dumps(v, indent=n)] *)

Module Json.

(** The values the script serializes; a [dict] keeps insertion order. *)
#[local] Unset Elimination Schemes.
Inductive value :=
| JInt (z : Z)
| JStr (s : string)
| JList (items : list value)
| JDict (items : list (string * value)).
#[local] Set Elimination Schemes.

Definition dquote : ascii := "034"%char.
Definition backslash : ascii := "092"%char.

Definition hex_digit (n : N) : ascii :=
  ascii_of_N (if (n <? 10)%N then 48 + n else 87 + n).

(** The replacement of one character by [encode_basestring_ascii]:
    printable ASCII stays, except the quote and the backslash. *)
Definition escape_char (c : ascii) : string :=
  let n := N_of_ascii c in
  if (n =? 34)%N then String backslash (String dquote "")
  else if (n =? 92)%N then "\\"
  else if (n =? 8)%N then "\b"
  else if (n =? 12)%N then "\f"
  else if (n =? 10)%N then "\n"
  else if (n =? 13)%N then "\r"
  else if (n =? 9)%N then "\t"
  else if ((32 <=? n) && (n <=? 126))%N then String c ""
  else "\u00" +:+ String (hex_digit (n / 16)) (String (hex_digit (n mod 16)) "").

Fixpoint escape (s : string) : string :=
  match s with
  | EmptyString => ""
  | String c s' => escape_char c +:+ escape s'
  end.

Definition encode_basestring_ascii (s : string) : string :=
  String dquote (escape s +:+ String dquote "").

Fixpoint spaces (n : nat) : string :=
  match n with
  | O => ""
  | S n' => String " "%char (spaces n')
  end.

(** ["\n" + indent * level] *)
Definition newline_indent (indent level : nat) : string :=
  String "010"%char (spaces (indent * level)).

(** The encoder with an indent: [level] is the current indent level. *)
Fixpoint iterencode (indent level : nat) (v : value) : string :=
  match v with
  | JInt z => Py.repr_int z
  | JStr s => encode_basestring_ascii s
  | JList [] => "[]"
  | JList items =>
      "[" +:+ newline_indent indent (S level)
      +:+ String.concat ("," +:+ newline_indent indent (S level))
            (map (iterencode indent (S level)) items)
      +:+ newline_indent indent level +:+ "]"
  | JDict [] => "{}"
  | JDict items =>
      "{" +:+ newline_indent indent (S level)
      +:+ String.concat ("," +:+ newline_indent indent (S level))
            (map (λ kv, encode_basestring_ascii (fst kv) +:+ ": "
                        +:+ iterencode indent (S level) (snd kv)) items)
      +:+ newline_indent indent level +:+ "}"
  end.

Definition dumps (v : value) (indent : nat) : string := iterencode indent 0 v.

End Json.

(** *** PIL operations on image objects *)

Section WithFileSystem.

Variable fs : FileSystem.

(** [Image.open(path)].  PIL reads the pixels only when they are first
    needed; for files whose data is complete that makes no difference, and
    the image is decoded here. *)
Definition Image_open (path : Path) : M nat :=
  match image_at fs path with
  | Some f => alloc (PIL.opened (f_mode f) (f_width f) (f_height f)
                       (f_orientation f) path)
  | None => raise (UnidentifiedImageError path)
  end.

(** [ImageOps.exif_transpose(img)]: always a new object. *)
Definition exif_transpose (img : nat) : M nat :=
  let* im := deref img in
  alloc (PIL.exif_transposed im).

(** [img.convert(mode)]: always a new object. *)
Definition convert (mode : string) (img : nat) : M nat :=
  let* im := deref img in
  alloc (PIL.converted mode im).

(** [img.copy()] *)
Definition copy (img : nat) : M nat :=
  let* im := deref img in
  alloc im.

(** [img.thumbnail(size, LANCZOS)]: changes the object in place. *)
Definition thumbnail (img : nat) (size : Z * Z) : M unit :=
  mutate img (PIL.thumbnailed size).

(** [Image.new(mode, size, color)] *)
Definition Image_new (mode : string) (size : Z * Z) (color : PIL.rgba) : M nat :=
  alloc {| PIL.mode := mode; PIL.width := fst size; PIL.height := snd size;
           PIL.orientation := None; PIL.px := PIL.Blank color |}.

(** [sheet.alpha_composite(src, dest)]: changes [sheet] in place. *)
Definition alpha_composite (sheet src : nat) (dest : Z * Z) : M unit :=
  let* s := deref src in
  mutate sheet (PIL.drawn (PIL.Composite (PIL.px s) (PIL.width s) (PIL.height s)
                             (fst dest) (snd dest))).

(** [draw.rectangle([x0, y0, x1, y1], fill)], [draw] drawing on [sheet]. *)
Definition draw_rectangle (sheet : nat) (x0 y0 : Z) (x1 y1 : PIL.fexpr)
    (fill : PIL.rgba) : M unit :=
  mutate sheet (PIL.drawn (PIL.Rectangle x0 y0 x1 y1 fill)).

(** [draw.text((x, y), label, fill)] *)
Definition draw_text (sheet : nat) (x y : Z) (label : string)
    (fill : PIL.rgba) : M unit :=
  mutate sheet (PIL.drawn (PIL.Text x y label fill)).

(** [img.save(path, quality)]: the file holds the image as it is now.
    The write is taken to succeed, as it does for an image that is not
    empty, under a name that is a single path part, in a directory that
    exists; PIL refuses an image without pixels, and the operating system
    a file in a directory that is missing. *)
Definition save (img : nat) (path : Path) (quality : option Z) : M unit :=
  let* im := deref img in
  write_file path (ImageData im quality).

(** ** The script *)

Record PhotoAsset := {
  id : Z;
  role : string;
  path : string;
  width : Z;
  height : Z;
  _image : nat           (* the PIL object, by address *)
}.

Definition load_rgba_with_exif (path : Path) : M nat :=
  let* img := Image_open path in
  let* img := exif_transpose img in
  convert "RGBA" img.

(** The loop of [make_assets]; [assets] is the list built so far. *)
Fixpoint make_assets_loop (items : list (Z * Path)) (assets : list PhotoAsset)
  : M (list PhotoAsset) :=
  match items with
  | [] => ret assets
  | (i, p) :: rest =>
      let role := if (i <? 6)%Z then "element" else "background" in
      let* img := load_rgba_with_exif p in
      let* im := deref img in
      make_assets_loop rest
        (assets ++ [ {| id := i; role := role; path := PathLib.str p;
                        width := PIL.width im; height := PIL.height im;
                        _image := img |} ])
  end.

Definition make_assets (paths : list Path) : M (list PhotoAsset) :=
  make_assets_loop (enumerate 1 paths) [].

(** The body of the loop of [save_contact_sheet]. *)
Definition contact_sheet_tile (sheet : nat) (tile_size : Z * Z) (cols : Z)
    (item : Z * PhotoAsset) : M unit :=
  let '(w, h) := tile_size in
  let '(idx, a) := item in
  let* thumb := copy (_image a) in
  thumbnail thumb tile_size >>
  let* t := deref thumb in
  let x := ((idx mod cols) * w + (w - PIL.width t) / 2)%Z in
  let y := ((idx / cols) * h + (h - PIL.height t) / 2)%Z in
  alpha_composite sheet thumb (x, y) >>
  let label := Py.repr_int (id a) +:+ ": " +:+ role a in
  let tw := PIL.FTextLength label in
  let th := 12%Z in
  draw_rectangle sheet x y
    (PIL.FAdd (PIL.FAdd (PIL.FInt x) tw) (PIL.FInt 8))
    (PIL.FInt (y + th + 6)) (0, 0, 0, 120)%Z >>
  draw_text sheet (x + 4) (y + 2) label (255, 255, 255, 230)%Z.

Definition save_contact_sheet (assets : list PhotoAsset) (out_path : Path)
    (tile_size : Z * Z) (cols : Z) : M unit :=
  let '(w, h) := tile_size in
  let rows := ((Z.of_nat (length assets) + cols - 1) / cols)%Z in
  let* sheet := Image_new "RGBA" (cols * w, rows * h)%Z (245, 245, 245, 255)%Z in
  for_each (enumerate 0 assets) (contact_sheet_tile sheet tile_size cols) >>
  let* rgb := convert "RGB" sheet in
  save rgb out_path (Some 90%Z).

(** The file name of a normalized copy. *)
Definition normalized_name (a : PhotoAsset) : string :=
  Py.format_02d (id a) +:+ "_" +:+ role a +:+ ".png".

(** The body of the loop of [save_normalized_images]. *)
Definition save_normalized_image (out_dir : Path)
    (max_side_element max_side_background : Z) (a : PhotoAsset) : M unit :=
  let* img := copy (_image a) in
  let target := if String.eqb (role a) "background"
                then max_side_background else max_side_element in
  let* im := deref img in
  (if (Z.max (PIL.width im) (PIL.height im) >? target)%Z
   then thumbnail img (target, target)
   else ret tt) >>
  save img (PathLib.joinpath out_dir (normalized_name a)) None.

Definition save_normalized_images (assets : list PhotoAsset) (out_dir : Path)
    (max_side_element max_side_background : Z) : M unit :=
  mkdir out_dir >>
  for_each assets
    (save_normalized_image out_dir max_side_element max_side_background).

(** The list of records [write_summary] builds. *)
Definition summary (assets : list PhotoAsset) : Json.value :=
  Json.JList (map (λ a, Json.JDict [("id", Json.JInt (id a));
                                    ("role", Json.JStr (role a));
                                    ("path", Json.JStr (path a));
                                    ("width", Json.JInt (width a));
                                    ("height", Json.JInt (height a))]) assets).

Definition write_summary (assets : list PhotoAsset) (out_path : Path) : M unit :=
  write_text out_path (Json.dumps (summary assets) 2).

(** [main], from the parsed arguments on; the messages it prints at the
    end are not modelled. *)
Definition main (input_dir outdir : Path) : M unit :=
  mkdir outdir >>
  let* paths := lift (list_images input_dir (iterdir fs input_dir)) in
  let* assets := make_assets paths in
  save_contact_sheet assets (PathLib.joinpath outdir "contact_sheet.png")
    (480, 320)%Z 3%Z >>
  save_normalized_images assets outdir 1600%Z 2400%Z >>
  write_summary assets (PathLib.joinpath outdir "summary.json").

End WithFileSystem.

(** ** The steps of a run

    To say in which order things happen, the script is run once more with
    a log: the same calls in the same order as in the source, and a mark
    after each statement whose place in the run matters. *)

Inductive step :=
| RoleAssigned (i : Z) (role : string)    (* [role = ...], line 43 *)
| Opened (p : Path)                       (* [Image.open], line 25 *)
| Oriented (p : Path)                     (* [exif_transpose], line 26 *)
| MadeRGBA (p : Path)                     (* [convert("RGBA")], line 27 *)
| AssetRecorded (i : Z)                   (* [assets.append], lines 45-52 *)
| SheetSaved                              (* [save_contact_sheet], line 122 *)
| CopiesSaved                             (* [save_normalized_images], line 123 *)
| ManifestWritten.                        (* [write_summary], line 126 *)

#[global] Instance step_eq_dec : EqDecision step.
Proof. solve_decision. Defined.

(** The monad of the script with a log beside the world. *)
Definition Logged (A : Type) : Type :=
  World * list step → (Exn + A) * (World * list step).

(** A call of the script, which leaves the log alone. *)
Definition run {A} (m : M A) : Logged A :=
  λ s, let '(r, w') := m s.1 in (r, (w', s.2)).

Definition mark (e : step) : Logged unit :=
  λ s, (inr tt, (s.1, s.2 ++ [e])).

Definition lbind {A B} (m : Logged A) (k : A → Logged B) : Logged B :=
  λ s, match m s with
       | (inr a, s') => k a s'
       | (inl e, s') => (inl e, s')
       end.

Notation "'let+' x ':=' m 'in' k" := (lbind m (λ x, k))
  (at level 10, x name, m at level 100, k at level 200, only parsing).
Notation "m >>+ k" := (lbind m (λ _, k))
  (at level 90, right associativity, only parsing).

Section Logged.

Variable fs : FileSystem.

Definition load_rgba_with_exif_logged (path : Path) : Logged nat :=
  let+ img := run (Image_open fs path) in
  mark (Opened path) >>+
  let+ img := run (exif_transpose img) in
  mark (Oriented path) >>+
  let+ img := run (convert "RGBA" img) in
  mark (MadeRGBA path) >>+
  run (ret img).

Fixpoint make_assets_loop_logged (items : list (Z * Path))
    (assets : list PhotoAsset) : Logged (list PhotoAsset) :=
  match items with
  | [] => run (ret assets)
  | (i, p) :: rest =>
      let role := if (i <? 6)%Z then "element" else "background" in
      mark (RoleAssigned i role) >>+
      let+ img := load_rgba_with_exif_logged p in
      let+ im := run (deref img) in
      mark (AssetRecorded i) >>+
      make_assets_loop_logged rest
        (assets ++ [ {| id := i; role := role; path := PathLib.str p;
                        width := PIL.width im; height := PIL.height im;
                        _image := img |} ])
  end.

Definition make_assets_logged (paths : list Path) : Logged (list PhotoAsset) :=
  make_assets_loop_logged (enumerate 1 paths) [].

Definition main_logged (input_dir outdir : Path) : Logged unit :=
  run (mkdir outdir) >>+
  let+ paths := run (lift (list_images input_dir (iterdir fs input_dir))) in
  let+ assets := make_assets_logged paths in
  run (save_contact_sheet assets (PathLib.joinpath outdir "contact_sheet.png")
         (480, 320)%Z 3%Z) >>+
  mark SheetSaved >>+
  run (save_normalized_images assets outdir 1600%Z 2400%Z) >>+
  mark CopiesSaved >>+
  run (write_summary assets (PathLib.joinpath outdir "summary.json")) >>+
  mark ManifestWritten.

End Logged.

(** ** What the functions compute, as pure functions

    These are the closed forms of the loops above; the lemmas of the
    second half relate each function of the script to its closed form. *)

(** The image [load_rgba_with_exif] returns for a file that decodes. *)
Definition loaded (f : ImageFile) (p : Path) : PIL.Image :=
  PIL.converted "RGBA"
    (PIL.exif_transposed
       (PIL.opened (f_mode f) (f_width f) (f_height f) (f_orientation f) p)).

(** The objects one call of [load_rgba_with_exif] allocates, in order. *)
Definition load_objects (f : ImageFile) (p : Path) : list PIL.Image :=
  [ PIL.opened (f_mode f) (f_width f) (f_height f) (f_orientation f) p;
    PIL.exif_transposed
      (PIL.opened (f_mode f) (f_width f) (f_height f) (f_orientation f) p);
    loaded f p ].

(** The objects and the assets [make_assets] produces for the paths that
    decode, up to the first one that does not. *)
Fixpoint loaded_heap (fs : FileSystem) (paths : list Path) : list PIL.Image :=
  match paths with
  | [] => []
  | p :: ps =>
      match image_at fs p with
      | Some f => load_objects f p ++ loaded_heap fs ps
      | None => []
      end
  end.

Fixpoint assets_from (fs : FileSystem) (base : nat) (i : Z) (paths : list Path)
  : list PhotoAsset :=
  match paths with
  | [] => []
  | p :: ps =>
      match image_at fs p with
      | Some f =>
          {| id := i;
             role := if (i <? 6)%Z then "element" else "background";
             path := PathLib.str p;
             width := PIL.width (loaded f p);
             height := PIL.height (loaded f p);
             _image := base + 2 |} :: assets_from fs (base + 3) (i + 1) ps
      | None => []
      end
  end.

(** [h] holds image [im] at the address of each asset, in order. *)
Definition asset_images (h : list PIL.Image) (assets : list PhotoAsset)
    (ims : list PIL.Image) : Prop :=
  Forall2 (λ a im, h !! _image a = Some im) assets ims.

(** The three drawing operations of one tile, for its thumbnail [t]. *)
Definition tile_ops (tile_size : Z * Z) (cols idx : Z) (a : PhotoAsset)
    (t : PIL.Image) : list PIL.draw_op :=
  let '(w, h) := tile_size in
  let x := ((idx mod cols) * w + (w - PIL.width t) / 2)%Z in
  let y := ((idx / cols) * h + (h - PIL.height t) / 2)%Z in
  let label := Py.repr_int (id a) +:+ ": " +:+ role a in
  [ PIL.Composite (PIL.px t) (PIL.width t) (PIL.height t) x y;
    PIL.Rectangle x y
      (PIL.FAdd (PIL.FAdd (PIL.FInt x) (PIL.FTextLength label)) (PIL.FInt 8))
      (PIL.FInt (y + 12 + 6)) (0, 0, 0, 120)%Z;
    PIL.Text (x + 4) (y + 2) label (255, 255, 255, 230)%Z ].

(** All drawing operations of the contact sheet, from index [idx] on. *)
Fixpoint sheet_ops (tile_size : Z * Z) (cols idx : Z)
    (assets : list PhotoAsset) (ims : list PIL.Image) : list PIL.draw_op :=
  match assets, ims with
  | a :: assets', im :: ims' =>
      tile_ops tile_size cols idx a (PIL.thumbnailed tile_size im)
      ++ sheet_ops tile_size cols (idx + 1) assets' ims'
  | _, _ => []
  end.

Definition draw_all (ops : list PIL.draw_op) (sheet : PIL.Image) : PIL.Image :=
  fold_left (λ im op, PIL.drawn op im) ops sheet.

(** The image a normalized copy holds when it is saved. *)
Definition normalized (max_side_element max_side_background : Z)
    (a : PhotoAsset) (im : PIL.Image) : PIL.Image :=
  let target := if String.eqb (role a) "background"
                then max_side_background else max_side_element in
  if (Z.max (PIL.width im) (PIL.height im) >? target)%Z
  then PIL.thumbnailed (target, target) im else im.

(** The files [save_normalized_images] writes. *)
Definition normalized_files (out_dir : Path)
    (max_side_element max_side_background : Z)
    (assets : list PhotoAsset) (ims : list PIL.Image)
  : list (Path * FileData) :=
  zip_with (λ a im,
      (PathLib.joinpath out_dir (normalized_name a),
       ImageData (normalized max_side_element max_side_background a im) None))
    assets ims.

(** The first path [Image.open] fails on, if any. *)
Fixpoint first_undecodable (fs : FileSystem) (paths : list Path) : option Path :=
  match paths with
  | [] => None
  | p :: ps =>
      match image_at fs p with
      | Some _ => first_undecodable fs ps
      | None => Some p
      end
  end.

(** The images of the assets [make_assets] produces. *)
Fixpoint loaded_images (fs : FileSystem) (paths : list Path) : list PIL.Image :=
  match paths with
  | [] => []
  | p :: ps =>
      match image_at fs p with
      | Some f => loaded f p :: loaded_images fs ps
      | None => []
      end
  end.

(** The contact sheet before its conversion to RGB. *)
Definition contact_sheet (tile_size : Z * Z) (cols : Z)
    (assets : list PhotoAsset) (ims : list PIL.Image) : PIL.Image :=
  let rows := ((Z.of_nat (length assets) + cols - 1) / cols)%Z in
  draw_all (sheet_ops tile_size cols 0 assets ims)
    {| PIL.mode := "RGBA";
       PIL.width := cols * fst tile_size; PIL.height := rows * snd tile_size;
       PIL.orientation := None;
       PIL.px := PIL.Blank (245, 245, 245, 255)%Z |}.

(** The whole run, in closed form. *)
Definition main_result (fs : FileSystem) (input_dir outdir : Path) (w : World)
  : (Exn + unit) * World :=
  match list_images input_dir (iterdir fs input_dir) with
  | inl e =>
      (inl e, {| heap := heap w; written := written w;
                 dirs := dirs w ++ [outdir] |})
  | inr paths =>
      match first_undecodable fs paths with
      | Some p =>
          (inl (UnidentifiedImageError p),
           {| heap := heap w ++ loaded_heap fs paths; written := written w;
              dirs := dirs w ++ [outdir] |})
      | None =>
          let assets := assets_from fs (length (heap w)) 1 paths in
          let ims := loaded_images fs paths in
          let sheet := contact_sheet (480, 320)%Z 3 assets ims in
          (inr tt,
           {| heap := ((heap w ++ loaded_heap fs paths)
                       ++ sheet :: map (PIL.thumbnailed (480, 320)%Z) ims
                       ++ [PIL.converted "RGB" sheet])
                      ++ zip_with (normalized 1600 2400) assets ims;
              written :=
                ((written w
                  ++ [(PathLib.joinpath outdir "contact_sheet.png",
                       ImageData (PIL.converted "RGB" sheet) (Some 90%Z))])
                 ++ normalized_files outdir 1600 2400 assets ims)
                ++ [(PathLib.joinpath outdir "summary.json",
                     TextData (Json.dumps (summary assets) 2))];
              dirs := (dirs w ++ [outdir]) ++ [outdir] |})
      end
  end.

(** ** The pixels of a canvas

    What [alpha_composite] and the operations of [ImageDraw] do to one
    pixel of an RGBA canvas.  [ImageDraw.Draw] on an RGBA image does not
    blend: the fill of a rectangle replaces the pixels it covers, alpha
    included.  What the script does not decide is taken from a
    [Rendering]. *)

Record Rendering := {
  (** [draw.textlength] with the default font *)
  text_length : string → Q;
  (** whether [draw.text] touches the pixel at this offset from its anchor *)
  text_ink : string → Z → Z → bool;
  (** the value it leaves there *)
  text_pixel : string → PIL.rgba → Z → Z → PIL.rgba → PIL.rgba;
  (** the pixels of an image that is not a canvas *)
  image_pixel : PIL.raster → Z → Z → PIL.rgba;
  (** one pixel composited over another *)
  blend : PIL.rgba → PIL.rgba → PIL.rgba
}.

(** A font draws to the right of and below its anchor, and no text has a
    negative length. *)
Definition plain_font (R : Rendering) : Prop :=
  (∀ s, (0 <= text_length R s)%Q)
  ∧ (∀ s dx dy, text_ink R s dx dy = true → (0 ≤ dx)%Z ∧ (0 ≤ dy)%Z).

(** The value of a coordinate expression. *)
Fixpoint feval (R : Rendering) (e : PIL.fexpr) : Q :=
  match e with
  | PIL.FInt z => inject_Z z
  | PIL.FTextLength s => text_length R s
  | PIL.FAdd a b => (feval R a + feval R b)%Q
  end.

(** A coordinate given as a float is cut to an integer, towards zero. *)
Definition float_to_int (q : Q) : Z :=
  if Qle_bool 0 q then Qfloor q else Qceiling q.

(** RGBA to RGB: the alpha value is dropped. *)
Definition opaque (c : PIL.rgba) : PIL.rgba :=
  let '(r, g, b, _) := c in (r, g, b, 255%Z).

(** The pixel at [(i, j)] after one drawing operation, [under] being the
    pixel before. *)
Definition paint (R : Rendering) (op : PIL.draw_op) (under : PIL.rgba)
    (i j : Z) : PIL.rgba :=
  match op with
  | PIL.Composite src sw sh x y =>
      if ((x <=? i) && (y <=? j) && (i <? x + sw) && (j <? y + sh))%Z
      then blend R (image_pixel R src (i - x) (j - y)) under
      else under
  | PIL.Rectangle x0 y0 x1 y1 fill =>
      if ((x0 <=? i) && (y0 <=? j) && (i <=? float_to_int (feval R x1))
          && (j <=? float_to_int (feval R y1)))%Z
      then fill
      else under
  | PIL.Text x y label fill =>
      if text_ink R label (i - x) (j - y)
      then text_pixel R label fill (i - x) (j - y) under
      else under
  end.

(** The pixel at [(i, j)] of a canvas, or of its conversion to RGB. *)
Fixpoint canvas_pixel (R : Rendering) (r : PIL.raster) (i j : Z) : PIL.rgba :=
  match r with
  | PIL.Blank color => color
  | PIL.Drawn base op => paint R op (canvas_pixel R base i j) i j
  | PIL.Converted mode base =>
      if String.eqb mode "RGB" then opaque (canvas_pixel R base i j)
      else image_pixel R r i j
  | _ => image_pixel R r i j
  end.

(** A black box of alpha [a] that lets the picture under it show through:
    what a semi-transparent label box leaves in an opaque picture. *)
Definition black_over (a : Z) (under : PIL.rgba) : PIL.rgba :=
  let '(r, g, b, _) := under in
  ((r * (255 - a)) / 255, (g * (255 - a)) / 255, (b * (255 - a)) / 255, 255)%Z.

(** ** Thumbnails, up to the rounding of one side

    What [Image.thumbnail] promises of the image [t] it leaves for [im] in
    a box of [bw] by [bh] pixels, whichever neighbouring whole number the
    scaled side is rounded to. *)
Definition thumbnail_of (bw bh : Z) (im t : PIL.Image) : Prop :=
  (1 ≤ PIL.width t ≤ bw)%Z ∧ (1 ≤ PIL.height t ≤ bh)%Z
  ∧ (PIL.width t ≤ PIL.width im)%Z ∧ (PIL.height t ≤ PIL.height im)%Z
  ∧ (Z.abs (PIL.width t * PIL.height im - PIL.height t * PIL.width im)
     < Z.max (PIL.width im) (PIL.height im))%Z
  ∧ ((PIL.width im ≤ bw)%Z ∧ (PIL.height im ≤ bh)%Z → t = im)
  ∧ (¬ ((PIL.width im ≤ bw)%Z ∧ (PIL.height im ≤ bh)%Z) →
     (PIL.width t = bw ∨ PIL.height t = bh)
     ∧ PIL.px t = PIL.Resampled (PIL.width t) (PIL.height t) (PIL.px im)).

(** ** The order of the steps, in closed form *)

(** The steps [make_assets] logs for the paths that decode, up to the
    first one that does not. *)
Fixpoint make_assets_steps (fs : FileSystem) (items : list (Z * Path))
  : list step :=
  match items with
  | [] => []
  | (i, p) :: rest =>
      RoleAssigned i (if (i <? 6)%Z then "element" else "background")
      :: match image_at fs p with
         | Some _ =>
             [Opened p; Oriented p; MadeRGBA p; AssetRecorded i]
             ++ make_assets_steps fs rest
         | None => []
         end
  end.

(** The steps of a whole run. *)
Definition main_steps (fs : FileSystem) (input_dir : Path) : list step :=
  match list_images input_dir (iterdir fs input_dir) with
  | inl _ => []
  | inr paths =>
      make_assets_steps fs (enumerate 1 paths)
      ++ match first_undecodable fs paths with
         | None => [SheetSaved; CopiesSaved; ManifestWritten]
         | Some _ => []
         end
  end.

(** Every image has been converted before step [e] happens. *)
Definition all_converted_before (e : step → Prop) (steps : list step) : Prop :=
  ∀ (i j : nat) p s,
    steps !! i = Some (MadeRGBA p) → steps !! j = Some s → e s → (i < j)%nat.

Definition is_role_assignment (s : step) : Prop :=
  ∃ i role, s = RoleAssigned i role.

Definition is_output (s : step) : Prop :=
  s = SheetSaved ∨ s = CopiesSaved ∨ s = ManifestWritten.

(** ** Auto-rotation, as the EXIF orientation tag defines it

    The tag says how the stored image lies; the transposition named here
    (with PIL's names) brings it upright.  Tag 1, an absent tag and any
    other value call for none. *)

Definition upright (tag : option Z) (r : PIL.raster) : PIL.raster :=
  match tag with
  | Some 2%Z => PIL.Transposed PIL.FLIP_LEFT_RIGHT r   (* mirrored *)
  | Some 3%Z => PIL.Transposed PIL.ROTATE_180 r        (* upside down *)
  | Some 4%Z => PIL.Transposed PIL.FLIP_TOP_BOTTOM r   (* flipped *)
  | Some 5%Z => PIL.Transposed PIL.TRANSPOSE r         (* along the diagonal *)
  | Some 6%Z => PIL.Transposed PIL.ROTATE_270 r        (* a quarter turn *)
  | Some 7%Z => PIL.Transposed PIL.TRANSVERSE r        (* along the other one *)
  | Some 8%Z => PIL.Transposed PIL.ROTATE_90 r         (* a quarter turn back *)
  | _ => r
  end.

(** The tags whose correction exchanges width and height. *)
Definition upright_size (tag : option Z) (w h : Z) : Z * Z :=
  match tag with
  | Some 5%Z | Some 6%Z | Some 7%Z | Some 8%Z => (h, w)
  | _ => (w, h)
  end.

(** ** The manifest, as the text the description calls for

    A JSON array, one record per asset in order, each with the keys id,
    role, path, width, height, indented by two spaces per level.  Numbers
    and strings are written here by the rules of JSON itself, without the
    functions of the encoder above. *)

Definition nl : string := String "010"%char "".

Definition quoted (s : string) : string :=
  String "034"%char (s +:+ String "034"%char "").

(** The [n]-th character of an alphabet of digits. *)
Definition digit_of (alphabet : string) (n : N) : ascii :=
  default "?"%char (String.get (N.to_nat n) alphabet).

(** The decimal digits of [n], most significant first, in front of [acc];
    [fuel] bounds the number of digits. *)
Fixpoint decimal_digits (fuel : nat) (n : N) (acc : string) : string :=
  match fuel with
  | O => acc
  | S fuel' =>
      let acc' := String (digit_of "0123456789" (n mod 10)) acc in
      if (n <? 10)%N then acc' else decimal_digits fuel' (n / 10) acc'
  end.

(** A JSON number for an integer: a minus sign for a negative one, then the
    decimal digits of its absolute value without leading zeros. *)
Definition decimal (z : Z) : string :=
  let digits (p : positive) :=
    decimal_digits (S (N.to_nat (N.log2 (N.pos p)))) (N.pos p) "" in
  match z with
  | Z0 => "0"
  | Zpos p => digits p
  | Zneg p => String "-"%char (digits p)
  end.

(** The letters of JSON's two-character escapes. *)
Definition short_escapes : list (ascii * ascii) :=
  [ ("034", "034"); ("092", "092"); ("008", "b"); ("012", "f");
    ("010", "n"); ("013", "r"); ("009", "t") ]%char.

(** One character inside a JSON string that is kept in ASCII: a
    two-character escape where JSON has one, the character itself when it
    is printable ASCII, and [\u00hh] with its code in hexadecimal
    otherwise (code points below 256). *)
Definition json_char (c : ascii) : string :=
  match list_find (λ e, e.1 = c) short_escapes with
  | Some (_, (_, letter)) => String "092"%char (String letter "")
  | None =>
      let n := N_of_ascii c in
      if ((32 <=? n) && (n <? 127))%N then String c ""
      else String "092"%char
             ("u00" +:+ String (digit_of "0123456789abcdef" (n / 16))
                          (String (digit_of "0123456789abcdef" (n mod 16)) ""))
  end.

Fixpoint json_chars (s : string) : string :=
  match s with
  | EmptyString => ""
  | String c s' => json_char c +:+ json_chars s'
  end.

Definition manifest_record (a : PhotoAsset) : string :=
  "{" +:+ nl
  +:+ "    " +:+ quoted "id" +:+ ": " +:+ decimal (id a) +:+ "," +:+ nl
  +:+ "    " +:+ quoted "role" +:+ ": " +:+ quoted (json_chars (role a)) +:+ "," +:+ nl
  +:+ "    " +:+ quoted "path" +:+ ": " +:+ quoted (json_chars (path a)) +:+ "," +:+ nl
  +:+ "    " +:+ quoted "width" +:+ ": " +:+ decimal (width a) +:+ "," +:+ nl
  +:+ "    " +:+ quoted "height" +:+ ": " +:+ decimal (height a) +:+ nl
  +:+ "  }".

Definition manifest_text (assets : list PhotoAsset) : string :=
  match assets with
  | [] => "[]"
  | _ => "[" +:+ nl +:+ "  "
         +:+ String.concat ("," +:+ nl +:+ "  ") (map manifest_record assets)
         +:+ nl +:+ "]"
  end.

(** ** Characters of a file name *)

(** [c.isdigit()] for an ASCII character. *)
Definition is_digit (c : ascii) : bool :=
  ((48 <=? N_of_ascii c) && (N_of_ascii c <=? 57))%N.

(** All characters of [s] are digits. *)
Fixpoint all_digits (s : string) : bool :=
  match s with
  | EmptyString => true
  | String c s' => is_digit c && all_digits s'
  end.

(** [c in s] *)
Fixpoint has_char (c : ascii) (s : string) : bool :=
  match s with
  | EmptyString => false
  | String a s' => Ascii.eqb a c || has_char c s'
  end.

(** A string that pathlib keeps as one path part and that may stand in a
    file name: it holds no separator and no NUL.  The limit of the
    operating system on the length of a name is not modelled. *)
Definition name_part (s : string) : bool :=
  negb (has_char "/" s) && negb (has_char "000" s).

(** ** Example inputs *)

(** A small input directory, used to run the script on. *)
Definition example_fs : FileSystem := {|
  iterdir := λ _, ["b.PNG"; "notes.txt"; "a.jpg"; "c.tiff"; "e.webp"; ".png";
                   "d.Jpeg"; "g.tif"; "f.png"; "B.png"];
  image_at := λ p,
    if String.eqb (PathLib.name p) "a.jpg"
    then Some {| f_mode := "RGB"; f_width := 4000; f_height := 3000;
                 f_orientation := Some 6%Z |}
    else if String.eqb (PathLib.name p) "notes.txt" then None
    else if String.eqb (PathLib.name p) "e.webp"
    then Some {| f_mode := "RGBA"; f_width := 300; f_height := 200;
                 f_orientation := None |}
    else Some {| f_mode := "RGB"; f_width := 5000; f_height := 100;
                 f_orientation := None |}
|}.

(** The same directory, listed in another order. *)
Definition example_fs' : FileSystem := {|
  iterdir := λ _, ["g.tif"; "B.png"; "f.png"; "d.Jpeg"; ".png"; "e.webp";
                   "c.tiff"; "a.jpg"; "notes.txt"; "b.PNG"];
  image_at := image_at example_fs
|}.

Definition example_paths : list Path :=
  [["in"; "B.png"]; ["in"; "a.jpg"]; ["in"; "b.PNG"];
   ["in"; "c.tiff"]; ["in"; "d.Jpeg"]; ["in"; "e.webp"]; ["in"; "f.png"]].

(** A small heap with two assets, used to run single functions on. *)
Definition example_heap : list PIL.Image :=
  [ {| PIL.mode := "RGBA"; PIL.width := 3000; PIL.height := 4000;
       PIL.orientation := None;
       PIL.px := PIL.Converted "RGBA" (PIL.Decoded ["in"; "a.jpg"]) |};
    {| PIL.mode := "RGBA"; PIL.width := 300; PIL.height := 200;
       PIL.orientation := None; PIL.px := PIL.Decoded ["in"; "e.webp"] |} ].

Definition example_assets : list PhotoAsset :=
  [ {| id := 1; role := "element"; path := "in/a.jpg";
       width := 3000; height := 4000; _image := 0 |};
    {| id := 6; role := "background"; path := "in/e.webp";
       width := 300; height := 200; _image := 1 |} ].

Definition example_world : World :=
  {| heap := example_heap; written := []; dirs := [] |}.

(** Six of its files, loaded by [make_assets] into an empty heap. *)
Definition example_six_paths : list Path := take 6 example_paths.

Definition example_loaded : (Exn + list PhotoAsset) * World :=
  make_assets example_fs example_six_paths empty_world.

Definition example_six : list PhotoAsset :=
  match example_loaded.1 with
  | inr assets => assets
  | inl _ => []
  end.

Definition example_six_images : list PIL.Image :=
  loaded_images example_fs example_six_paths.

(** ** Characters of the manifest *)

(** A printable ASCII character or a line feed. *)
Definition text_char (c : ascii) : bool :=
  let n := N_of_ascii c in
  ((n =? 10) || (32 <=? n) && (n <=? 126))%N.

Fixpoint all_text (s : string) : bool :=
  match s with
  | EmptyString => true
  | String c s' => text_char c && all_text s'
  end.

(** ** Reading a JSON string back *)

Module JsonRead.

(** The value of a lower-case hexadecimal digit. *)
Definition hex_value (c : ascii) : N :=
  let n := N_of_ascii c in
  if (n <? 58)%N then n - 48 else n - 87.

(** The character a one-letter escape stands for. *)
Definition short_escape (c : ascii) : ascii :=
  if Ascii.eqb c "b" then "008"
  else if Ascii.eqb c "f" then "012"
  else if Ascii.eqb c "n" then "010"
  else if Ascii.eqb c "r" then "013"
  else if Ascii.eqb c "t" then "009"
  else c.

(** The first character of the body of a JSON string and what follows it,
    or nothing at the closing quote: a backslash starts an escape, either
    [\u00hl] or a single letter. *)
Definition next_char (s : string) : option (ascii * string) :=
  match s with
  | EmptyString => None
  | String c rest =>
      if Ascii.eqb c Json.dquote then None
      else if Ascii.eqb c Json.backslash then
        match rest with
        | String x rest1 =>
            if Ascii.eqb x "u" then
              match rest1 with
              | String _ (String _ (String h (String l rest2))) =>
                  Some (ascii_of_N (16 * hex_value h + hex_value l), rest2)
              | _ => None
              end
            else Some (short_escape x, rest1)
        | EmptyString => None
        end
      else Some (c, rest)
  end.

End JsonRead.

(** The five fields the manifest records. *)
Definition same_fields (a b : PhotoAsset) : Prop :=
  id a = id b ∧ role a = role b ∧ path a = path b
  ∧ width a = width b ∧ height a = height b.

(** ** Further example inputs *)

(** A directory with only two images. *)
Definition sparse_fs : FileSystem := {|
  iterdir := λ _, ["b.PNG"; "notes.txt"; "a.jpg"; ".png"; "archive.png.zip"];
  image_at := image_at example_fs
|}.

(** The example directory with one selected file that does not decode. *)
Definition broken_fs : FileSystem := {|
  iterdir := iterdir example_fs;
  image_at := λ p, if String.eqb (PathLib.name p) "c.tiff" then None
                   else image_at example_fs p
|}.

(** The example directory with a file past the sixth that does not decode. *)
Definition late_broken_fs : FileSystem := {|
  iterdir := iterdir example_fs';
  image_at := λ p, if String.eqb (PathLib.name p) "g.tif" then None
                   else image_at example_fs p
|}.

(** A rendering to try the contact sheet on: white pictures without
    transparency, and a font of 6 by 11 pixels per character whose ink
    fills the box of the text. *)
Definition example_rendering : Rendering := {|
  text_length := λ s, inject_Z (6 * Z.of_nat (String.length s));
  text_ink := λ s dx dy,
    ((0 <=? dx) && (dx <? 6 * Z.of_nat (String.length s))
     && (0 <=? dy) && (dy <? 11))%Z;
  text_pixel := λ _ fill _ _ _, fill;
  image_pixel := λ _ _ _, (255, 255, 255, 255)%Z;
  blend := λ over _, over
|}.

(** * Properties *)

(** ** The order on strings and on paths *)

Lemma ascii_compare_refl (a : ascii) : Ascii.compare a a = Eq.
Proof. unfold Ascii.compare. apply N.compare_refl. Qed.

Lemma ascii_compare_lt_trans (a b c : ascii) :
  Ascii.compare a b = Lt → Ascii.compare b c = Lt → Ascii.compare a c = Lt.
Proof.
  unfold Ascii.compare. rewrite !N.compare_lt_iff. apply N.lt_trans.
Qed.

Lemma string_compare_refl (s : string) : String.compare s s = Eq.
Proof.
  induction s as [|a s IH]; simpl; [done|].
  by rewrite ascii_compare_refl.
Qed.

Lemma string_compare_lt_trans (s1 s2 s3 : string) :
  String.compare s1 s2 = Lt → String.compare s2 s3 = Lt →
  String.compare s1 s3 = Lt.
Proof.
  revert s2 s3.
  induction s1 as [|a s1 IH]; intros [|b s2] [|c s3]; simpl; try done.
  destruct (Ascii.compare a b) eqn:Hab; try done;
    destruct (Ascii.compare b c) eqn:Hbc; try done; intros H1 H2.
  - apply Ascii.compare_eq_iff in Hab, Hbc. subst.
    rewrite ascii_compare_refl. eauto.
  - apply Ascii.compare_eq_iff in Hab. subst. by rewrite Hbc.
  - apply Ascii.compare_eq_iff in Hbc. subst. by rewrite Hab.
  - by rewrite (ascii_compare_lt_trans a b c).
Qed.

Lemma string_compare_gt_lt (s1 s2 : string) :
  String.compare s1 s2 = Gt ↔ String.compare s2 s1 = Lt.
Proof.
  rewrite (String.compare_antisym s2 s1).
  destruct (String.compare s1 s2); simpl; split; congruence.
Qed.

#[global] Instance path_le_total : Total PathLib.le.
Proof.
  unfold Total, PathLib.le. intros p.
  induction p as [|a p IH]; intros [|b q]; simpl; auto.
  rewrite (String.compare_antisym b a).
  destruct (String.compare a b); simpl; auto.
Qed.

#[global] Instance path_le_trans : Transitive PathLib.le.
Proof.
  unfold Transitive, PathLib.le. intros p.
  induction p as [|a p IH]; intros [|b q] [|c r]; simpl; try done.
  destruct (String.compare a b) eqn:Hab; try done;
    destruct (String.compare b c) eqn:Hbc; try done; intros H1 H2.
  - apply String.compare_eq_iff in Hab, Hbc. subst.
    rewrite string_compare_refl. eauto.
  - apply String.compare_eq_iff in Hab. subst. by rewrite Hbc.
  - apply String.compare_eq_iff in Hbc. subst. by rewrite Hab.
  - by rewrite (string_compare_lt_trans a b c).
Qed.

#[global] Instance path_le_antisym : AntiSymm (=) PathLib.le.
Proof.
  unfold AntiSymm, PathLib.le. intros p.
  induction p as [|a p IH]; intros [|b q]; simpl; try done.
  rewrite (String.compare_antisym b a).
  destruct (String.compare a b) eqn:Hab; simpl; try done.
  intros H1 H2. apply String.compare_eq_iff in Hab. subst. f_equal. eauto.
Qed.

(** Paths of one directory are ordered as their names are. *)
Lemma path_leb_joinpath (d : Path) (a b : string) :
  PathLib.leb (PathLib.joinpath d a) (PathLib.joinpath d b) = String.leb a b.
Proof.
  unfold PathLib.joinpath.
  induction d as [|x d IH]; simpl.
  - unfold String.leb. by destruct (String.compare a b).
  - by rewrite string_compare_refl.
Qed.

Lemma name_joinpath (d : Path) (a : string) :
  PathLib.name (PathLib.joinpath d a) = a.
Proof. unfold PathLib.name, PathLib.joinpath. apply last_last. Qed.

Lemma sorted_Sorted (l : list Path) : StronglySorted PathLib.le (sorted l).
Proof. apply StronglySorted_merge_sort; apply _. Qed.

Lemma sorted_Permutation (l : list Path) : sorted l ≡ₚ l.
Proof. apply merge_sort_Permutation. Qed.

(** The result of [sorted] does not depend on the order of its input. *)
Lemma sorted_perm_eq (l1 l2 : list Path) : l1 ≡ₚ l2 → sorted l1 = sorted l2.
Proof.
  intros H. apply (StronglySorted_unique PathLib.le); try apply sorted_Sorted.
  by rewrite !sorted_Permutation.
Qed.

(** ** Suffixes and letter case *)

Lemma lower_char_dot (c : ascii) :
  Ascii.eqb (Py.lower_char c) "."%char = Ascii.eqb c "."%char.
Proof. by destruct c as [[] [] [] [] [] [] [] []]. Qed.

Lemma rfind_lower (s : string) :
  Py.rfind "."%char (Py.lower s) = Py.rfind "."%char s.
Proof.
  induction s as [|a s IH]; simpl; [done|].
  by rewrite IH, lower_char_dot.
Qed.

Lemma length_lower (s : string) :
  String.length (Py.lower s) = String.length s.
Proof. induction s; simpl; congruence. Qed.

Lemma substring_lower (n m : nat) (s : string) :
  String.substring n m (Py.lower s) = Py.lower (String.substring n m s).
Proof.
  revert n m.
  induction s as [|a s IH]; intros [|n] [|m]; simpl; rewrite ?IH; done.
Qed.

(** Lower-casing the suffix is taking the suffix of the lower-cased name. *)
Lemma lower_suffix (p : Path) :
  Py.lower (PathLib.suffix p) = PathLib.suffix [Py.lower (PathLib.name p)].
Proof.
  unfold PathLib.suffix. change (PathLib.name [?x]) with x.
  unfold Py.len, Py.slice_from.
  rewrite rfind_lower, length_lower, substring_lower.
  by destruct (_ && _).
Qed.

Lemma in_exts_spec (s : string) : in_exts s = true ↔ s ∈ exts.
Proof. unfold in_exts. apply bool_decide_eq_true. Qed.

Lemma joinpath_inj (d : Path) (a b : string) :
  PathLib.joinpath d a = PathLib.joinpath d b → a = b.
Proof. unfold PathLib.joinpath. intros H. by simplify_list_eq. Qed.

(** ** list_images *)

(** The files [list_images] counts: the entries with an image extension. *)
Lemma elem_of_image_files (d : Path) (entries : list string) (n : string) :
  PathLib.joinpath d n
    ∈ sorted (filter (λ p, has_image_ext p = true)
                (map (PathLib.joinpath d) entries))
  ↔ n ∈ entries ∧ Py.lower (PathLib.suffix (PathLib.joinpath d n)) ∈ exts.
Proof.
  rewrite sorted_Permutation, list_elem_of_filter.
  unfold has_image_ext. rewrite in_exts_spec.
  change (map ?f ?l) with (f <$> l). rewrite list_elem_of_fmap.
  split.
  - intros [He (m & Hm & Hin)]. apply joinpath_inj in Hm. by subst.
  - intros [Hin He]. eauto.
Qed.

Lemma length_sorted (l : list Path) : length (sorted l) = length l.
Proof. apply Permutation_length, sorted_Permutation. Qed.

Lemma list_images_few (d : Path) (entries : list string) :
  let files := filter (λ p, has_image_ext p = true)
                 (map (PathLib.joinpath d) entries) in
  (length files < 6)%nat →
  list_images d entries
  = inl (ValueError ("Need at least 6 images in " +:+ PathLib.str d
                     +:+ ", found " +:+ Py.repr_int (Z.of_nat (length files))
                     +:+ ".")).
Proof.
  intros files H. unfold list_images. fold files.
  rewrite length_sorted.
  destruct (Z.ltb_spec (Z.of_nat (length files)) 6); [done | lia].
Qed.

Lemma list_images_enough (d : Path) (entries : list string) :
  let files := filter (λ p, has_image_ext p = true)
                 (map (PathLib.joinpath d) entries) in
  (6 ≤ length files)%nat →
  list_images d entries = inr (take 6 (sorted files)).
Proof.
  intros files H. unfold list_images. fold files.
  rewrite length_sorted.
  destruct (Z.ltb_spec (Z.of_nat (length files)) 6); [lia | done].
Qed.

(** The order of the directory listing does not matter. *)
Lemma list_images_perm (d : Path) (l1 l2 : list string) :
  l1 ≡ₚ l2 → list_images d l1 = list_images d l2.
Proof.
  intros H. unfold list_images.
  assert (sorted (filter (λ p, has_image_ext p = true) (map (PathLib.joinpath d) l1))
          = sorted (filter (λ p, has_image_ext p = true) (map (PathLib.joinpath d) l2)))
    as ->; [|done].
  apply sorted_perm_eq. by rewrite H.
Qed.

(** Within one directory the path order is the order of the names. *)
Lemma sorted_by_name (d : Path) (l : list Path) :
  Forall (λ p, ∃ n, p = PathLib.joinpath d n) l →
  StronglySorted PathLib.le l →
  StronglySorted (λ p q, String.leb (PathLib.name p) (PathLib.name q) = true) l.
Proof.
  intros Hd Hs. induction Hs as [|p l Hs IH Hall]; [constructor|].
  apply Forall_cons in Hd as [[n ->] Hd].
  constructor; [by apply IH|].
  rewrite Forall_forall in Hd, Hall |- *. intros q Hq.
  destruct (Hd q Hq) as [m ->]. specialize (Hall _ Hq).
  unfold PathLib.le in Hall. rewrite path_leb_joinpath in Hall.
  by rewrite !name_joinpath.
Qed.


(** ** The size computed by [Image.thumbnail] *)

Section Thumbnail.
Open Scope Z_scope.

Lemma Qfloor_scaled (y w h : Z) :
  0 < h → Qfloor (inject_Z y * (inject_Z w / inject_Z h)) = (y * w) / h.
Proof.
  intros Hh. destruct h as [|ph|ph]; try lia.
  unfold Qdiv, Qmult, Qinv, inject_Z, Qfloor. simpl.
  f_equal; lia.
Qed.

Lemma Qceiling_scaled (y w h : Z) :
  0 < h → Qceiling (inject_Z y * (inject_Z w / inject_Z h)) = - ((- (y * w)) / h).
Proof.
  intros Hh. destruct h as [|ph|ph]; try lia.
  unfold Qceiling, Qopp, Qdiv, Qmult, Qinv, inject_Z, Qfloor. simpl.
  f_equal. f_equal; lia.
Qed.

Lemma Qfloor_unscaled (x w h : Z) :
  0 < w → 0 < h →
  Qfloor (inject_Z x / (inject_Z w / inject_Z h)) = (x * h) / w.
Proof.
  intros Hw Hh. destruct h as [|ph|ph]; try lia. destruct w as [|pw|pw]; try lia.
  unfold Qdiv, Qmult, Qinv, inject_Z, Qfloor. simpl.
  f_equal; lia.
Qed.

Lemma Qceiling_unscaled (x w h : Z) :
  0 < w → 0 < h →
  Qceiling (inject_Z x / (inject_Z w / inject_Z h)) = - ((- (x * h)) / w).
Proof.
  intros Hw Hh. destruct h as [|ph|ph]; try lia. destruct w as [|pw|pw]; try lia.
  unfold Qceiling, Qopp, Qdiv, Qmult, Qinv, inject_Z, Qfloor. simpl.
  f_equal. f_equal; lia.
Qed.

Lemma aspect_le_iff (w h x y : Z) :
  0 < h → 0 < y →
  Qle_bool (inject_Z w / inject_Z h) (inject_Z x / inject_Z y) = true
  ↔ w * y <= x * h.
Proof.
  intros Hh Hy. rewrite Qle_bool_iff.
  destruct h as [|ph|ph]; try lia. destruct y as [|py|py]; try lia.
  unfold Qle, Qdiv, Qmult, Qinv, inject_Z. simpl.
  rewrite !Z.mul_1_r. rewrite !Pos.mul_1_l. lia.
Qed.

(** [round_aspect] returns the floor or the ceiling, but at least 1. *)
Lemma round_aspect_cases (number : Q) (key : Z → Q) :
  PIL.round_aspect number key = Z.max (Qfloor number) 1
  ∨ PIL.round_aspect number key = Z.max (Qceiling number) 1.
Proof. unfold PIL.round_aspect. destruct (Qle_bool _ _); auto. Qed.

(** Rounding [a / b] down or up, then lifting to 1, stays within one of the
    exact quotient. *)
Lemma rounded_quotient (a b r : Z) :
  0 < a → 0 < b →
  r = Z.max (a / b) 1 ∨ r = Z.max (- ((- a) / b)) 1 →
  1 <= r ∧ Z.abs (r * b - a) < b ∧ (∀ c, a <= c * b → r <= Z.max c 1).
Proof.
  intros Ha Hb Hr.
  pose proof (Z.mul_div_le a b Hb). pose proof (Z.mul_succ_div_gt a b Hb).
  pose proof (Z.mul_div_le (- a) b Hb). pose proof (Z.mul_succ_div_gt (- a) b Hb).
  assert (0 <= a / b) by (apply Z.div_pos; lia).
  split; [lia|]. split.
  - destruct Hr as [-> | ->]; nia.
  - intros c Hc. destruct Hr as [-> | ->]; nia.
Qed.

Lemma preserve_aspect_ratio_None (w h x y : Z) :
  PIL.preserve_aspect_ratio w h (x, y) = None ↔ w <= x ∧ h <= y.
Proof.
  unfold PIL.preserve_aspect_ratio.
  destruct (Z.leb_spec w x), (Z.leb_spec h y); simpl;
    try destruct (Qle_bool _ _); split; try done; lia.
Qed.

Lemma preserve_aspect_ratio_Some (w h x y x' y' : Z) :
  0 < w → 0 < h → 0 < x → 0 < y →
  PIL.preserve_aspect_ratio w h (x, y) = Some (x', y') →
  ¬ (w <= x ∧ h <= y)
  ∧ 1 <= x' <= x ∧ 1 <= y' <= y ∧ x' <= w ∧ y' <= h
  ∧ Z.abs (x' * h - y' * w) < Z.max w h
  ∧ (x' = x ∨ y' = y).
Proof.
  intros Hw Hh Hx Hy H.
  assert (¬ (w <= x ∧ h <= y)) as Hfit.
  { intros Hf. apply preserve_aspect_ratio_None in Hf. congruence. }
  split; [done|].
  unfold PIL.preserve_aspect_ratio in H.
  destruct ((w <=? x) && (h <=? y)); [done|].
  destruct (Qle_bool _ _) eqn:Hb.
  - apply aspect_le_iff in Hb; [|done..].
    injection H as Hx' <-.
    match type of Hx' with
    | PIL.round_aspect ?n ?k = _ => pose proof (round_aspect_cases n k) as Hr
    end.
    rewrite Hx' in Hr. rewrite Qfloor_scaled, Qceiling_scaled in Hr by done.
    apply rounded_quotient in Hr as (H1 & Habs & Hle); [|nia|done].
    assert (y < h) by nia.
    pose proof (Hle x ltac:(lia)). pose proof (Hle w ltac:(nia)).
    split_and!; lia.
  - assert (¬ w * y <= x * h) as Hnb.
    { intros Hc. apply aspect_le_iff in Hc; [|done..]. congruence. }
    injection H as <- Hy'.
    match type of Hy' with
    | PIL.round_aspect ?n ?k = _ => pose proof (round_aspect_cases n k) as Hr
    end.
    rewrite Hy' in Hr. rewrite Qfloor_unscaled, Qceiling_unscaled in Hr by done.
    apply rounded_quotient in Hr as (H1 & Habs & Hle); [|nia|done].
    assert (x < w) by nia.
    pose proof (Hle y ltac:(lia)). pose proof (Hle h ltac:(nia)).
    split_and!; lia.
Qed.

(** What [thumbnail] does to an image of positive size, for a box of
    positive size: nothing when the image fits the box; otherwise the image
    is resampled to a size that fits the box, touches it on one side, is no
    larger than before, and has the same aspect ratio up to the rounding of
    one side to a whole number of pixels. *)
Lemma thumbnailed_spec (x y : Z) (im : PIL.Image) :
  0 < PIL.width im → 0 < PIL.height im → 0 < x → 0 < y →
  let t := PIL.thumbnailed (x, y) im in
  PIL.mode t = PIL.mode im
  ∧ PIL.orientation t = PIL.orientation im
  ∧ 1 <= PIL.width t <= x ∧ 1 <= PIL.height t <= y
  ∧ PIL.width t <= PIL.width im ∧ PIL.height t <= PIL.height im
  ∧ Z.abs (PIL.width t * PIL.height im - PIL.height t * PIL.width im)
    < Z.max (PIL.width im) (PIL.height im)
  ∧ (PIL.width im <= x ∧ PIL.height im <= y → t = im)
  ∧ (¬ (PIL.width im <= x ∧ PIL.height im <= y) →
     (PIL.width t = x ∨ PIL.height t = y)
     ∧ PIL.px t = PIL.Resampled (PIL.width t) (PIL.height t) (PIL.px im)).
Proof.
  intros Hw Hh Hx Hy t. subst t. unfold PIL.thumbnailed.
  destruct (PIL.preserve_aspect_ratio _ _ _) as [[x' y']|] eqn:Hp.
  - apply preserve_aspect_ratio_Some in Hp as (Hfit & ? & ? & ? & ? & ? & ?);
      [|done..].
    case_bool_decide as Heq.
    + exfalso. injection Heq as Hw' Hh'. lia.
    + simpl. split_and!; try done; try lia.
  - apply preserve_aspect_ratio_None in Hp.
    split_and!; try done; try lia.
Qed.

End Thumbnail.

(** ** Running the script *)

Lemma bind_inr {A B} (m : M A) (k : A → M B) w a w' :
  m w = (inr a, w') → bind m k w = k a w'.
Proof. unfold bind. by intros ->. Qed.

Lemma bind_inl {A B} (m : M A) (k : A → M B) w e w' :
  m w = (inl e, w') → bind m k w = (inl e, w').
Proof. unfold bind. by intros ->. Qed.

Lemma deref_Some r w im : heap w !! r = Some im → deref r w = (inr im, w).
Proof. unfold deref. by intros ->. Qed.

Lemma mutate_Some r f w im :
  heap w !! r = Some im →
  mutate r f w
  = (inr tt, {| heap := <[r := f im]> (heap w);
                written := written w; dirs := dirs w |}).
Proof. intros H. unfold mutate. by rewrite (bind_inr _ _ _ _ _ (deref_Some _ _ _ H)). Qed.

Lemma lookup_snoc_length {A} (l : list A) (x : A) : (l ++ [x]) !! length l = Some x.
Proof. by apply list_lookup_middle. Qed.

Lemma load_rgba_with_exif_Some fs p f w :
  image_at fs p = Some f →
  load_rgba_with_exif fs p w
  = (inr (length (heap w) + 2),
     {| heap := heap w ++ load_objects f p;
        written := written w; dirs := dirs w |}).
Proof.
  intros H. unfold load_rgba_with_exif, Image_open. rewrite H.
  unfold bind, alloc, exif_transpose, convert, bind, deref, alloc. simpl.
  rewrite lookup_snoc_length. simpl.
  rewrite lookup_snoc_length. simpl.
  rewrite !length_app, <- !app_assoc. simpl.
  f_equal. f_equal. lia.
Qed.

Lemma world_eta w : {| heap := heap w; written := written w; dirs := dirs w |} = w.
Proof. by destruct w. Qed.

Lemma make_assets_loop_run fs paths i acc w :
  make_assets_loop fs (enumerate i paths) acc w
  = (match first_undecodable fs paths with
     | None => inr (acc ++ assets_from fs (length (heap w)) i paths)
     | Some p => inl (UnidentifiedImageError p)
     end,
     {| heap := heap w ++ loaded_heap fs paths;
        written := written w; dirs := dirs w |}).
Proof.
  revert i acc w. induction paths as [|p paths IH]; intros i acc w; simpl.
  - by rewrite !app_nil_r, world_eta.
  - destruct (image_at fs p) as [f|] eqn:Hf.
    + rewrite (bind_inr _ _ _ _ _ (load_rgba_with_exif_Some _ _ _ _ Hf)).
      erewrite bind_inr; cycle 1.
      { apply deref_Some. simpl.
        rewrite lookup_app_r by lia.
        replace (length (heap w) + 2 - length (heap w)) with 2 by lia. done. }
      rewrite IH. simpl. rewrite length_app. simpl.
      rewrite <- !app_assoc. simpl.
      done.
    + unfold load_rgba_with_exif, Image_open. rewrite Hf.
      unfold bind, raise. by rewrite app_nil_r, world_eta.
Qed.


Lemma insert_snoc_length {A} (l : list A) (x y : A) :
  <[length l := y]> (l ++ [x]) = l ++ [y].
Proof. rewrite insert_app_r_alt by lia. by rewrite Nat.sub_diag. Qed.

Lemma lookup_middle {A} (l1 l2 : list A) (x : A) :
  (l1 ++ x :: l2) !! length l1 = Some x.
Proof. by apply list_lookup_middle. Qed.

Lemma insert_middle {A} (l1 l2 : list A) (x y : A) :
  <[length l1 := y]> (l1 ++ x :: l2) = l1 ++ y :: l2.
Proof. rewrite insert_app_r_alt by lia. by rewrite Nat.sub_diag. Qed.

Lemma deref_run h wr ds r im :
  h !! r = Some im →
  deref r {| heap := h; written := wr; dirs := ds |}
  = (inr im, {| heap := h; written := wr; dirs := ds |}).
Proof. intros H. by apply deref_Some. Qed.

Lemma mutate_run h wr ds r f im :
  h !! r = Some im →
  mutate r f {| heap := h; written := wr; dirs := ds |}
  = (inr tt, {| heap := <[r := f im]> h; written := wr; dirs := ds |}).
Proof. intros H. by rewrite (mutate_Some _ _ _ im). Qed.

Lemma copy_run h wr ds r im :
  h !! r = Some im →
  copy r {| heap := h; written := wr; dirs := ds |}
  = (inr (length h), {| heap := h ++ [im]; written := wr; dirs := ds |}).
Proof. intros H. unfold copy. by rewrite (bind_inr _ _ _ _ _ (deref_run _ _ _ _ _ H)). Qed.

Lemma convert_run h wr ds r m im :
  h !! r = Some im →
  convert m r {| heap := h; written := wr; dirs := ds |}
  = (inr (length h),
     {| heap := h ++ [PIL.converted m im]; written := wr; dirs := ds |}).
Proof. intros H. unfold convert. by rewrite (bind_inr _ _ _ _ _ (deref_run _ _ _ _ _ H)). Qed.

Lemma thumbnail_run h wr ds r size im :
  h !! r = Some im →
  thumbnail r size {| heap := h; written := wr; dirs := ds |}
  = (inr tt, {| heap := <[r := PIL.thumbnailed size im]> h;
                written := wr; dirs := ds |}).
Proof. apply mutate_run. Qed.

Lemma alpha_composite_run h wr ds sheet src dest s sh :
  h !! src = Some s → h !! sheet = Some sh →
  alpha_composite sheet src dest {| heap := h; written := wr; dirs := ds |}
  = (inr tt,
     {| heap := <[sheet := PIL.drawn (PIL.Composite (PIL.px s) (PIL.width s)
                             (PIL.height s) (fst dest) (snd dest)) sh]> h;
        written := wr; dirs := ds |}).
Proof.
  intros Hs Hsh. unfold alpha_composite.
  rewrite (bind_inr _ _ _ _ _ (deref_run _ _ _ _ _ Hs)). by apply mutate_run.
Qed.

Lemma save_run h wr ds r p q im :
  h !! r = Some im →
  save r p q {| heap := h; written := wr; dirs := ds |}
  = (inr tt, {| heap := h; written := wr ++ [(p, ImageData im q)]; dirs := ds |}).
Proof. intros H. unfold save. by rewrite (bind_inr _ _ _ _ _ (deref_run _ _ _ _ _ H)). Qed.

Lemma contact_sheet_tile_run h0 sh ts wr ds tile cols idx a im :
  h0 !! _image a = Some im →
  contact_sheet_tile (length h0) tile cols (idx, a)
    {| heap := h0 ++ sh :: ts; written := wr; dirs := ds |}
  = (inr tt,
     {| heap := h0 ++ draw_all (tile_ops tile cols idx a (PIL.thumbnailed tile im)) sh
                      :: (ts ++ [PIL.thumbnailed tile im]);
        written := wr; dirs := ds |}).
Proof.
  intros Him. destruct tile as [tw th]. unfold contact_sheet_tile.
  erewrite bind_inr; [|by apply copy_run, lookup_app_l_Some].
  erewrite bind_inr; [|apply thumbnail_run, lookup_snoc_length].
  rewrite insert_snoc_length.
  erewrite bind_inr; [|apply deref_run, lookup_snoc_length].
  rewrite <- app_assoc. simpl.
  erewrite bind_inr; cycle 1.
  { apply alpha_composite_run; [|apply lookup_middle].
    change (sh :: ts ++ [?t]) with ((sh :: ts) ++ [t]).
    rewrite app_assoc. apply lookup_snoc_length. }
  rewrite insert_middle.
  erewrite bind_inr; [|apply mutate_run, lookup_middle].
  rewrite insert_middle.
  unfold draw_text. erewrite mutate_run; [|apply lookup_middle].
  by rewrite insert_middle.
Qed.

Lemma draw_all_app ops1 ops2 sh :
  draw_all (ops1 ++ ops2) sh = draw_all ops2 (draw_all ops1 sh).
Proof. unfold draw_all. apply fold_left_app. Qed.

Lemma contact_sheet_loop_run h0 tile cols assets ims :
  asset_images h0 assets ims →
  ∀ idx sh ts wr ds,
    for_each (enumerate idx assets) (contact_sheet_tile (length h0) tile cols)
      {| heap := h0 ++ sh :: ts; written := wr; dirs := ds |}
    = (inr tt,
       {| heap := h0 ++ draw_all (sheet_ops tile cols idx assets ims) sh
                        :: (ts ++ map (PIL.thumbnailed tile) ims);
          written := wr; dirs := ds |}).
Proof.
  induction 1 as [|a im assets ims Ha _ IH]; intros idx sh ts wr ds; simpl.
  - by rewrite app_nil_r.
  - rewrite (bind_inr _ _ _ _ _ (contact_sheet_tile_run _ _ _ _ _ _ _ _ _ _ Ha)).
    rewrite IH. by rewrite draw_all_app, <- app_assoc.
Qed.

Lemma save_contact_sheet_run h wr ds assets ims out_path tile cols :
  asset_images h assets ims →
  save_contact_sheet assets out_path tile cols
    {| heap := h; written := wr; dirs := ds |}
  = (inr tt,
     {| heap := h ++ contact_sheet tile cols assets ims
                  :: map (PIL.thumbnailed tile) ims
                  ++ [PIL.converted "RGB" (contact_sheet tile cols assets ims)];
        written := wr ++ [(out_path,
                           ImageData (PIL.converted "RGB"
                                        (contact_sheet tile cols assets ims))
                             (Some 90%Z))];
        dirs := ds |}).
Proof.
  intros Ha. unfold save_contact_sheet. destruct tile as [tw th].
  unfold Image_new at 1. unfold bind at 1. unfold alloc at 1. simpl.
  change (h ++ [?s]) with (h ++ s :: []).
  rewrite (bind_inr _ _ _ _ _ (contact_sheet_loop_run _ _ _ _ _ Ha _ _ _ _ _)).
  simpl.
  erewrite bind_inr; [|apply convert_run, lookup_middle].
  erewrite save_run; [|apply lookup_snoc_length].
  by rewrite <- app_assoc.
Qed.

Lemma save_normalized_image_run h wr ds out_dir mse msb a im :
  h !! _image a = Some im →
  save_normalized_image out_dir mse msb a
    {| heap := h; written := wr; dirs := ds |}
  = (inr tt,
     {| heap := h ++ [normalized mse msb a im];
        written := wr ++ [(PathLib.joinpath out_dir (normalized_name a),
                           ImageData (normalized mse msb a im) None)];
        dirs := ds |}).
Proof.
  intros Ha. unfold save_normalized_image.
  erewrite bind_inr; [|by apply copy_run].
  erewrite bind_inr; [|apply deref_run, lookup_snoc_length].
  unfold normalized.
  destruct (Z.max (PIL.width im) (PIL.height im) >? _)%Z.
  - erewrite bind_inr; [|apply thumbnail_run, lookup_snoc_length].
    rewrite insert_snoc_length.
    erewrite save_run; [|apply lookup_snoc_length]. done.
  - unfold ret at 1. unfold bind at 1.
    erewrite save_run; [|apply lookup_snoc_length]. done.
Qed.

Lemma save_normalized_loop_run h0 out_dir mse msb assets ims :
  asset_images h0 assets ims →
  ∀ ts wr ds,
    for_each assets (save_normalized_image out_dir mse msb)
      {| heap := h0 ++ ts; written := wr; dirs := ds |}
    = (inr tt,
       {| heap := h0 ++ ts ++ zip_with (normalized mse msb) assets ims;
          written := wr ++ normalized_files out_dir mse msb assets ims;
          dirs := ds |}).
Proof.
  induction 1 as [|a im assets ims Ha _ IH]; intros ts wr ds; simpl.
  - by rewrite !app_nil_r.
  - erewrite bind_inr;
      [|by apply save_normalized_image_run, lookup_app_l_Some].
    rewrite <- (app_assoc h0). rewrite IH.
    by rewrite <- !app_assoc.
Qed.

Lemma save_normalized_images_run h wr ds out_dir mse msb assets ims :
  asset_images h assets ims →
  save_normalized_images assets out_dir mse msb
    {| heap := h; written := wr; dirs := ds |}
  = (inr tt,
     {| heap := h ++ zip_with (normalized mse msb) assets ims;
        written := wr ++ normalized_files out_dir mse msb assets ims;
        dirs := ds ++ [out_dir] |}).
Proof.
  intros Ha. unfold save_normalized_images.
  unfold mkdir at 1. unfold bind at 1. simpl.
  rewrite <- (app_nil_r h) at 1.
  by rewrite (save_normalized_loop_run _ _ _ _ _ _ Ha).
Qed.


Lemma asset_images_app h ts assets ims :
  asset_images h assets ims → asset_images (h ++ ts) assets ims.
Proof.
  unfold asset_images. intros H. eapply Forall2_impl; [exact H|].
  intros a im. apply lookup_app_l_Some.
Qed.

Lemma assets_from_images fs paths :
  first_undecodable fs paths = None →
  ∀ h i, asset_images (h ++ loaded_heap fs paths)
           (assets_from fs (length h) i paths) (loaded_images fs paths).
Proof.
  induction paths as [|p paths IH]; intros Hd h i; simpl in *.
  - constructor.
  - destruct (image_at fs p) as [f|]; [|done].
    constructor.
    + simpl. rewrite lookup_app_r by lia.
      by replace (length h + 2 - length h) with 2 by lia.
    + specialize (IH Hd (h ++ load_objects f p) (i + 1)%Z).
      rewrite length_app in IH. simpl in IH.
      by rewrite <- app_assoc in IH.
Qed.

Lemma make_assets_run fs paths w :
  make_assets fs paths w
  = (match first_undecodable fs paths with
     | None => inr (assets_from fs (length (heap w)) 1 paths)
     | Some p => inl (UnidentifiedImageError p)
     end,
     {| heap := heap w ++ loaded_heap fs paths;
        written := written w; dirs := dirs w |}).
Proof. unfold make_assets. by rewrite make_assets_loop_run. Qed.

Lemma main_run fs input_dir outdir w :
  main fs input_dir outdir w = main_result fs input_dir outdir w.
Proof.
  unfold main, main_result. destruct w as [h wr ds].
  erewrite bind_inr; [|reflexivity].
  destruct (list_images _ _) as [e|paths].
  { by erewrite bind_inl; [|reflexivity]. }
  erewrite bind_inr; [|reflexivity].
  unfold heap at 1 2 3, written, dirs.
  pose proof (assets_from_images fs paths) as Hims.
  destruct (first_undecodable fs paths) as [p|] eqn:Hd.
  { erewrite bind_inl; [done|]. rewrite make_assets_run. simpl. by rewrite Hd. }
  specialize (Hims eq_refl h 1%Z).
  erewrite bind_inr; [|rewrite make_assets_run; simpl; by rewrite Hd].
  erewrite bind_inr; [|by apply save_contact_sheet_run].
  erewrite bind_inr;
    [|by apply save_normalized_images_run, asset_images_app].
  reflexivity.
Qed.

Lemma first_undecodable_None fs paths :
  first_undecodable fs paths = None
  ↔ Forall (λ p, is_Some (image_at fs p)) paths.
Proof.
  induction paths as [|p paths IH]; simpl.
  - split; [constructor | done].
  - rewrite Forall_cons, <- IH.
    destruct (image_at fs p); split.
    + intros ?. split; [by eexists | done].
    + by intros [_ ?].
    + done.
    + intros [[? [=]] _].
Qed.

Lemma length_assets_from fs paths :
  first_undecodable fs paths = None →
  ∀ base i, length (assets_from fs base i paths) = length paths.
Proof.
  induction paths as [|p paths IH]; intros Hd base i; simpl in *; [done|].
  destruct (image_at fs p); [|done]. simpl. by rewrite IH.
Qed.

Lemma assets_from_lookup fs paths :
  first_undecodable fs paths = None →
  ∀ base i (k : nat) p,
    paths !! k = Some p →
    ∃ f, image_at fs p = Some f
         ∧ assets_from fs base i paths !! k
           = Some {| id := i + Z.of_nat k;
                     role := if (i + Z.of_nat k <? 6)%Z
                             then "element" else "background";
                     path := PathLib.str p;
                     width := PIL.width (loaded f p);
                     height := PIL.height (loaded f p);
                     _image := base + 3 * k + 2 |}.
Proof.
  induction paths as [|q paths IH]; intros Hd base i k p Hk; simpl in *; [done|].
  destruct (image_at fs q) as [f|] eqn:Hf; [|done].
  destruct k as [|k]; simpl in *.
  - injection Hk as ->. exists f. split; [done|].
    rewrite Z.add_0_r. do 2 f_equal. lia.
  - destruct (IH Hd (base + 3) (i + 1)%Z k p Hk) as (g & Hg & ->).
    exists g. split; [done|].
    replace (i + 1 + Z.of_nat k)%Z with (i + Z.pos (Pos.of_succ_nat k))%Z by lia.
    do 2 f_equal. lia.
Qed.

(** C1: for a list of at least six paths that decode, [make_assets] returns
    one asset per path, in input order; the asset at position k (from 0)
    has id k+1 and the string of the k-th path; the assets with ids 1 to 5
    have role "element" and the asset with id 6 has role "background". *)
Theorem make_assets_positional_roles (fs : FileSystem) (paths : list Path)
    (w : World) :
  (6 ≤ length paths)%nat →
  Forall (λ p, is_Some (image_at fs p)) paths →
  ∃ assets w',
    make_assets fs paths w = (inr assets, w')
    ∧ length assets = length paths
    ∧ (∀ (k : nat) (p : Path),
          paths !! k = Some p →
          ∃ a, assets !! k = Some a
               ∧ id a = (Z.of_nat k + 1)%Z
               ∧ path a = PathLib.str p
               ∧ ((k < 5)%nat → role a = "element")
               ∧ (k = 5%nat → role a = "background")).
Proof.
  intros Hlen Hd. apply first_undecodable_None in Hd.
  eexists _, _. rewrite make_assets_run, Hd.
  split; [done|]. split; [by apply length_assets_from|].
  intros k p Hk.
  destruct (assets_from_lookup fs paths Hd (length (heap w)) 1%Z k p Hk)
    as (f & Hf & Ha).
  eexists. split; [exact Ha|]. simpl.
  split; [lia|]. split; [done|]. split.
  - intros Hk5. destruct (Z.ltb_spec (1 + Z.of_nat k) 6); [done | lia].
  - intros ->. done.
Qed.

Lemma make_assets_positional_roles_witness :
  ∃ assets w',
    make_assets example_fs example_paths empty_world = (inr assets, w')
    ∧ length assets = length example_paths
    ∧ (∀ (k : nat) (p : Path),
          example_paths !! k = Some p →
          ∃ a, assets !! k = Some a
               ∧ id a = (Z.of_nat k + 1)%Z
               ∧ path a = PathLib.str p
               ∧ ((k < 5)%nat → role a = "element")
               ∧ (k = 5%nat → role a = "background")).
Proof.
  apply (make_assets_positional_roles example_fs example_paths empty_world).
  - simpl. lia.
  - repeat constructor; by eexists.
Defined.

Lemma first_undecodable_Some fs paths p :
  first_undecodable fs paths = Some p → p ∈ paths ∧ image_at fs p = None.
Proof.
  induction paths as [|q paths IH]; simpl; [done|].
  destruct (image_at fs q) eqn:Hq.
  - intros H. destruct (IH H). split; [by right | done].
  - intros [= ->]. split; [by left | done].
Qed.

Lemma image_files_in_dir (d : Path) (entries : list string) :
  Forall (λ p, ∃ n, p = PathLib.joinpath d n)
    (sorted (filter (λ p, has_image_ext p = true)
               (map (PathLib.joinpath d) entries))).
Proof.
  rewrite sorted_Permutation. apply Forall_forall. intros p Hp.
  apply list_elem_of_filter in Hp as [_ Hp].
  change (map ?f ?l) with (f <$> l) in Hp.
  apply list_elem_of_fmap in Hp as (n & -> & _). by exists n.
Qed.

(** C2: [list_images] raises exactly when fewer than six directory entries
    have an image extension; otherwise it returns six paths, which are the
    first six of the matching entries in sorted order (by path, which is by
    name).  For the whole script: it raises [ValueError] exactly in that
    case, and its only other failure is PIL failing to decode one of the
    six selected files. *)
Theorem list_images_minimum_count (fs : FileSystem) (input_dir outdir : Path)
    (w : World) :
  let entries := iterdir fs input_dir in
  let matching := filter (λ p, has_image_ext p = true)
                    (map (PathLib.joinpath input_dir) entries) in
  ((∃ e, list_images input_dir entries = inl e) ↔ (length matching < 6)%nat)
  ∧ ((6 ≤ length matching)%nat →
     ∃ files rest,
       list_images input_dir entries = inr files
       ∧ length files = 6%nat
       ∧ files ++ rest ≡ₚ matching
       ∧ StronglySorted PathLib.le (files ++ rest)
       ∧ StronglySorted
           (λ p q, String.leb (PathLib.name p) (PathLib.name q) = true)
           (files ++ rest))
  ∧ ((∃ msg w', main fs input_dir outdir w = (inl (ValueError msg), w'))
     ↔ (length matching < 6)%nat)
  ∧ (∀ e w', main fs input_dir outdir w = (inl e, w') →
       (∃ msg, e = ValueError msg ∧ (length matching < 6)%nat)
       ∨ (∃ files p, list_images input_dir entries = inr files
                     ∧ p ∈ files ∧ image_at fs p = None
                     ∧ e = UnidentifiedImageError p))
  ∧ ((6 ≤ length matching)%nat →
     (∀ files, list_images input_dir entries = inr files →
               Forall (λ p, is_Some (image_at fs p)) files) →
     ∃ w', main fs input_dir outdir w = (inr tt, w')).
Proof.
  intros entries matching.
  pose proof (list_images_few input_dir entries) as Hfew.
  pose proof (list_images_enough input_dir entries) as Hmany.
  simpl in Hfew, Hmany. fold matching in Hfew, Hmany.
  destruct (decide (length matching < 6)%nat) as [Hlt|Hge].
  - specialize (Hfew Hlt). split_and!.
    + split; [done | by eexists].
    + lia.
    + split; [done|]. intros _. rewrite main_run. unfold main_result.
      fold entries. rewrite Hfew. by eexists _, _.
    + intros e w'. rewrite main_run. unfold main_result.
      fold entries. rewrite Hfew. intros [= <- <-]. left. by eexists.
    + lia.
  - specialize (Hmany ltac:(lia)). split_and!.
    + split; [|lia]. intros [e He]. congruence.
    + intros _. exists (take 6 (sorted matching)), (drop 6 (sorted matching)).
      rewrite take_drop. split_and!.
      * done.
      * rewrite length_take, length_sorted. lia.
      * apply sorted_Permutation.
      * apply sorted_Sorted.
      * apply (sorted_by_name input_dir); [|apply sorted_Sorted].
        apply image_files_in_dir.
    + split; [|lia]. intros (msg & w' & H). revert H.
      rewrite main_run. unfold main_result. fold entries. rewrite Hmany.
      by destruct (first_undecodable _ _).
    + intros e w'. rewrite main_run. unfold main_result.
      fold entries. rewrite Hmany.
      destruct (first_undecodable _ _) as [p|] eqn:Hp; [|done].
      intros [= <- <-]. right.
      apply first_undecodable_Some in Hp as [? ?]. by eexists _, _.
    + intros _ Hd. specialize (Hd _ Hmany).
      apply first_undecodable_None in Hd.
      rewrite main_run. unfold main_result. fold entries.
      rewrite Hmany, Hd. by eexists.
Qed.

Section Normalized.
Open Scope Z_scope.

Lemma normalized_spec (mse msb : Z) (a : PhotoAsset) (im : PIL.Image) :
  let target := if String.eqb (role a) "background" then msb else mse in
  let c := normalized mse msb a im in
  0 < PIL.width im → 0 < PIL.height im → 0 < target →
  Z.max (PIL.width c) (PIL.height c) <= target
  ∧ (Z.max (PIL.width im) (PIL.height im) <= target → c = im)
  ∧ (target < Z.max (PIL.width im) (PIL.height im) →
     Z.max (PIL.width c) (PIL.height c) = target
     ∧ PIL.width c <= PIL.width im ∧ PIL.height c <= PIL.height im
     ∧ PIL.px c = PIL.Resampled (PIL.width c) (PIL.height c) (PIL.px im))
  ∧ Z.abs (PIL.width c * PIL.height im - PIL.height c * PIL.width im)
    < Z.max (PIL.width im) (PIL.height im).
Proof.
  intros target c Hw Hh Ht. subst c. unfold normalized. fold target.
  destruct (Z.gtb_spec (Z.max (PIL.width im) (PIL.height im)) target) as [Hgt|Hle].
  - destruct (thumbnailed_spec target target im Hw Hh Ht Ht)
      as (_ & _ & ? & ? & ? & ? & ? & _ & Hshrunk).
    destruct Hshrunk as [? ?]; [lia|].
    split_and!; [lia | intros; lia | intros; split_and!; [lia..|done] | lia].
  - split_and!; [lia | done | intros; lia | lia].
Qed.

End Normalized.

Lemma zip_with_zip_with_r {A B C D} (f : A → C → D) (g : A → B → C)
    (l : list A) (k : list B) :
  zip_with f l (zip_with g l k) = zip_with (λ a b, f a (g a b)) l k.
Proof.
  revert k. induction l as [|a l IH]; intros [|b k]; simpl; [done..|].
  by rewrite IH.
Qed.

(** C3: [save_normalized_images] writes one copy per asset, in order.  For an
    asset whose image has positive size, the larger side of the copy is at
    most the threshold of its role (1600 for "element", 2400 for
    "background"); the copy is the image itself when the image is within the
    threshold, and otherwise a resampled image whose larger side is the
    threshold, no side larger than before, and whose aspect ratio is that
    of the image up to the rounding of one side to whole pixels. *)
Theorem save_normalized_images_bounds (w : World) (assets : list PhotoAsset)
    (ims : list PIL.Image) (out_dir : Path) :
  asset_images (heap w) assets ims →
  Forall (λ im, (0 < PIL.width im)%Z ∧ (0 < PIL.height im)%Z) ims →
  ∃ copies w',
    save_normalized_images assets out_dir 1600%Z 2400%Z w = (inr tt, w')
    ∧ written w'
      = written w
        ++ zip_with (λ a c, (PathLib.joinpath out_dir (normalized_name a),
                             ImageData c None)) assets copies
    ∧ length copies = length assets
    ∧ ∀ (k : nat) a im,
        assets !! k = Some a → ims !! k = Some im →
        ∃ c, copies !! k = Some c
             ∧ (role a = "element" →
                (Z.max (PIL.width c) (PIL.height c) ≤ 1600)%Z
                ∧ ((Z.max (PIL.width im) (PIL.height im) ≤ 1600)%Z → c = im)
                ∧ ((1600 < Z.max (PIL.width im) (PIL.height im))%Z →
                   Z.max (PIL.width c) (PIL.height c) = 1600%Z))
             ∧ (role a = "background" →
                (Z.max (PIL.width c) (PIL.height c) ≤ 2400)%Z
                ∧ ((Z.max (PIL.width im) (PIL.height im) ≤ 2400)%Z → c = im)
                ∧ ((2400 < Z.max (PIL.width im) (PIL.height im))%Z →
                   Z.max (PIL.width c) (PIL.height c) = 2400%Z))
             ∧ (c = im
                ∨ PIL.px c = PIL.Resampled (PIL.width c) (PIL.height c) (PIL.px im)
                  ∧ (PIL.width c ≤ PIL.width im)%Z
                  ∧ (PIL.height c ≤ PIL.height im)%Z)
             ∧ (Z.abs (PIL.width c * PIL.height im - PIL.height c * PIL.width im)
                < Z.max (PIL.width im) (PIL.height im))%Z.
Proof.
  intros Ha Hpos. destruct w as [h wr ds]. simpl in Ha.
  exists (zip_with (normalized 1600 2400) assets ims). eexists.
  rewrite (save_normalized_images_run _ _ _ _ _ _ _ _ Ha). simpl.
  split; [done|]. split.
  { unfold normalized_files. by rewrite zip_with_zip_with_r. }
  pose proof (Forall2_length _ _ _ Ha) as Hlen.
  split. { rewrite length_zip_with. lia. }
  intros k a im Hka Hkim.
  exists (normalized 1600 2400 a im). split.
  { rewrite lookup_zip_with, Hka. simpl. by rewrite Hkim. }
  rewrite Forall_forall in Hpos.
  destruct (Hpos im) as [Hw Hh]. { by eapply list_elem_of_lookup_2. }
  pose proof (normalized_spec 1600 2400 a im) as Hn. simpl in Hn.
  split_and!.
  - intros Hr. rewrite Hr in Hn. simpl in Hn.
    destruct (Hn Hw Hh ltac:(lia)) as (? & ? & Hs & ?).
    split_and!; try done. intros Hgt. by destruct (Hs Hgt).
  - intros Hr. rewrite Hr in Hn. simpl in Hn.
    destruct (Hn Hw Hh ltac:(lia)) as (? & ? & Hs & ?).
    split_and!; try done. intros Hgt. by destruct (Hs Hgt).
  - destruct (Hn Hw Hh ltac:(by destruct (String.eqb _ _)))
      as (_ & Hsame & Hs & _).
    destruct (decide (Z.max (PIL.width im) (PIL.height im)
                      ≤ (if String.eqb (role a) "background" then 2400 else 1600))%Z)
      as [Hle|Hgt].
    + left. by apply Hsame.
    + right. destruct Hs as (_ & ? & ? & ?); [lia | done].
  - by destruct (Hn Hw Hh ltac:(by destruct (String.eqb _ _))) as (_ & _ & _ & ?).
Qed.

Lemma save_normalized_images_bounds_witness :
  ∃ copies w',
    save_normalized_images example_assets ["out"] 1600%Z 2400%Z example_world
    = (inr tt, w')
    ∧ written w'
      = written example_world
        ++ zip_with (λ a c, (PathLib.joinpath ["out"] (normalized_name a),
                             ImageData c None)) example_assets copies
    ∧ length copies = length example_assets
    ∧ ∀ (k : nat) a im,
        example_assets !! k = Some a → example_heap !! k = Some im →
        ∃ c, copies !! k = Some c
             ∧ (role a = "element" →
                (Z.max (PIL.width c) (PIL.height c) ≤ 1600)%Z
                ∧ ((Z.max (PIL.width im) (PIL.height im) ≤ 1600)%Z → c = im)
                ∧ ((1600 < Z.max (PIL.width im) (PIL.height im))%Z →
                   Z.max (PIL.width c) (PIL.height c) = 1600%Z))
             ∧ (role a = "background" →
                (Z.max (PIL.width c) (PIL.height c) ≤ 2400)%Z
                ∧ ((Z.max (PIL.width im) (PIL.height im) ≤ 2400)%Z → c = im)
                ∧ ((2400 < Z.max (PIL.width im) (PIL.height im))%Z →
                   Z.max (PIL.width c) (PIL.height c) = 2400%Z))
             ∧ (c = im
                ∨ PIL.px c = PIL.Resampled (PIL.width c) (PIL.height c) (PIL.px im)
                  ∧ (PIL.width c ≤ PIL.width im)%Z
                  ∧ (PIL.height c ≤ PIL.height im)%Z)
             ∧ (Z.abs (PIL.width c * PIL.height im - PIL.height c * PIL.width im)
                < Z.max (PIL.width im) (PIL.height im))%Z.
Proof.
  apply (save_normalized_images_bounds example_world example_assets
           example_heap ["out"]).
  - repeat constructor.
  - repeat constructor.
Defined.

(** ** The contact sheet *)

Lemma draw_all_fields ops sh :
  PIL.mode (draw_all ops sh) = PIL.mode sh
  ∧ PIL.width (draw_all ops sh) = PIL.width sh
  ∧ PIL.height (draw_all ops sh) = PIL.height sh
  ∧ PIL.drawn_ops (PIL.px (draw_all ops sh)) = PIL.drawn_ops (PIL.px sh) ++ ops.
Proof.
  revert sh. induction ops as [|op ops IH]; intros sh; simpl.
  - by rewrite app_nil_r.
  - destruct (IH (PIL.drawn op sh)) as (-> & -> & -> & ->). simpl.
    by rewrite <- app_assoc.
Qed.

Lemma length_tile_ops tile cols idx a t :
  length (tile_ops tile cols idx a t) = 3%nat.
Proof. by destruct tile. Qed.

Lemma length_sheet_ops tile cols assets ims :
  length assets = length ims →
  ∀ idx, length (sheet_ops tile cols idx assets ims) = (3 * length assets)%nat.
Proof.
  revert ims. induction assets as [|a assets IH]; intros [|im ims] Hl idx;
    simpl in *; try done.
  rewrite length_app, length_tile_ops, IH by lia. lia.
Qed.

Lemma sheet_ops_lookup tile cols assets :
  ∀ ims idx (k : nat) a im (j : nat),
    assets !! k = Some a → ims !! k = Some im → (j < 3)%nat →
    sheet_ops tile cols idx assets ims !! (3 * k + j)%nat
    = tile_ops tile cols (idx + Z.of_nat k) a (PIL.thumbnailed tile im) !! j.
Proof.
  induction assets as [|b assets IH]; intros [|im' ims] idx k a im j Ha Him Hj;
    try done.
  destruct k as [|k]; simpl in Ha, Him.
  - injection Ha as ->. injection Him as ->. simpl sheet_ops.
    rewrite lookup_app_l by (rewrite length_tile_ops; lia).
    by rewrite Z.add_0_r.
  - simpl sheet_ops. rewrite lookup_app_r by (rewrite length_tile_ops; lia).
    rewrite length_tile_ops.
    replace (3 * S k + j - 3)%nat with (3 * k + j)%nat by lia.
    rewrite (IH ims (idx + 1)%Z k a im j Ha Him Hj).
    by replace (idx + 1 + Z.of_nat k)%Z with (idx + Z.of_nat (S k))%Z by lia.
Qed.

(** ** The pixels under a label box *)

Lemma thumbnailed_thumbnail_of (bw bh : Z) (im : PIL.Image) :
  (0 < PIL.width im)%Z → (0 < PIL.height im)%Z → (0 < bw)%Z → (0 < bh)%Z →
  thumbnail_of bw bh im (PIL.thumbnailed (bw, bh) im).
Proof.
  intros Hw Hh Hbw Hbh.
  destruct (thumbnailed_spec bw bh im Hw Hh Hbw Hbh)
    as (_ & _ & H1 & H2 & H3 & H4 & H5 & H6 & H7).
  unfold thumbnail_of. split_and!; (done || lia || apply H7 || idtac).
Qed.

Lemma canvas_pixel_draw_all R ops :
  ∀ sh i j,
    canvas_pixel R (PIL.px (draw_all ops sh)) i j
    = fold_left (λ c op, paint R op c i j) ops (canvas_pixel R (PIL.px sh) i j).
Proof.
  induction ops as [|op ops IH]; intros sh i j; [done|].
  change (draw_all (op :: ops) sh) with (draw_all ops (PIL.drawn op sh)).
  by rewrite IH.
Qed.

Lemma sheet_ops_app tile cols as1 :
  ∀ is1 as2 is2 idx,
    length as1 = length is1 →
    sheet_ops tile cols idx (as1 ++ as2) (is1 ++ is2)
    = sheet_ops tile cols idx as1 is1
      ++ sheet_ops tile cols (idx + Z.of_nat (length as1)) as2 is2.
Proof.
  induction as1 as [|a as1 IH]; intros [|im is1] as2 is2 idx Hlen; try done.
  - simpl. by rewrite Z.add_0_r.
  - simpl in Hlen. cbn [app sheet_ops length]. rewrite IH by lia.
    rewrite <- app_assoc. do 3 f_equal. lia.
Qed.

(** A whole number below a float stays below it when the float is cut. *)
Lemma le_float_to_int (z : Z) (q : Q) :
  (inject_Z z <= q)%Q → (z ≤ float_to_int q)%Z.
Proof.
  intros Hq. unfold float_to_int. destruct (Qle_bool 0 q).
  - rewrite <- (Qfloor_Z z). by apply Qfloor_resp_le.
  - rewrite <- (Qceiling_Z z). by apply Qceiling_resp_le.
Qed.

Section LabelBox.

Variable R : Rendering.
Hypothesis font : plain_font R.

(** The three operations of a tile turn the pixel at the corner of its
    thumbnail into the fill of the box, whatever was there. *)
Lemma tile_ops_corner (idx : Z) (a : PhotoAsset) (t : PIL.Image) (c : PIL.rgba) :
  let x := ((idx mod 3) * 480 + (480 - PIL.width t) / 2)%Z in
  let y := ((idx / 3) * 320 + (320 - PIL.height t) / 2)%Z in
  fold_left (λ c op, paint R op c x y) (tile_ops (480, 320)%Z 3 idx a t) c
  = (0, 0, 0, 120)%Z.
Proof.
  intros x y. destruct font as [Hlen Hink].
  cbn [tile_ops fold_left paint feval]. fold x y.
  rewrite !Z.leb_refl. cbn [andb].
  assert (x ≤ float_to_int
                (inject_Z x + text_length R (Py.repr_int (id a) +:+ ": " +:+ role a)
                 + inject_Z 8))%Z as Hx.
  { apply le_float_to_int.
    pose proof (Hlen (Py.repr_int (id a) +:+ ": " +:+ role a)) as Hl.
    assert (0 <= inject_Z 8)%Q by done.
    rewrite <- (Qplus_0_r (inject_Z x)) at 1. rewrite <- Qplus_assoc.
    apply Qplus_le_r.
    rewrite <- (Qplus_0_r 0). by apply Qplus_le_compat. }
  assert (y ≤ float_to_int (inject_Z (y + 12 + 6)))%Z as Hy.
  { apply le_float_to_int. rewrite <- Zle_Qle. lia. }
  apply Z.leb_le in Hx, Hy. rewrite Hx, Hy. cbn [andb].
  destruct (text_ink R _ (x - (x + 4)) (y - (y + 2))) eqn:Hi; [|done].
  apply Hink in Hi. lia.
Qed.

(** The tiles after index [k] leave the pixels of tile [k] alone, up to
    the right and lower edge of that tile. *)
Lemma later_tiles_leave (k : Z) (i j : Z) (assets : list PhotoAsset) :
  ∀ (ims : list PIL.Image) (idx : Z) (c : PIL.rgba),
    Forall (λ im, (0 < PIL.width im)%Z ∧ (0 < PIL.height im)%Z) ims →
    (0 ≤ k < idx)%Z →
    (i < (k mod 3 + 1) * 480)%Z → (j < (k / 3 + 1) * 320)%Z →
    fold_left (λ c op, paint R op c i j) (sheet_ops (480, 320)%Z 3 idx assets ims) c
    = c.
Proof.
  destruct font as [_ Hink].
  induction assets as [|a assets IH]; intros [|im ims] idx c Hpos Hk Hi Hj;
    try done.
  apply Forall_cons in Hpos as [[Hw Hh] Hpos].
  cbn [sheet_ops]. rewrite fold_left_app.
  rewrite IH by (done || lia).
  destruct (thumbnailed_spec 480 320 im Hw Hh ltac:(lia) ltac:(lia))
    as (_ & _ & Htw & Hth & _).
  set (t := PIL.thumbnailed (480, 320)%Z im) in *.
  cbn [tile_ops fold_left paint].
  set (x := ((idx mod 3) * 480 + (480 - PIL.width t) / 2)%Z).
  set (y := ((idx / 3) * 320 + (320 - PIL.height t) / 2)%Z).
  assert (i < x ∨ j < y)%Z as Hout.
  { subst x y. Z.div_mod_to_equations. lia. }
  assert ((x <=? i) && (y <=? j) = false)%Z as Hcorner.
  { apply andb_false_iff. rewrite !Z.leb_gt. lia. }
  rewrite !Hcorner. cbn [andb].
  destruct (text_ink R _ (i - (x + 4)) (j - (y + 2))) eqn:Hi'; [|done].
  apply Hink in Hi'. lia.
Qed.

(** In the finished sheet, and in the RGB image that is saved, the pixel
    at the corner of each thumbnail is the black of the label box. *)
Lemma contact_sheet_corner (assets : list PhotoAsset) (ims : list PIL.Image)
    (k : nat) (a : PhotoAsset) (im : PIL.Image) :
  length assets = length ims →
  Forall (λ im, (0 < PIL.width im)%Z ∧ (0 < PIL.height im)%Z) ims →
  assets !! k = Some a → ims !! k = Some im →
  let t := PIL.thumbnailed (480, 320)%Z im in
  let x := ((Z.of_nat k mod 3) * 480 + (480 - PIL.width t) / 2)%Z in
  let y := ((Z.of_nat k / 3) * 320 + (320 - PIL.height t) / 2)%Z in
  let sheet := contact_sheet (480, 320)%Z 3 assets ims in
  canvas_pixel R (PIL.px sheet) x y = (0, 0, 0, 120)%Z
  ∧ canvas_pixel R (PIL.px (PIL.converted "RGB" sheet)) x y = (0, 0, 0, 255)%Z.
Proof.
  intros Hlen Hpos Ha Him t x y sheet.
  assert (canvas_pixel R (PIL.px sheet) x y = (0, 0, 0, 120)%Z) as Hpx.
  { subst sheet. unfold contact_sheet. rewrite canvas_pixel_draw_all.
    rewrite <- (take_drop_middle assets k a Ha),
      <- (take_drop_middle ims k im Him).
    pose proof (lookup_lt_Some _ _ _ Ha) as Hka.
    pose proof (lookup_lt_Some _ _ _ Him) as Hki.
    rewrite sheet_ops_app by (rewrite !length_take; lia).
    rewrite length_take, Nat.min_l by lia. rewrite Z.add_0_l.
    rewrite fold_left_app. cbn [sheet_ops]. rewrite fold_left_app.
    fold t. rewrite (tile_ops_corner (Z.of_nat k) a t).
    destruct (Forall_lookup_1 _ _ _ _ Hpos Him) as [Hw Hh].
    destruct (thumbnailed_spec 480 320 im Hw Hh ltac:(lia) ltac:(lia))
      as (_ & _ & Htw & Hth & _).
    fold t in Htw, Hth.
    apply (later_tiles_leave (Z.of_nat k)).
    - rewrite <- (take_drop_middle ims k im Him) in Hpos.
      apply Forall_app in Hpos as [_ Hpos]. by apply Forall_cons in Hpos as [_ ?].
    - lia.
    - subst x. Z.div_mod_to_equations. lia.
    - subst y. Z.div_mod_to_equations. lia. }
  split; [done|].
  unfold PIL.converted.
  assert (PIL.mode sheet = "RGBA") as ->.
  { subst sheet. unfold contact_sheet.
    match goal with
    | |- context [draw_all ?ops ?sh] =>
        by destruct (draw_all_fields ops sh) as (-> & _)
    end. }
  cbn [String.eqb Ascii.eqb Bool.eqb PIL.px canvas_pixel]. cbn. by rewrite Hpx.
Qed.

End LabelBox.

(** Thumbnails have the mode of their images. *)
Lemma thumbnails_keep_mode (bw bh : Z) (m : string) (ims : list PIL.Image) :
  Forall (λ im, (0 < PIL.width im)%Z ∧ (0 < PIL.height im)%Z) ims →
  (0 < bw)%Z → (0 < bh)%Z →
  Forall (λ im, PIL.mode im = m) ims →
  Forall (λ t, PIL.mode t = m) (map (PIL.thumbnailed (bw, bh)) ims).
Proof.
  intros Hpos Hbw Hbh Hm. apply Forall_forall. intros t Ht.
  change (map ?f ?l) with (f <$> l) in Ht.
  apply list_elem_of_fmap in Ht as (im & -> & Him).
  rewrite Forall_forall in Hpos, Hm. destruct (Hpos im Him) as [Hw Hh].
  destruct (thumbnailed_spec bw bh im Hw Hh Hbw Hbh) as (-> & _).
  by apply Hm.
Qed.

(** C5: for six assets whose images are RGBA, as [make_assets] leaves them,
    and have positive size, the contact sheet is a canvas of 3 x 2 tiles of
    480 x 320 pixels.  The thumbnail of the
    asset at index k, whatever size [thumbnail] gives it within the tile,
    is composited at x = (k mod 3) * 480 + (480 - thumb_width) // 2 and
    y = (k div 3) * 320 + (320 - thumb_height) // 2: inside its tile, with
    margins on opposite sides that differ by at most one pixel.  A box
    with fill (0, 0, 0, 120) is drawn from that corner to the text length
    plus 8 to the right and 18 below, then the label.  The box is not
    blended with the thumbnail: the pixel at the corner is (0, 0, 0, 120)
    on the canvas, and black without alpha in the RGB image that is
    saved. *)
Theorem save_contact_sheet_layout (w : World) (assets : list PhotoAsset)
    (ims : list PIL.Image) (out_path : Path) :
  length assets = 6%nat →
  asset_images (heap w) assets ims →
  Forall (λ im, (0 < PIL.width im)%Z ∧ (0 < PIL.height im)%Z) ims →
  Forall (λ im, PIL.mode im = "RGBA") ims →
  ∃ sheet thumbs w',
    save_contact_sheet assets out_path (480, 320)%Z 3%Z w = (inr tt, w')
    ∧ written w'
      = written w ++ [(out_path, ImageData (PIL.converted "RGB" sheet) (Some 90%Z))]
    ∧ PIL.mode sheet = "RGBA"
    ∧ PIL.width sheet = (3 * 480)%Z ∧ PIL.height sheet = (2 * 320)%Z
    ∧ PIL.mode (PIL.converted "RGB" sheet) = "RGB"
    ∧ length (PIL.drawn_ops (PIL.px sheet)) = 18%nat
    ∧ Forall2 (thumbnail_of 480 320) ims thumbs
    ∧ Forall (λ t, PIL.mode t = "RGBA") thumbs
    ∧ ∀ (k : nat) a t,
        assets !! k = Some a → thumbs !! k = Some t →
        let col := (Z.of_nat k mod 3)%Z in
        let row := (Z.of_nat k / 3)%Z in
        let x := (col * 480 + (480 - PIL.width t) / 2)%Z in
        let y := (row * 320 + (320 - PIL.height t) / 2)%Z in
        let label := Py.repr_int (id a) +:+ ": " +:+ role a in
        let ops := PIL.drawn_ops (PIL.px sheet) in
        ops !! (3 * k)%nat
        = Some (PIL.Composite (PIL.px t) (PIL.width t) (PIL.height t) x y)
        ∧ ops !! (3 * k + 1)%nat
          = Some (PIL.Rectangle x y
                    (PIL.FAdd (PIL.FAdd (PIL.FInt x) (PIL.FTextLength label))
                       (PIL.FInt 8))
                    (PIL.FInt (y + 18)) (0, 0, 0, 120)%Z)
        ∧ ops !! (3 * k + 2)%nat
          = Some (PIL.Text (x + 4) (y + 2) label (255, 255, 255, 230)%Z)
        ∧ (0 ≤ col < 3)%Z ∧ (0 ≤ row < 2)%Z
        ∧ (col * 480 ≤ x)%Z ∧ (x + PIL.width t ≤ (col + 1) * 480)%Z
        ∧ (row * 320 ≤ y)%Z ∧ (y + PIL.height t ≤ (row + 1) * 320)%Z
        ∧ (0 ≤ ((col + 1) * 480 - (x + PIL.width t)) - (x - col * 480) ≤ 1)%Z
        ∧ (0 ≤ ((row + 1) * 320 - (y + PIL.height t)) - (y - row * 320) ≤ 1)%Z
        ∧ ∀ R : Rendering,
            plain_font R →
            canvas_pixel R (PIL.px sheet) x y = (0, 0, 0, 120)%Z
            ∧ canvas_pixel R (PIL.px (PIL.converted "RGB" sheet)) x y
              = (0, 0, 0, 255)%Z.
Proof.
  intros Hlen Ha Hpos Hrgba. destruct w as [h wr ds]. simpl in Ha.
  exists (contact_sheet (480, 320)%Z 3 assets ims),
    (map (PIL.thumbnailed (480, 320)%Z) ims).
  eexists.
  rewrite (save_contact_sheet_run _ _ _ _ _ _ _ _ Ha).
  split; [done|]. split; [done|].
  pose proof (Forall2_length _ _ _ Ha) as Hlen'.
  assert (∀ (k : nat) a im,
    assets !! k = Some a → ims !! k = Some im →
    ∀ R : Rendering,
      plain_font R →
      let t := PIL.thumbnailed (480, 320)%Z im in
      let x := ((Z.of_nat k mod 3) * 480 + (480 - PIL.width t) / 2)%Z in
      let y := ((Z.of_nat k / 3) * 320 + (320 - PIL.height t) / 2)%Z in
      let sheet := contact_sheet (480, 320)%Z 3 assets ims in
      canvas_pixel R (PIL.px sheet) x y = (0, 0, 0, 120)%Z
      ∧ canvas_pixel R (PIL.px (PIL.converted "RGB" sheet)) x y
        = (0, 0, 0, 255)%Z) as Hpixels.
  { intros k a im Hka Hkim R HR.
    by apply (contact_sheet_corner R HR assets ims k a im). }
  revert Hpixels. unfold contact_sheet. rewrite Hlen.
  match goal with
  | |- context [draw_all ?ops ?sh] =>
      destruct (draw_all_fields ops sh) as (Hmode & Hwd & Hht & Hops)
  end.
  intros Hpixels.
  rewrite ?Hmode, ?Hwd, ?Hht, ?Hops.
  cbn [PIL.mode PIL.width PIL.height PIL.px PIL.drawn_ops fst snd app].
  split; [done|]. split; [done|]. split; [done|].
  split. { unfold PIL.converted. cbn [fst snd] in Hmode. by rewrite Hmode. }
  split. { rewrite length_sheet_ops by done. by rewrite Hlen. }
  split.
  { change (map ?f ?l) with (f <$> l). apply Forall2_fmap_r, Forall_Forall2_diag.
    eapply Forall_impl; [exact Hpos|]. intros im [Hw Hh].
    by apply thumbnailed_thumbnail_of. }
  split. { by apply thumbnails_keep_mode. }
  intros k a t Hka Hkt.
  change (map ?f ?l) with (f <$> l) in Hkt. rewrite list_lookup_fmap in Hkt.
  destruct (ims !! k) as [im|] eqn:Hkim; [|done].
  injection Hkt as <-.
  set (t := PIL.thumbnailed (480, 320)%Z im).
  set (col := (Z.of_nat k mod 3)%Z). set (row := (Z.of_nat k / 3)%Z).
  assert (k < 6)%nat as Hk by (rewrite <- Hlen; by eapply lookup_lt_Some).
  rewrite Forall_forall in Hpos.
  destruct (Hpos im) as [Hw Hh]. { by eapply list_elem_of_lookup_2. }
  destruct (thumbnailed_spec 480 320 im Hw Hh ltac:(lia) ltac:(lia))
    as (_ & _ & Htw & Hth & _).
  fold t in Htw, Hth.
  assert (0 ≤ col < 3)%Z by (subst col; apply Z.mod_pos_bound; lia).
  assert (0 ≤ row < 2)%Z.
  { subst row. split; [apply Z.div_pos; lia|].
    apply Z.div_lt_upper_bound; lia. }
  pose proof (Z.div_mod (480 - PIL.width t) 2 ltac:(lia)).
  pose proof (Z.mod_pos_bound (480 - PIL.width t) 2 ltac:(lia)).
  pose proof (Z.div_mod (320 - PIL.height t) 2 ltac:(lia)).
  pose proof (Z.mod_pos_bound (320 - PIL.height t) 2 ltac:(lia)).
  pose proof (sheet_ops_lookup (480, 320)%Z 3 assets ims 0 k a im 0 Hka Hkim)
    as Hop0.
  rewrite Nat.add_0_r in Hop0. rewrite Hop0 by lia.
  rewrite !(sheet_ops_lookup _ _ _ _ _ _ _ _ _ Hka Hkim) by lia.
  rewrite Z.add_0_l. fold t. simpl.
  split; [done|]. split. { by rewrite <- Z.add_assoc. }
  split; [done|].
  split_and!; try done; try lia.
  intros R HR. apply (Hpixels k a im Hka Hkim R HR).
Qed.

(** ** The manifest *)

Lemma string_app_nil_l (t : string) : "" +:+ t = t.
Proof. reflexivity. Qed.

Lemma string_app_cons (c : ascii) (s t : string) :
  String c s +:+ t = String c (s +:+ t).
Proof. reflexivity. Qed.

Lemma string_app_assoc (s1 s2 s3 : string) :
  (s1 +:+ s2) +:+ s3 = s1 +:+ (s2 +:+ s3).
Proof.
  induction s1 as [|c s1 IH]; [done|].
  by rewrite !string_app_cons, IH.
Qed.

Create Rewrite HintDb strnorm.
#[local] Hint Rewrite string_app_nil_l string_app_cons string_app_assoc : strnorm.

(** The encoder writes numbers and strings by the rules of JSON. *)
Lemma digit_of_pretty (d : N) :
  (d < 10)%N → digit_of "0123456789" d = pretty_N_char d.
Proof.
  intros Hd. unfold digit_of, pretty_N_char.
  do 10 (destruct d as [|d] using N.peano_ind; [done|]). lia.
Qed.

Lemma decimal_digits_pretty (fuel : nat) :
  ∀ (n : N) (acc : string),
    (0 < n)%N → (n < 2 ^ N.of_nat fuel)%N →
    decimal_digits fuel n acc = pretty_N_go n acc.
Proof.
  induction fuel as [|fuel IH]; intros n acc Hpos Hfuel.
  { simpl in Hfuel. lia. }
  cbn [decimal_digits]. rewrite pretty_N_go_step by done.
  rewrite digit_of_pretty by (apply N.mod_lt; lia).
  destruct (N.ltb_spec n 10) as [Hsmall|Hbig].
  - by rewrite N.div_small, pretty_N_go_0.
  - apply IH.
    + apply N.div_str_pos. lia.
    + apply N.Div0.div_lt_upper_bound.
      rewrite Nat2N.inj_succ, N.pow_succ_r' in Hfuel. lia.
Qed.

Lemma decimal_repr_int (z : Z) : Py.repr_int z = decimal z.
Proof.
  assert (∀ p, pretty (N.pos p)
               = decimal_digits (S (N.to_nat (N.log2 (N.pos p)))) (N.pos p) "")
    as Hpos.
  { intros p. unfold pretty, pretty_N. case_decide; [done|].
    symmetry. apply decimal_digits_pretty; [lia|].
    rewrite Nat2N.inj_succ, N2Nat.id. apply N.log2_spec. lia. }
  unfold Py.repr_int. destruct z as [|p|p]; [done|apply Hpos|].
  change (pretty (Z.neg p)) with ("-" +:+ pretty (N.pos p)).
  by rewrite Hpos.
Qed.

Lemma json_char_escape_char (c : ascii) : Json.escape_char c = json_char c.
Proof. by destruct c as [[] [] [] [] [] [] [] []]. Qed.

Lemma json_chars_escape (s : string) : Json.escape s = json_chars s.
Proof.
  induction s as [|c s IH]; [done|].
  simpl. by rewrite IH, json_char_escape_char.
Qed.

(** The record in terms of the functions of the encoder. *)
Lemma manifest_record_encoded (a : PhotoAsset) :
  manifest_record a
  = "{" +:+ nl
    +:+ "    " +:+ quoted "id" +:+ ": " +:+ Py.repr_int (id a) +:+ "," +:+ nl
    +:+ "    " +:+ quoted "role" +:+ ": "
    +:+ quoted (Json.escape (role a)) +:+ "," +:+ nl
    +:+ "    " +:+ quoted "path" +:+ ": "
    +:+ quoted (Json.escape (path a)) +:+ "," +:+ nl
    +:+ "    " +:+ quoted "width" +:+ ": " +:+ Py.repr_int (width a) +:+ "," +:+ nl
    +:+ "    " +:+ quoted "height" +:+ ": " +:+ Py.repr_int (height a) +:+ nl
    +:+ "  }".
Proof.
  unfold manifest_record. by rewrite !decimal_repr_int, !json_chars_escape.
Qed.

Lemma iterencode_record (a : PhotoAsset) :
  Json.iterencode 2 1
    (Json.JDict [("id", Json.JInt (id a)); ("role", Json.JStr (role a));
                 ("path", Json.JStr (path a)); ("width", Json.JInt (width a));
                 ("height", Json.JInt (height a))])
  = manifest_record a.
Proof.
  cbn [Json.iterencode map fst snd String.concat].
  change (Json.encode_basestring_ascii "id") with (quoted "id").
  change (Json.encode_basestring_ascii "role") with (quoted "role").
  change (Json.encode_basestring_ascii "path") with (quoted "path").
  change (Json.encode_basestring_ascii "width") with (quoted "width").
  change (Json.encode_basestring_ascii "height") with (quoted "height").
  change (Json.newline_indent 2 2) with (nl +:+ "    ").
  change (Json.newline_indent 2 1) with (nl +:+ "  ").
  rewrite manifest_record_encoded.
  unfold Json.encode_basestring_ascii, quoted, nl.
  autorewrite with strnorm. reflexivity.
Qed.

Lemma dumps_summary (assets : list PhotoAsset) :
  Json.dumps (summary assets) 2 = manifest_text assets.
Proof.
  unfold Json.dumps, summary, manifest_text.
  destruct assets as [|a assets]; [done|].
  set (l := a :: assets).
  change (Json.iterencode 2 0 (Json.JList (map ?f l)))
    with ("[" +:+ Json.newline_indent 2 1
          +:+ String.concat ("," +:+ Json.newline_indent 2 1)
                (map (Json.iterencode 2 1) (map f l))
          +:+ Json.newline_indent 2 0 +:+ "]").
  rewrite map_map.
  rewrite (map_ext _ manifest_record) by (intros; apply iterencode_record).
  change (Json.newline_indent 2 1) with (nl +:+ "  ").
  change (Json.newline_indent 2 0) with nl.
  by autorewrite with strnorm.
Qed.

(** C4: [write_summary] writes one text file: a JSON array with one record
    per asset, in the order of the list, each record with exactly the keys
    id, role, path, width, height holding the fields of that asset, laid out
    with two spaces per indent level; the numbers are written in decimal
    and the strings as JSON strings kept in ASCII.  The image of an asset is
    not part of it: two lists that agree on the five fields give the same
    text. *)
Theorem write_summary_manifest :
  (∀ (assets : list PhotoAsset) (out_path : Path) (w : World),
      write_summary assets out_path w
      = (inr tt,
         {| heap := heap w;
            written := written w ++ [(out_path, TextData (manifest_text assets))];
            dirs := dirs w |}))
  ∧ (∀ assets : list PhotoAsset,
      ∃ items,
        summary assets = Json.JList items
        ∧ length items = length assets
        ∧ ∀ (k : nat) a,
            assets !! k = Some a →
            ∃ fields,
              items !! k = Some (Json.JDict fields)
              ∧ map fst fields = ["id"; "role"; "path"; "width"; "height"]
              ∧ map snd fields
                = [Json.JInt (id a); Json.JStr (role a); Json.JStr (path a);
                   Json.JInt (width a); Json.JInt (height a)])
  ∧ (∀ assets assets' : list PhotoAsset,
      Forall2 (λ a b, id a = id b ∧ role a = role b ∧ path a = path b
                      ∧ width a = width b ∧ height a = height b)
        assets assets' →
      manifest_text assets = manifest_text assets').
Proof.
  split_and!.
  - intros assets out_path w. unfold write_summary, write_text, write_file.
    by rewrite dumps_summary.
  - intros assets. eexists. split; [reflexivity|].
    split; [by rewrite length_map|].
    intros k a Hk. eexists. split.
    { change (map ?f ?l) with (f <$> l). rewrite list_lookup_fmap, Hk.
      reflexivity. }
    split; reflexivity.
  - intros assets assets' H. rewrite <- !dumps_summary.
    unfold summary. do 2 f_equal.
    induction H as [|a b l l' Hab _ IH]; simpl; [done|].
    destruct Hab as (-> & -> & -> & -> & ->). by rewrite IH.
Qed.

(** ** Loading comes first *)

Lemma mode_converted (m : string) (im : PIL.Image) :
  PIL.mode (PIL.converted m im) = m.
Proof.
  unfold PIL.converted. destruct (String.eqb_spec (PIL.mode im) m); done.
Qed.

Lemma size_converted (m : string) (im : PIL.Image) :
  PIL.width (PIL.converted m im) = PIL.width im
  ∧ PIL.height (PIL.converted m im) = PIL.height im.
Proof. unfold PIL.converted. by destruct (String.eqb _ _). Qed.

Lemma loaded_images_Forall2 fs paths :
  first_undecodable fs paths = None →
  Forall2 (λ p im, ∃ f, image_at fs p = Some f ∧ im = loaded f p)
    paths (loaded_images fs paths).
Proof.
  induction paths as [|p paths IH]; simpl; intros Hd; [constructor|].
  destruct (image_at fs p) as [f|] eqn:Hf; [|done].
  constructor; [by exists f | by apply IH].
Qed.

Lemma assets_from_sizes fs paths :
  first_undecodable fs paths = None →
  ∀ base i,
    Forall2 (λ a im, width a = PIL.width im ∧ height a = PIL.height im)
      (assets_from fs base i paths) (loaded_images fs paths).
Proof.
  induction paths as [|p paths IH]; simpl; intros Hd base i; [constructor|].
  destruct (image_at fs p) as [f|] eqn:Hf; [|done].
  constructor; [done | by apply IH].
Qed.

(** ** The logged run *)

Lemma lbind_inr {A B} (m : Logged A) (k : A → Logged B) s a s' :
  m s = (inr a, s') → lbind m k s = k a s'.
Proof. unfold lbind. by intros ->. Qed.

Lemma lbind_inl {A B} (m : Logged A) (k : A → Logged B) s e s' :
  m s = (inl e, s') → lbind m k s = (inl e, s').
Proof. unfold lbind. by intros ->. Qed.

Lemma run_eq {A} (m : M A) w log :
  run m (w, log) = ((m w).1, ((m w).2, log)).
Proof. unfold run. simpl. by destruct (m w). Qed.

Lemma load_rgba_with_exif_logged_run fs p w log :
  load_rgba_with_exif_logged fs p (w, log)
  = ((load_rgba_with_exif fs p w).1,
     ((load_rgba_with_exif fs p w).2,
      log ++ match image_at fs p with
             | Some _ => [Opened p; Oriented p; MadeRGBA p]
             | None => []
             end)).
Proof.
  unfold load_rgba_with_exif_logged, load_rgba_with_exif, Image_open.
  destruct (image_at fs p) as [f|].
  - unfold lbind, bind, run, mark, alloc, exif_transpose, convert, bind, deref,
      alloc, ret. simpl.
    rewrite lookup_snoc_length. simpl.
    rewrite lookup_snoc_length. simpl.
    by rewrite <- !app_assoc.
  - unfold lbind, bind, run, raise. simpl. by rewrite app_nil_r.
Qed.

Lemma make_assets_loop_logged_run fs items :
  ∀ acc w log,
    make_assets_loop_logged fs items acc (w, log)
    = ((make_assets_loop fs items acc w).1,
       ((make_assets_loop fs items acc w).2,
        log ++ make_assets_steps fs items)).
Proof.
  induction items as [|[i p] rest IH]; intros acc w log.
  { simpl. by rewrite run_eq, app_nil_r. }
  cbn [make_assets_loop_logged make_assets_loop make_assets_steps].
  erewrite lbind_inr; [|reflexivity]. cbn [fst snd].
  destruct (image_at fs p) as [f|] eqn:Hf.
  - pose proof (load_rgba_with_exif_Some fs p f w Hf) as Hload.
    erewrite lbind_inr; cycle 1.
    { by rewrite load_rgba_with_exif_logged_run, Hload, Hf. }
    cbn [fst snd].
    assert (deref (length (heap w) + 2)
              {| heap := heap w ++ load_objects f p;
                 written := written w; dirs := dirs w |}
            = (inr (loaded f p),
               {| heap := heap w ++ load_objects f p;
                  written := written w; dirs := dirs w |})) as Hderef.
    { apply deref_Some. simpl. rewrite lookup_app_r by lia.
      by replace (length (heap w) + 2 - length (heap w)) with 2 by lia. }
    erewrite lbind_inr; [|by rewrite run_eq, Hderef]. cbn [fst snd].
    erewrite lbind_inr; [|reflexivity]. cbn [fst snd].
    rewrite IH.
    rewrite (bind_inr _ _ _ _ _ Hload), (bind_inr _ _ _ _ _ Hderef).
    by rewrite <- !app_assoc.
  - assert (load_rgba_with_exif fs p w = (inl (UnidentifiedImageError p), w))
      as Hload.
    { unfold load_rgba_with_exif, Image_open. by rewrite Hf. }
    erewrite lbind_inl; cycle 1.
    { by rewrite load_rgba_with_exif_logged_run, Hload, Hf. }
    rewrite (bind_inl _ _ _ _ _ Hload). simpl. by rewrite app_nil_r.
Qed.

Lemma main_logged_run fs input_dir outdir w log :
  main_logged fs input_dir outdir (w, log)
  = ((main fs input_dir outdir w).1,
     ((main fs input_dir outdir w).2, log ++ main_steps fs input_dir)).
Proof.
  rewrite main_run. unfold main_logged, main_result, main_steps.
  erewrite lbind_inr; [|reflexivity]. cbn [fst snd].
  destruct (list_images _ _) as [e|paths].
  { erewrite lbind_inl; [|reflexivity]. simpl. by rewrite app_nil_r. }
  erewrite lbind_inr; [|reflexivity]. cbn [fst snd].
  unfold make_assets_logged.
  pose proof (make_assets_run fs paths
                {| heap := heap w; written := written w;
                   dirs := dirs w ++ [outdir] |}) as Hmake.
  unfold make_assets in Hmake. cbn [heap written dirs] in Hmake.
  pose proof (assets_from_images fs paths) as Hims.
  destruct (first_undecodable fs paths) as [p|] eqn:Hd.
  { erewrite lbind_inl; cycle 1.
    { by rewrite make_assets_loop_logged_run, Hmake. }
    simpl. by rewrite app_nil_r. }
  specialize (Hims eq_refl (heap w) 1%Z).
  erewrite lbind_inr; cycle 1.
  { by rewrite make_assets_loop_logged_run, Hmake. }
  cbn [fst snd].
  erewrite lbind_inr; cycle 1.
  { rewrite run_eq. by rewrite (save_contact_sheet_run _ _ _ _ _ _ _ _ Hims). }
  cbn [fst snd].
  erewrite lbind_inr; [|reflexivity]. cbn [fst snd].
  erewrite lbind_inr; cycle 1.
  { rewrite run_eq.
    by rewrite (save_normalized_images_run _ _ _ _ _ _ _ _
                  (asset_images_app _ _ _ _ Hims)). }
  cbn [fst snd].
  erewrite lbind_inr; [|reflexivity]. cbn [fst snd].
  erewrite lbind_inr; [|by rewrite run_eq]. cbn [fst snd].
  unfold mark, write_summary, write_text, write_file.
  cbn [fst snd heap written dirs].
  by rewrite <- !app_assoc.
Qed.

(** ** Orientation and the order of the steps *)

(** The image [load_rgba_with_exif] returns is the decoded file, brought
    upright as its orientation tag says, then in RGBA. *)
Lemma loaded_upright (f : ImageFile) (p : Path) :
  PIL.mode (loaded f p) = "RGBA"
  ∧ PIL.px (loaded f p)
    = (if String.eqb (f_mode f) "RGBA"
       then upright (f_orientation f) (PIL.Decoded p)
       else PIL.Converted "RGBA" (upright (f_orientation f) (PIL.Decoded p)))
  ∧ (PIL.width (loaded f p), PIL.height (loaded f p))
    = upright_size (f_orientation f) (f_width f) (f_height f).
Proof.
  split; [apply mode_converted|].
  unfold loaded, PIL.converted, PIL.exif_transposed, PIL.opened.
  cbn [PIL.orientation].
  assert (∀ im : PIL.Image,
            (if String.eqb (f_mode f) "RGBA" then im
             else {| PIL.mode := "RGBA"; PIL.width := PIL.width im;
                     PIL.height := PIL.height im;
                     PIL.orientation := PIL.orientation im;
                     PIL.px := PIL.Converted "RGBA" (PIL.px im) |})
            = {| PIL.mode := (if String.eqb (f_mode f) "RGBA"
                              then PIL.mode im else "RGBA");
                 PIL.width := PIL.width im; PIL.height := PIL.height im;
                 PIL.orientation := PIL.orientation im;
                 PIL.px := (if String.eqb (f_mode f) "RGBA" then PIL.px im
                            else PIL.Converted "RGBA" (PIL.px im)) |}) as Hconv.
  { intros [m wd ht o r]. by destruct (String.eqb (f_mode f) "RGBA"). }
  destruct (f_orientation f) as [[|q|q]|];
    try (cbn; rewrite Hconv; done).
  do 4 (try (destruct q as [q|q|]; try (cbn; rewrite Hconv; done))).
Qed.

Lemma length_make_assets_steps fs paths i :
  first_undecodable fs paths = None →
  length (make_assets_steps fs (enumerate i paths)) = (5 * length paths)%nat.
Proof.
  revert i. induction paths as [|p paths IH]; intros i; simpl; [done|].
  destruct (image_at fs p); [|done]. intros Hd. simpl. rewrite IH by done. lia.
Qed.

(** The five steps of the path at index [k], in the order they happen. *)
Lemma make_assets_steps_lookup fs paths :
  first_undecodable fs paths = None →
  ∀ (i : Z) (k : nat) p,
    paths !! k = Some p →
    let steps := make_assets_steps fs (enumerate i paths) in
    let id := (i + Z.of_nat k)%Z in
    steps !! (5 * k)%nat
    = Some (RoleAssigned id (if (id <? 6)%Z then "element" else "background"))
    ∧ steps !! (5 * k + 1)%nat = Some (Opened p)
    ∧ steps !! (5 * k + 2)%nat = Some (Oriented p)
    ∧ steps !! (5 * k + 3)%nat = Some (MadeRGBA p)
    ∧ steps !! (5 * k + 4)%nat = Some (AssetRecorded id).
Proof.
  induction paths as [|q paths IH]; intros Hd i k p Hk; [done|].
  simpl in Hd. cbn [enumerate make_assets_steps].
  destruct (image_at fs q) as [f|]; [|done].
  destruct k as [|k].
  - injection Hk as ->. cbn. by rewrite Z.add_0_r.
  - simpl in Hk.
    replace (5 * S k)%nat with (S (S (S (S (S (5 * k)))))) by lia.
    cbn [lookup list_lookup app Nat.add].
    replace (i + Z.of_nat (S k))%Z with (i + 1 + Z.of_nat k)%Z by lia.
    by apply IH.
Qed.

Lemma make_assets_steps_no_output fs items :
  Forall (λ s, ¬ is_output s) (make_assets_steps fs items).
Proof.
  induction items as [|[i p] rest IH]; simpl; [constructor|].
  constructor. { by intros [?|[?|?]]. }
  destruct (image_at fs p); [|constructor].
  repeat (constructor; [by intros [?|[?|?]]|]). done.
Qed.




(** ** Determinism *)

Section SameFiles.

Variables fs1 fs2 : FileSystem.
Hypothesis same_images : ∀ p, image_at fs1 p = image_at fs2 p.

Lemma first_undecodable_ext paths :
  first_undecodable fs1 paths = first_undecodable fs2 paths.
Proof.
  induction paths as [|p paths IH]; simpl; [done|].
  by rewrite same_images, IH.
Qed.

Lemma loaded_heap_ext paths : loaded_heap fs1 paths = loaded_heap fs2 paths.
Proof.
  induction paths as [|p paths IH]; simpl; [done|].
  by rewrite same_images, IH.
Qed.

Lemma loaded_images_ext paths :
  loaded_images fs1 paths = loaded_images fs2 paths.
Proof.
  induction paths as [|p paths IH]; simpl; [done|].
  by rewrite same_images, IH.
Qed.

Lemma assets_from_ext paths :
  ∀ base i, assets_from fs1 base i paths = assets_from fs2 base i paths.
Proof.
  induction paths as [|p paths IH]; intros base i; simpl; [done|].
  by rewrite same_images, IH.
Qed.

Lemma make_assets_ext paths w : make_assets fs1 paths w = make_assets fs2 paths w.
Proof.
  rewrite !make_assets_run.
  by rewrite first_undecodable_ext, loaded_heap_ext, assets_from_ext.
Qed.

End SameFiles.

(** C7: two runs that see the same file names, in whatever order the
    directory lists them, and the same file contents select the same six
    paths, build the same assets with the same roles, and end in the same
    state with the same result: every file written, the manifest included,
    has the same path and the same content in both. *)
Theorem runs_are_deterministic (fs1 fs2 : FileSystem) (input_dir outdir : Path)
    (w : World) :
  iterdir fs1 input_dir ≡ₚ iterdir fs2 input_dir →
  (∀ p, image_at fs1 p = image_at fs2 p) →
  list_images input_dir (iterdir fs1 input_dir)
  = list_images input_dir (iterdir fs2 input_dir)
  ∧ (∀ paths w0, make_assets fs1 paths w0 = make_assets fs2 paths w0)
  ∧ main fs1 input_dir outdir w = main fs2 input_dir outdir w
  ∧ written (main fs1 input_dir outdir w).2
    = written (main fs2 input_dir outdir w).2.
Proof.
  intros Hperm Himg.
  assert (list_images input_dir (iterdir fs1 input_dir)
          = list_images input_dir (iterdir fs2 input_dir)) as Hl
    by by apply list_images_perm.
  assert (main fs1 input_dir outdir w = main fs2 input_dir outdir w) as Hm.
  { rewrite !main_run. unfold main_result. rewrite Hl.
    destruct (list_images input_dir (iterdir fs2 input_dir)) as [e|paths];
      [done|].
    by rewrite (first_undecodable_ext fs1 fs2 Himg),
      (loaded_heap_ext fs1 fs2 Himg), (loaded_images_ext fs1 fs2 Himg),
      (assets_from_ext fs1 fs2 Himg). }
  split; [exact Hl|]. split; [intros paths w0; by apply make_assets_ext|].
  split; [exact Hm|]. by rewrite Hm.
Qed.

Lemma runs_are_deterministic_witness :
  list_images ["in"] (iterdir example_fs ["in"])
  = list_images ["in"] (iterdir example_fs' ["in"])
  ∧ (∀ paths w0, make_assets example_fs paths w0 = make_assets example_fs' paths w0)
  ∧ main example_fs ["in"] ["out"] empty_world
    = main example_fs' ["in"] ["out"] empty_world
  ∧ written (main example_fs ["in"] ["out"] empty_world).2
    = written (main example_fs' ["in"] ["out"] empty_world).2.
Proof.
  apply (runs_are_deterministic example_fs example_fs' ["in"] ["out"] empty_world).
  - simpl. eapply bool_decide_unpack. vm_compute. reflexivity.
  - reflexivity.
Defined.

(** ** The saving functions work on copies *)

(** C9: [save_contact_sheet] and [save_normalized_images] only change
    objects they allocate themselves: every image that was in the heap
    before, the images of the assets among them, is the same afterwards.
    The assets are passed on as they are, so the manifest written after
    them records, for an asset whose width and height are those of its
    image, the size of that image, while the copy on disk holds the
    normalized image, which is strictly smaller whenever the image exceeds
    the threshold of its role. *)
Theorem saves_work_on_copies (w : World) (assets : list PhotoAsset)
    (ims : list PIL.Image) (sheet_path out_dir summary_path : Path) :
  asset_images (heap w) assets ims →
  Forall2 (λ a im, width a = PIL.width im ∧ height a = PIL.height im)
    assets ims →
  Forall (λ im, (0 < PIL.width im)%Z ∧ (0 < PIL.height im)%Z) ims →
  ∃ w1 w2 w3,
    save_contact_sheet assets sheet_path (480, 320)%Z 3%Z w = (inr tt, w1)
    ∧ save_normalized_images assets out_dir 1600%Z 2400%Z w1 = (inr tt, w2)
    ∧ write_summary assets summary_path w2 = (inr tt, w3)
    ∧ (∀ (r : nat) im,
          heap w !! r = Some im →
          heap w1 !! r = Some im ∧ heap w2 !! r = Some im
          ∧ heap w3 !! r = Some im)
    ∧ asset_images (heap w3) assets ims
    ∧ written w3 = written w2 ++ [(summary_path, TextData (manifest_text assets))]
    ∧ ∀ (k : nat) a im,
        assets !! k = Some a → ims !! k = Some im →
        (∃ items,
            summary assets = Json.JList items
            ∧ items !! k
              = Some (Json.JDict [("id", Json.JInt (id a));
                                  ("role", Json.JStr (role a));
                                  ("path", Json.JStr (path a));
                                  ("width", Json.JInt (PIL.width im));
                                  ("height", Json.JInt (PIL.height im))]))
        ∧ ∃ c,
            (PathLib.joinpath out_dir (normalized_name a), ImageData c None)
              ∈ written w3
            ∧ (PIL.width c ≤ PIL.width im)%Z ∧ (PIL.height c ≤ PIL.height im)%Z
            ∧ (((if String.eqb (role a) "background" then 2400 else 1600)
                < Z.max (PIL.width im) (PIL.height im))%Z →
               (Z.max (PIL.width c) (PIL.height c)
                < Z.max (width a) (height a))%Z).
Proof.
  intros Ha Hsz Hpos. destruct w as [h wr ds]. simpl in Ha.
  eexists _, _, _.
  rewrite (save_contact_sheet_run _ _ _ _ _ _ _ _ Ha).
  split; [reflexivity|].
  rewrite (save_normalized_images_run _ _ _ _ _ _ _ _ (asset_images_app _ _ _ _ Ha)).
  split; [reflexivity|].
  unfold write_summary, write_text, write_file. rewrite dumps_summary.
  split; [reflexivity|]. cbn [heap written].
  split_and!.
  - intros r im Hr. split_and!; repeat apply lookup_app_l_Some; done.
  - by do 2 apply asset_images_app.
  - done.
  - intros k a im Hka Hkim.
    pose proof (Forall2_lookup_lr _ _ _ _ _ _ Hsz Hka Hkim) as [Hwa Hha].
    split.
    + eexists. split; [reflexivity|].
      change (map ?f ?l) with (f <$> l).
      rewrite list_lookup_fmap, Hka. simpl. by rewrite Hwa, Hha.
    + exists (normalized 1600 2400 a im).
      rewrite Forall_forall in Hpos.
      destruct (Hpos im) as [Hw Hh]. { by eapply list_elem_of_lookup_2. }
      split.
      { apply elem_of_app. left. apply elem_of_app. right.
        apply list_elem_of_lookup. exists k. unfold normalized_files.
        rewrite lookup_zip_with, Hka. simpl. by rewrite Hkim. }
      pose proof (normalized_spec 1600 2400 a im) as Hn. simpl in Hn.
      destruct (Hn Hw Hh ltac:(by destruct (String.eqb _ _)))
        as (Hmax & Hsame & Hs & _).
      rewrite Hwa, Hha.
      destruct (decide (Z.max (PIL.width im) (PIL.height im)
                      ≤ (if String.eqb (role a) "background" then 2400 else 1600))%Z)
        as [Hle|Hgt].
      * rewrite (Hsame Hle). lia.
      * destruct Hs as (? & ? & ? & _); [lia|]. lia.
Qed.

Lemma saves_work_on_copies_witness :
  ∃ w1 w2 w3,
    save_contact_sheet example_assets ["out"; "sheet.png"] (480, 320)%Z 3%Z
      example_world = (inr tt, w1)
    ∧ save_normalized_images example_assets ["out"] 1600%Z 2400%Z w1 = (inr tt, w2)
    ∧ write_summary example_assets ["out"; "summary.json"] w2 = (inr tt, w3)
    ∧ (∀ (r : nat) im,
          heap example_world !! r = Some im →
          heap w1 !! r = Some im ∧ heap w2 !! r = Some im
          ∧ heap w3 !! r = Some im)
    ∧ asset_images (heap w3) example_assets example_heap
    ∧ written w3
      = written w2
        ++ [(["out"; "summary.json"], TextData (manifest_text example_assets))]
    ∧ ∀ (k : nat) a im,
        example_assets !! k = Some a → example_heap !! k = Some im →
        (∃ items,
            summary example_assets = Json.JList items
            ∧ items !! k
              = Some (Json.JDict [("id", Json.JInt (id a));
                                  ("role", Json.JStr (role a));
                                  ("path", Json.JStr (path a));
                                  ("width", Json.JInt (PIL.width im));
                                  ("height", Json.JInt (PIL.height im))]))
        ∧ ∃ c,
            (PathLib.joinpath ["out"] (normalized_name a), ImageData c None)
              ∈ written w3
            ∧ (PIL.width c ≤ PIL.width im)%Z ∧ (PIL.height c ≤ PIL.height im)%Z
            ∧ (((if String.eqb (role a) "background" then 2400 else 1600)
                < Z.max (PIL.width im) (PIL.height im))%Z →
               (Z.max (PIL.width c) (PIL.height c)
                < Z.max (width a) (height a))%Z).
Proof.
  apply (saves_work_on_copies example_world example_assets example_heap
           ["out"; "sheet.png"] ["out"] ["out"; "summary.json"]).
  - repeat constructor.
  - repeat constructor.
  - repeat constructor.
Defined.

(** ** File names of the normalized copies *)

Lemma pretty_N_char_digit (x : N) : is_digit (pretty_N_char x) = true.
Proof. unfold pretty_N_char. by repeat case_match. Qed.

Lemma pretty_N_go_digits (x : N) :
  ∀ s, all_digits s = true → all_digits (pretty_N_go x s) = true.
Proof.
  induction (N.lt_wf_0 x) as [x _ IH]; intros s Hs.
  assert (x = 0 ∨ 0 < x)%N as [->|?] by lia.
  - by rewrite pretty_N_go_0.
  - rewrite pretty_N_go_step by done. apply IH; [by apply N.div_lt|].
    simpl. by rewrite pretty_N_char_digit.
Qed.

Lemma pretty_N_char_nonzero (x : N) :
  (0 < x)%N → pretty_N_char x ≠ "0"%char.
Proof.
  intros Hx. unfold pretty_N_char.
  destruct x as [|p]; [lia|]. by repeat case_match.
Qed.

(** A positive number is printed with a leading digit that is not 0. *)
Lemma pretty_N_go_head (x : N) :
  ∀ s, (0 < x)%N →
       ∃ c rest, pretty_N_go x s = String c rest ∧ c ≠ "0"%char
                 ∧ is_digit c = true.
Proof.
  induction (N.lt_wf_0 x) as [x _ IH]; intros s Hx.
  rewrite pretty_N_go_step by done.
  destruct (N.eq_0_gt_0_cases (x `div` 10)) as [H0|Hpos].
  - rewrite H0, pretty_N_go_0. eexists _, _. split; [done|].
    assert (x < 10)%N by (by apply N.div_small_iff in H0).
    rewrite N.mod_small by done.
    split; [by apply pretty_N_char_nonzero | apply pretty_N_char_digit].
  - apply IH; [by apply N.div_lt | done].
Qed.

Lemma pretty_Z_nonneg (z : Z) :
  (0 ≤ z)%Z →
  all_digits (pretty z) = true
  ∧ ((z < 10)%Z → ∃ c, pretty z = String c "" ∧ is_digit c = true)
  ∧ ((10 ≤ z)%Z → ∃ c rest, pretty z = String c rest ∧ c ≠ "0"%char).
Proof.
  intros Hz. destruct z as [|p|p]; [| |lia].
  - split; [done|]. split; [by eexists | lia].
  - unfold pretty, pretty_Z, pretty, pretty_positive, pretty, pretty_N.
    case_decide; [done|].
    split; [by apply pretty_N_go_digits|]. split.
    + intros Hlt. rewrite pretty_N_go_step by lia.
      rewrite N.div_small, pretty_N_go_0 by lia.
      eexists. split; [done|]. apply pretty_N_char_digit.
    + intros _. destruct (pretty_N_go_head (N.pos p) "") as (c & rest & -> & ? & _);
        [lia|]. by eexists _, _.
Qed.

Lemma all_digits_no_char (c : ascii) (s : string) :
  is_digit c = false → all_digits s = true → has_char c s = false.
Proof.
  intros Hc. induction s as [|a s IH]; simpl; [done|].
  intros [Ha Hs]%andb_true_iff. rewrite (IH Hs), orb_false_r.
  destruct (Ascii.eqb_spec a c) as [->|]; [congruence | done].
Qed.

Lemma format_02d_no_underscore (z : Z) :
  has_char "_"%char (Py.format_02d z) = false.
Proof.
  unfold Py.format_02d.
  destruct (Z.ltb_spec z 0); [|destruct (Z.ltb_spec z 10)].
  - destruct (pretty_Z_nonneg (Z.abs z)) as [Hd _]; [lia|].
    simpl. by apply all_digits_no_char.
  - destruct (pretty_Z_nonneg z) as [Hd _]; [done|].
    simpl. by apply all_digits_no_char.
  - destruct (pretty_Z_nonneg z) as [Hd _]; [lia|].
    by apply all_digits_no_char.
Qed.

Lemma format_02d_inj (z1 z2 : Z) :
  Py.format_02d z1 = Py.format_02d z2 → z1 = z2.
Proof.
  assert (∀ z, (0 ≤ z)%Z → ∃ c rest, pretty z = String c rest
                                      ∧ is_digit c = true) as Hhead.
  { intros z Hz. destruct (pretty_Z_nonneg z Hz) as (Hd & _ & _).
    destruct (pretty z) as [|c rest] eqn:Hp.
    - destruct z as [|p|p]; [done| |lia].
      destruct (pretty_N_go_head (N.pos p) "") as (c & rest & Hgo & _);
        [lia|].
      unfold pretty, pretty_Z, pretty, pretty_positive, pretty, pretty_N in Hp.
      case_decide; [done | congruence].
    - simpl in Hd. apply andb_true_iff in Hd as [? _]. by eexists _, _. }
  assert (∀ z, (0 ≤ z)%Z → ∀ s, Py.format_02d z ≠ "-" +:+ s) as Hdash.
  { intros z Hz s. unfold Py.format_02d.
    destruct (Z.ltb_spec z 0); [lia|]. destruct (Z.ltb_spec z 10); [done|].
    destruct (Hhead z Hz) as (c & rest & -> & Hc). intros [= -> _]. done. }
  unfold Py.format_02d at 1 2.
  destruct (Z.ltb_spec z1 0) as [Hn1|Hp1], (Z.ltb_spec z2 0) as [Hn2|Hp2].
  - intros [= H]. rewrite !string_app_nil_l in H.
    apply (inj (@pretty Z _)) in H. lia.
  - intros H. symmetry in H. revert H.
    pose proof (Hdash z2 Hp2 (pretty (Z.abs z1))) as Hd.
    unfold Py.format_02d in Hd. by destruct (Z.ltb_spec z2 0); [lia|].
  - intros H. revert H.
    pose proof (Hdash z1 Hp1 (pretty (Z.abs z2))) as Hd.
    unfold Py.format_02d in Hd. by destruct (Z.ltb_spec z1 0); [lia|].
  - destruct (Z.ltb_spec z1 10) as [Hs1|Hb1], (Z.ltb_spec z2 10) as [Hs2|Hb2].
    + intros [= H]. rewrite !string_app_nil_l in H.
      by apply (inj (@pretty Z _)) in H.
    + destruct (pretty_Z_nonneg z2 Hp2) as (_ & _ & Hb).
      destruct (Hb Hb2) as (c & rest & -> & Hc). by intros [= <- _].
    + destruct (pretty_Z_nonneg z1 Hp1) as (_ & _ & Hb).
      destruct (Hb Hb1) as (c & rest & -> & Hc). by intros [= -> _].
    + apply (inj (@pretty Z _)).
Qed.

(** Two strings that agree after a first underscore agree before it. *)
Lemma split_at_underscore (s1 s2 t1 t2 : string) :
  has_char "_"%char s1 = false → has_char "_"%char s2 = false →
  s1 +:+ String "_"%char t1 = s2 +:+ String "_"%char t2 →
  s1 = s2 ∧ t1 = t2.
Proof.
  revert s2. induction s1 as [|a s1 IH]; intros [|b s2]; simpl.
  - by intros _ _ [= ->].
  - intros _ [? _]%orb_false_iff [= <- _]. done.
  - intros [? _]%orb_false_iff _ [= -> _]. done.
  - intros [_ H1]%orb_false_iff [_ H2]%orb_false_iff [= -> H].
    destruct (IH s2 H1 H2 H) as [-> ->]. done.
Qed.

Lemma string_app_inv_tail (s1 s2 t : string) :
  s1 +:+ t = s2 +:+ t → s1 = s2.
Proof.
  intros H.
  assert (∀ s u, String.length (s +:+ u) = (String.length s + String.length u)%nat)
    as Hlen.
  { intros s u. induction s as [|c s IH]; [done|].
    rewrite string_app_cons. simpl. by rewrite IH. }
  assert (String.length s1 = String.length s2) as Hl.
  { apply (f_equal String.length) in H. rewrite !Hlen in H. lia. }
  revert s2 H Hl. induction s1 as [|a s1 IH]; intros [|b s2]; simpl; try done.
  intros [= -> H] [= Hl]. f_equal. by apply IH.
Qed.

(** Assets with different ids, or different roles, get different names. *)
Lemma normalized_name_inj (a b : PhotoAsset) :
  normalized_name a = normalized_name b → id a = id b ∧ role a = role b.
Proof.
  unfold normalized_name. intros H.
  apply split_at_underscore in H as [Hid Hrole];
    [|apply format_02d_no_underscore..].
  split; [by apply format_02d_inj | by apply string_app_inv_tail in Hrole].
Qed.

(** ** The files written *)

Lemma list_images_length (d : Path) (entries : list string) (paths : list Path) :
  list_images d entries = inr paths → length paths = 6%nat.
Proof.
  unfold list_images.
  destruct (Z.ltb_spec (Z.of_nat (length (sorted (filter (λ p, has_image_ext p = true)
                                         (map (PathLib.joinpath d) entries))))) 6);
    [done|].
  intros [= <-]. unfold first6. rewrite length_take. lia.
Qed.

#[global] Instance joinpath_Inj (d : Path) : Inj (=) (=) (PathLib.joinpath d).
Proof. intros a b. apply joinpath_inj. Qed.

(** C10: the normalized copy of an asset is saved under the name
    [{id:02d}_{role}.png], without a quality setting.  In a run of the
    script that completes, the files written are, in this order, the contact
    sheet, 01_element.png to 05_element.png, 06_background.png and the
    manifest, all in the output directory; these eight paths are pairwise
    distinct, so no write replaces an earlier one.  In general two assets
    get the same file name only if they have the same id and role. *)
Theorem normalized_files_distinct (fs : FileSystem) (input_dir outdir : Path)
    (w w' : World) :
  main fs input_dir outdir w = (inr tt, w') →
  ∃ assets sheet copies text,
    map id assets = [1; 2; 3; 4; 5; 6]%Z
    ∧ map role assets
      = ["element"; "element"; "element"; "element"; "element"; "background"]
    ∧ written w'
      = written w
        ++ [(PathLib.joinpath outdir "contact_sheet.png", ImageData sheet (Some 90%Z))]
        ++ zip_with (λ a c,
             (PathLib.joinpath outdir
                (Py.format_02d (id a) +:+ "_" +:+ role a +:+ ".png"),
              ImageData c None)) assets copies
        ++ [(PathLib.joinpath outdir "summary.json", TextData text)]
    ∧ length copies = 6%nat
    ∧ map fst (drop (length (written w)) (written w'))
      = map (PathLib.joinpath outdir)
          ["contact_sheet.png"; "01_element.png"; "02_element.png";
           "03_element.png"; "04_element.png"; "05_element.png";
           "06_background.png"; "summary.json"]
    ∧ NoDup (map fst (drop (length (written w)) (written w')))
    ∧ Forall (λ p, PathLib.suffix p = ".png")
        (map fst (take 7 (drop (length (written w)) (written w'))))
    ∧ (∀ a b : PhotoAsset,
          Py.format_02d (id a) +:+ "_" +:+ role a +:+ ".png"
          = Py.format_02d (id b) +:+ "_" +:+ role b +:+ ".png" →
          id a = id b ∧ role a = role b).
Proof.
  rewrite main_run. unfold main_result.
  destruct (list_images _ _) as [e|paths] eqn:Hl; [done|].
  apply list_images_length in Hl.
  destruct (first_undecodable fs paths) as [p|] eqn:Hd; [done|].
  intros [= <-]. cbn [written].
  destruct paths as [|p1 [|p2 [|p3 [|p4 [|p5 [|p6 [|p7 paths]]]]]]]; try done.
  simpl in Hd.
  destruct (image_at fs p1) as [f1|] eqn:H1; [|done].
  destruct (image_at fs p2) as [f2|] eqn:H2; [|done].
  destruct (image_at fs p3) as [f3|] eqn:H3; [|done].
  destruct (image_at fs p4) as [f4|] eqn:H4; [|done].
  destruct (image_at fs p5) as [f5|] eqn:H5; [|done].
  destruct (image_at fs p6) as [f6|] eqn:H6; [|done].
  exists (assets_from fs (length (heap w)) 1 [p1; p2; p3; p4; p5; p6]).
  eexists. exists (zip_with (normalized 1600 2400)
    (assets_from fs (length (heap w)) 1 [p1; p2; p3; p4; p5; p6])
    (loaded_images fs [p1; p2; p3; p4; p5; p6])).
  eexists.
  assert (∀ l1 l2 l3 : list (Path * FileData),
    map fst (drop (length (written w)) (((written w ++ l1) ++ l2) ++ l3))
    = map fst (l1 ++ l2 ++ l3)) as Hdrop.
  { intros. rewrite <- !app_assoc. by rewrite drop_app_length. }
  rewrite Hdrop.
  assert (∀ l1 l2 l3 : list (Path * FileData),
    take 7 (drop (length (written w)) (((written w ++ l1) ++ l2) ++ l3))
    = take 7 (l1 ++ l2 ++ l3)) as Htake.
  { intros. rewrite <- !app_assoc. by rewrite drop_app_length. }
  rewrite Htake.
  simpl. rewrite H1, H2, H3, H4, H5, H6. simpl.
  split; [done|]. split; [done|].
  split. { rewrite <- !app_assoc. reflexivity. }
  split; [done|]. split; [done|].
  split.
  { change (NoDup (PathLib.joinpath outdir <$>
      ["contact_sheet.png"; "01_element.png"; "02_element.png";
       "03_element.png"; "04_element.png"; "05_element.png";
       "06_background.png"; "summary.json"])).
    apply (NoDup_fmap_2 _). eapply bool_decide_unpack. vm_compute. reflexivity. }
  split.
  - repeat constructor; unfold PathLib.suffix; by rewrite name_joinpath.
  - apply normalized_name_inj.
Qed.

(** ** The theorems at the example inputs *)

Lemma save_contact_sheet_layout_witness :
  ∃ sheet thumbs w',
    save_contact_sheet example_six ["out"; "contact_sheet.png"]
      (480, 320)%Z 3%Z example_loaded.2 = (inr tt, w')
    ∧ written w'
      = written example_loaded.2
        ++ [(["out"; "contact_sheet.png"],
             ImageData (PIL.converted "RGB" sheet) (Some 90%Z))]
    ∧ PIL.mode sheet = "RGBA"
    ∧ PIL.width sheet = (3 * 480)%Z ∧ PIL.height sheet = (2 * 320)%Z
    ∧ PIL.mode (PIL.converted "RGB" sheet) = "RGB"
    ∧ length (PIL.drawn_ops (PIL.px sheet)) = 18%nat
    ∧ Forall2 (thumbnail_of 480 320) example_six_images thumbs
    ∧ Forall (λ t, PIL.mode t = "RGBA") thumbs
    ∧ ∀ (k : nat) a t,
        example_six !! k = Some a → thumbs !! k = Some t →
        let col := (Z.of_nat k mod 3)%Z in
        let row := (Z.of_nat k / 3)%Z in
        let x := (col * 480 + (480 - PIL.width t) / 2)%Z in
        let y := (row * 320 + (320 - PIL.height t) / 2)%Z in
        let label := Py.repr_int (id a) +:+ ": " +:+ role a in
        let ops := PIL.drawn_ops (PIL.px sheet) in
        ops !! (3 * k)%nat
        = Some (PIL.Composite (PIL.px t) (PIL.width t) (PIL.height t) x y)
        ∧ ops !! (3 * k + 1)%nat
          = Some (PIL.Rectangle x y
                    (PIL.FAdd (PIL.FAdd (PIL.FInt x) (PIL.FTextLength label))
                       (PIL.FInt 8))
                    (PIL.FInt (y + 18)) (0, 0, 0, 120)%Z)
        ∧ ops !! (3 * k + 2)%nat
          = Some (PIL.Text (x + 4) (y + 2) label (255, 255, 255, 230)%Z)
        ∧ (0 ≤ col < 3)%Z ∧ (0 ≤ row < 2)%Z
        ∧ (col * 480 ≤ x)%Z ∧ (x + PIL.width t ≤ (col + 1) * 480)%Z
        ∧ (row * 320 ≤ y)%Z ∧ (y + PIL.height t ≤ (row + 1) * 320)%Z
        ∧ (0 ≤ ((col + 1) * 480 - (x + PIL.width t)) - (x - col * 480) ≤ 1)%Z
        ∧ (0 ≤ ((row + 1) * 320 - (y + PIL.height t)) - (y - row * 320) ≤ 1)%Z
        ∧ ∀ R : Rendering,
            plain_font R →
            canvas_pixel R (PIL.px sheet) x y = (0, 0, 0, 120)%Z
            ∧ canvas_pixel R (PIL.px (PIL.converted "RGB" sheet)) x y
              = (0, 0, 0, 255)%Z.
Proof.
  apply (save_contact_sheet_layout example_loaded.2 example_six
           example_six_images ["out"; "contact_sheet.png"]).
  - reflexivity.
  - vm_compute. repeat constructor.
  - vm_compute. repeat constructor.
  - vm_compute. repeat constructor.
Defined.

Lemma example_rendering_plain : plain_font example_rendering.
Proof.
  split.
  - intros s. simpl. rewrite <- (Zle_Qle 0). lia.
  - intros s dx dy. simpl. intros H.
    apply andb_true_iff in H as [H _]. apply andb_true_iff in H as [H Hdy].
    apply andb_true_iff in H as [Hdx _]. split; by apply Z.leb_le.
Qed.

(** The run on the example directory, with white pictures: the first
    thumbnail is 480 x 10 and lies at (0, 155).  Before the box is drawn
    the pixel there is white; a box of alpha 120 that lets the picture
    show through would leave it grey; the file that is written has it
    black. *)
Lemma label_box_is_opaque :
  let sheet := contact_sheet (480, 320)%Z 3 example_six example_six_images in
  let ops := PIL.drawn_ops (PIL.px sheet) in
  let white := (255, 255, 255, 255)%Z in
  (["out"; "contact_sheet.png"],
   ImageData (PIL.converted "RGB" sheet) (Some 90%Z))
    ∈ written (main example_fs ["in"] ["out"] empty_world).2
  ∧ (∃ r, ops !! 0%nat = Some (PIL.Composite r 480 10 0 155))
  ∧ (∃ x1 y1, ops !! 1%nat = Some (PIL.Rectangle 0 155 x1 y1 (0, 0, 0, 120)%Z))
  ∧ fold_left (λ c op, paint example_rendering op c 0 155) (take 1 ops)
      (245, 245, 245, 255)%Z
    = white
  ∧ black_over 120 white = (135, 135, 135, 255)%Z
  ∧ canvas_pixel example_rendering (PIL.px (PIL.converted "RGB" sheet)) 0 155
    = (0, 0, 0, 255)%Z.
Proof.
  split_and!.
  - vm_compute. repeat constructor.
  - eexists. vm_compute. reflexivity.
  - eexists _, _. vm_compute. reflexivity.
  - vm_compute. reflexivity.
  - reflexivity.
  - vm_compute. reflexivity.
Qed.

Lemma normalized_files_distinct_witness :
  ∃ assets sheet copies text,
    map id assets = [1; 2; 3; 4; 5; 6]%Z
    ∧ map role assets
      = ["element"; "element"; "element"; "element"; "element"; "background"]
    ∧ written (main example_fs ["in"] ["out"] empty_world).2
      = written empty_world
        ++ [(PathLib.joinpath ["out"] "contact_sheet.png",
             ImageData sheet (Some 90%Z))]
        ++ zip_with (λ a c,
             (PathLib.joinpath ["out"]
                (Py.format_02d (id a) +:+ "_" +:+ role a +:+ ".png"),
              ImageData c None)) assets copies
        ++ [(PathLib.joinpath ["out"] "summary.json", TextData text)]
    ∧ length copies = 6%nat
    ∧ map fst (drop (length (written empty_world))
                 (written (main example_fs ["in"] ["out"] empty_world).2))
      = map (PathLib.joinpath ["out"])
          ["contact_sheet.png"; "01_element.png"; "02_element.png";
           "03_element.png"; "04_element.png"; "05_element.png";
           "06_background.png"; "summary.json"]
    ∧ NoDup (map fst (drop (length (written empty_world))
                        (written (main example_fs ["in"] ["out"] empty_world).2)))
    ∧ Forall (λ p, PathLib.suffix p = ".png")
        (map fst (take 7 (drop (length (written empty_world))
                            (written (main example_fs ["in"] ["out"]
                                        empty_world).2))))
    ∧ (∀ a b : PhotoAsset,
          Py.format_02d (id a) +:+ "_" +:+ role a +:+ ".png"
          = Py.format_02d (id b) +:+ "_" +:+ role b +:+ ".png" →
          id a = id b ∧ role a = role b).
Proof.
  apply (normalized_files_distinct example_fs ["in"] ["out"] empty_world
           (main example_fs ["in"] ["out"] empty_world).2).
  vm_compute. reflexivity.
Defined.

(** ** Worked examples *)

Example list_images_example :
  list_images ["in"] (iterdir example_fs ["in"])
  = inr [["in"; "B.png"]; ["in"; "a.jpg"]; ["in"; "b.PNG"];
         ["in"; "c.tiff"]; ["in"; "d.Jpeg"]; ["in"; "e.webp"]].
Proof. vm_compute. reflexivity. Qed.

Example list_images_too_few :
  list_images ["in"] ["b.PNG"; "notes.txt"; "a.jpg"; ".png"; "archive.png.zip"]
  = inl (ValueError "Need at least 6 images in in, found 2.").
Proof. vm_compute. reflexivity. Qed.

Example suffix_examples :
  map (λ n, PathLib.suffix ["in"; n])
    ["a.jpg"; "archive.tar.gz"; ".png"; "name."; "README"; "x.Y.PNG"]
  = [".jpg"; ".gz"; ""; ""; ""; ".PNG"].
Proof. vm_compute. reflexivity. Qed.

Example thumbnail_sizes :
  PIL.preserve_aspect_ratio 3000 4000 (1600, 1600)%Z = Some (1200, 1600)%Z
  ∧ PIL.preserve_aspect_ratio 5000 100 (480, 320)%Z = Some (480, 10)%Z
  ∧ PIL.preserve_aspect_ratio 100000 1 (2400, 2400)%Z = Some (2400, 1)%Z
  ∧ PIL.preserve_aspect_ratio 3 5 (2, 2)%Z = Some (1, 2)%Z
  ∧ PIL.preserve_aspect_ratio 300 200 (480, 320)%Z = None.
Proof. vm_compute. repeat split. Qed.

(** The run on the example directory: the second asset is the rotated
    4000 x 3000 file; the manifest records it as 3000 x 4000, the copy on
    disk is 1200 x 1600 and its thumbnail on the sheet 240 x 320. *)
Example example_run :
  ∃ w',
    main example_fs ["in"] ["out"] empty_world = (inr tt, w')
    ∧ map fst (written w')
      = [["out"; "contact_sheet.png"]; ["out"; "01_element.png"];
         ["out"; "02_element.png"]; ["out"; "03_element.png"];
         ["out"; "04_element.png"]; ["out"; "05_element.png"];
         ["out"; "06_background.png"]; ["out"; "summary.json"]]
    ∧ (∃ im, written w' !! 2%nat = Some (["out"; "02_element.png"], ImageData im None)
             ∧ PIL.mode im = "RGBA"
             ∧ (PIL.width im, PIL.height im) = (1200, 1600)%Z)
    ∧ (∃ im, written w' !! 6%nat
             = Some (["out"; "06_background.png"], ImageData im None)
             ∧ (PIL.width im, PIL.height im) = (300, 200)%Z)
    ∧ written w' !! 7%nat
      = Some (["out"; "summary.json"],
              TextData (manifest_text
                [ {| id := 1; role := "element"; path := "in/B.png";
                     width := 5000; height := 100; _image := 0 |};
                  {| id := 2; role := "element"; path := "in/a.jpg";
                     width := 3000; height := 4000; _image := 0 |};
                  {| id := 3; role := "element"; path := "in/b.PNG";
                     width := 5000; height := 100; _image := 0 |};
                  {| id := 4; role := "element"; path := "in/c.tiff";
                     width := 5000; height := 100; _image := 0 |};
                  {| id := 5; role := "element"; path := "in/d.Jpeg";
                     width := 5000; height := 100; _image := 0 |};
                  {| id := 6; role := "background"; path := "in/e.webp";
                     width := 300; height := 200; _image := 0 |} ]))
    ∧ dirs w' = [["out"]; ["out"]].
Proof.
  eexists. split; [vm_compute; reflexivity|].
  split; [reflexivity|]. split.
  { eexists. split; [reflexivity|]. split; reflexivity. }
  split.
  { eexists. split; reflexivity. }
  split; [|reflexivity]. vm_compute. reflexivity.
Qed.

(** A file that does not decode stops the run at that file. *)
Example example_undecodable :
  (make_assets example_fs [["in"; "a.jpg"]; ["in"; "notes.txt"]; ["in"; "b.PNG"]]
     empty_world).1
  = inl (UnidentifiedImageError ["in"; "notes.txt"]).
Proof. vm_compute. reflexivity. Qed.

Example format_02d_examples :
  map Py.format_02d [0; 5; 9; 10; 42; 123; -3]%Z
  = ["00"; "05"; "09"; "10"; "42"; "123"; "-3"].
Proof. vm_compute. reflexivity. Qed.

Example decimal_examples :
  map decimal [0; 7; 10; 42; 5000; 1234567890; -3; -120]%Z
  = ["0"; "7"; "10"; "42"; "5000"; "1234567890"; "-3"; "-120"].
Proof. vm_compute. reflexivity. Qed.

Example json_chars_examples :
  json_chars "in/a b.png" = "in/a b.png"
  ∧ json_chars (String "034" (String "092" (String "010" (String "233" ""))))
    = String "092" (String "034" "") +:+ "\\" +:+ "\n" +:+ "\u00e9".
Proof. vm_compute. done. Qed.

Example manifest_lines :
  manifest_text [ {| id := 1; role := "element"; path := "in/B.png";
                     width := 5000; height := 100; _image := 0 |} ]
  = String.concat nl
      [ "[";
        "  {";
        "    " +:+ quoted "id" +:+ ": 1,";
        "    " +:+ quoted "role" +:+ ": " +:+ quoted "element" +:+ ",";
        "    " +:+ quoted "path" +:+ ": " +:+ quoted "in/B.png" +:+ ",";
        "    " +:+ quoted "width" +:+ ": 5000,";
        "    " +:+ quoted "height" +:+ ": 100";
        "  }";
        "]" ].
Proof. vm_compute. reflexivity. Qed.

(** * Further properties of the script *)

(** ** make_assets on lists of any length *)

Lemma assets_from_lookup_inv fs paths :
  first_undecodable fs paths = None →
  ∀ base i (k : nat) a,
    assets_from fs base i paths !! k = Some a →
    ∃ p f, paths !! k = Some p ∧ image_at fs p = Some f
           ∧ a = {| id := i + Z.of_nat k;
                    role := if (i + Z.of_nat k <? 6)%Z
                            then "element" else "background";
                    path := PathLib.str p;
                    width := PIL.width (loaded f p);
                    height := PIL.height (loaded f p);
                    _image := base + 3 * k + 2 |}.
Proof.
  intros Hd base i k a Ha.
  assert (k < length paths)%nat as Hk.
  { rewrite <- (length_assets_from fs paths Hd base i). by eapply lookup_lt_Some. }
  destruct (lookup_lt_is_Some_2 paths k Hk) as [p Hp].
  destruct (assets_from_lookup fs paths Hd base i k p Hp) as (f & Hf & Ha').
  exists p, f. split; [done|]. split; [done|]. congruence.
Qed.

Lemma length_loaded_heap fs paths :
  first_undecodable fs paths = None →
  length (loaded_heap fs paths) = (3 * length paths)%nat.
Proof.
  induction paths as [|p paths IH]; simpl; [done|].
  destruct (image_at fs p); [|done]. intros Hd.
  simpl. rewrite IH by done. lia.
Qed.

(** X1: [make_assets] takes any number of paths that decode, the empty list
    included.  It returns one asset per path with ids 1, 2, ... in input
    order; an asset has role "element" exactly when it is among the first
    five, so a list of at most five paths gives no "background" asset and
    every asset after the fifth is one.  Each asset has an image object of
    its own, of mode RGBA, whose size it records.  Three objects are
    allocated per path; no earlier object changes and nothing is written. *)
Theorem make_assets_any_length (fs : FileSystem) (paths : list Path) (w : World) :
  Forall (λ p, is_Some (image_at fs p)) paths →
  ∃ assets w',
    make_assets fs paths w = (inr assets, w')
    ∧ length assets = length paths
    ∧ (∀ (k : nat) a,
          assets !! k = Some a →
          id a = (Z.of_nat k + 1)%Z
          ∧ (role a = "element" ↔ (k < 5)%nat)
          ∧ (role a = "background" ↔ (5 ≤ k)%nat)
          ∧ (∃ p, paths !! k = Some p ∧ path a = PathLib.str p)
          ∧ ∃ im, heap w' !! _image a = Some im
                  ∧ PIL.mode im = "RGBA"
                  ∧ width a = PIL.width im ∧ height a = PIL.height im)
    ∧ ((length paths ≤ 5)%nat → Forall (λ a, role a = "element") assets)
    ∧ NoDup (map _image assets)
    ∧ Forall (λ a, (length (heap w) ≤ _image a)%nat) assets
    ∧ length (heap w') = (length (heap w) + 3 * length paths)%nat
    ∧ (∀ (r : nat) im, heap w !! r = Some im → heap w' !! r = Some im)
    ∧ written w' = written w
    ∧ dirs w' = dirs w.
Proof.
  intros Hd. apply first_undecodable_None in Hd.
  eexists _, _. rewrite make_assets_run, Hd. split; [reflexivity|].
  cbn [heap written dirs].
  pose proof (assets_from_lookup_inv fs paths Hd (length (heap w)) 1%Z) as Hinv.
  pose proof (assets_from_images fs paths Hd (heap w) 1%Z) as Hims.
  pose proof (loaded_images_Forall2 fs paths Hd) as Hld.
  assert (∀ (k : nat) a,
    assets_from fs (length (heap w)) 1 paths !! k = Some a →
    id a = (Z.of_nat k + 1)%Z
    ∧ (role a = "element" ↔ (k < 5)%nat)
    ∧ (role a = "background" ↔ (5 ≤ k)%nat)) as Hrole.
  { intros k a Ha. destruct (Hinv k a Ha) as (p & f & _ & _ & ->). simpl.
    split; [lia|].
    destruct (Z.ltb_spec (1 + Z.of_nat k) 6); split; split;
      (done || lia || (intros; lia)). }
  split; [by apply length_assets_from|]. split_and!.
  - intros k a Ha. destruct (Hrole k a Ha) as (? & ? & ?).
    split; [done|]. split; [done|]. split; [done|].
    destruct (Hinv k a Ha) as (p & f & Hp & Hf & Heq). split.
    + exists p. split; [done|]. by rewrite Heq.
    + destruct (Forall2_lookup_l _ _ _ _ _ Hims Ha) as (im & Him & Hheap).
      exists im. split; [done|].
      destruct (Forall2_lookup_lr _ _ _ _ _ _ Hld Hp Him) as (g & Hg & ->).
      assert (g = f) as -> by congruence.
      split; [apply mode_converted|]. by rewrite Heq.
  - intros Hlen. apply Forall_forall. intros a Ha.
    apply list_elem_of_lookup in Ha as [k Ha].
    destruct (Hrole k a Ha) as (_ & Hel & _). apply Hel.
    apply lookup_lt_Some in Ha.
    rewrite (length_assets_from fs paths Hd) in Ha. lia.
  - apply NoDup_alt. intros i j r.
    change (map ?f ?l) with (f <$> l). rewrite !list_lookup_fmap.
    intros Hi Hj.
    destruct (assets_from fs (length (heap w)) 1 paths !! i) as [a|] eqn:Ha;
      [|done].
    destruct (assets_from fs (length (heap w)) 1 paths !! j) as [b|] eqn:Hb;
      [|done].
    destruct (Hinv i a Ha) as (? & ? & _ & _ & ->).
    destruct (Hinv j b Hb) as (? & ? & _ & _ & ->).
    simpl in Hi, Hj. injection Hi as <-. injection Hj as Hj. lia.
  - apply Forall_forall. intros a Ha.
    apply list_elem_of_lookup in Ha as [k Ha].
    destruct (Hinv k a Ha) as (? & ? & _ & _ & ->). simpl. lia.
  - rewrite length_app, length_loaded_heap by done. lia.
  - intros r im. apply lookup_app_l_Some.
  - done.
  - done.
Qed.

Lemma make_assets_any_length_witness :
  ∃ assets w',
    make_assets example_fs example_paths empty_world = (inr assets, w')
    ∧ length assets = length example_paths
    ∧ (∀ (k : nat) a,
          assets !! k = Some a →
          id a = (Z.of_nat k + 1)%Z
          ∧ (role a = "element" ↔ (k < 5)%nat)
          ∧ (role a = "background" ↔ (5 ≤ k)%nat)
          ∧ (∃ p, example_paths !! k = Some p ∧ path a = PathLib.str p)
          ∧ ∃ im, heap w' !! _image a = Some im
                  ∧ PIL.mode im = "RGBA"
                  ∧ width a = PIL.width im ∧ height a = PIL.height im)
    ∧ ((length example_paths ≤ 5)%nat → Forall (λ a, role a = "element") assets)
    ∧ NoDup (map _image assets)
    ∧ Forall (λ a, (length (heap empty_world) ≤ _image a)%nat) assets
    ∧ length (heap w')
      = (length (heap empty_world) + 3 * length example_paths)%nat
    ∧ (∀ (r : nat) im,
          heap empty_world !! r = Some im → heap w' !! r = Some im)
    ∧ written w' = written empty_world
    ∧ dirs w' = dirs empty_world.
Proof.
  apply (make_assets_any_length example_fs example_paths empty_world).
  repeat constructor; by eexists.
Defined.

(** ** Failures *)

Lemma first_undecodable_app fs ok p rest :
  Forall (λ q, is_Some (image_at fs q)) ok → image_at fs p = None →
  first_undecodable fs (ok ++ p :: rest) = Some p
  ∧ loaded_heap fs (ok ++ p :: rest) = loaded_heap fs ok
  ∧ first_undecodable fs ok = None.
Proof.
  intros Hok Hp. induction Hok as [|q ok [f Hf] _ IH]; simpl.
  - by rewrite Hp.
  - rewrite Hf. destruct IH as (-> & -> & ->). done.
Qed.

Lemma first_undecodable_split fs paths p :
  first_undecodable fs paths = Some p →
  ∃ ok rest, paths = ok ++ p :: rest
             ∧ Forall (λ q, is_Some (image_at fs q)) ok
             ∧ image_at fs p = None.
Proof.
  induction paths as [|q paths IH]; simpl; [done|].
  destruct (image_at fs q) as [f|] eqn:Hq.
  - intros H. destruct (IH H) as (ok & rest & -> & Hok & Hp).
    exists (q :: ok), rest. split; [done|]. split; [|done].
    constructor; [by eexists | done].
  - intros [= ->]. exists [], paths. split; [done|]. split; [constructor | done].
Qed.

(** X2: [make_assets] stops at the first path whose file PIL does not
    identify as an image: the error of that load is the outcome, the three
    objects of each path loaded before it are kept, no earlier object
    changes and nothing is written.  The paths after the failing one are
    never opened: the outcome is the same whatever follows. *)
Theorem make_assets_stops_at_first_failure (fs : FileSystem)
    (ok rest : list Path) (p : Path) (w : World) :
  Forall (λ q, is_Some (image_at fs q)) ok →
  image_at fs p = None →
  ∃ w',
    make_assets fs (ok ++ p :: rest) w = (inl (UnidentifiedImageError p), w')
    ∧ length (heap w') = (length (heap w) + 3 * length ok)%nat
    ∧ (∀ (r : nat) im, heap w !! r = Some im → heap w' !! r = Some im)
    ∧ written w' = written w
    ∧ dirs w' = dirs w
    ∧ ∀ rest', make_assets fs (ok ++ p :: rest') w
               = (inl (UnidentifiedImageError p), w').
Proof.
  intros Hok Hp. eexists.
  rewrite make_assets_run.
  destruct (first_undecodable_app fs ok p rest Hok Hp) as (-> & -> & Hnone).
  split; [reflexivity|]. cbn [heap written dirs]. split_and!.
  - rewrite length_app, length_loaded_heap by done. lia.
  - intros r im. apply lookup_app_l_Some.
  - done.
  - done.
  - intros rest'. rewrite make_assets_run.
    by destruct (first_undecodable_app fs ok p rest' Hok Hp) as (-> & -> & _).
Qed.

Lemma make_assets_stops_at_first_failure_witness :
  ∃ w',
    make_assets example_fs
      ([["in"; "a.jpg"]; ["in"; "b.PNG"]] ++ ["in"; "notes.txt"] :: [["in"; "c.tiff"]])
      empty_world
    = (inl (UnidentifiedImageError ["in"; "notes.txt"]), w')
    ∧ length (heap w')
      = (length (heap empty_world)
         + 3 * length [["in"; "a.jpg"]; ["in"; "b.PNG"]])%nat
    ∧ (∀ (r : nat) im,
          heap empty_world !! r = Some im → heap w' !! r = Some im)
    ∧ written w' = written empty_world
    ∧ dirs w' = dirs empty_world
    ∧ ∀ rest', make_assets example_fs
                 ([["in"; "a.jpg"]; ["in"; "b.PNG"]] ++ ["in"; "notes.txt"] :: rest')
                 empty_world
               = (inl (UnidentifiedImageError ["in"; "notes.txt"]), w').
Proof.
  apply (make_assets_stops_at_first_failure example_fs
           [["in"; "a.jpg"]; ["in"; "b.PNG"]] [["in"; "c.tiff"]]
           ["in"; "notes.txt"] empty_world).
  - repeat constructor; by eexists.
  - reflexivity.
Defined.

(** X3: when fewer than six entries of the input directory have an image
    extension, [main] raises [ValueError] with a message that names the
    directory and the number of matching entries.  By then it has created
    the output directory and done nothing else: no image was opened and no
    file was written. *)
Theorem main_too_few_images (fs : FileSystem) (input_dir outdir : Path)
    (w : World) :
  let found := length (filter (λ p, has_image_ext p = true)
                         (map (PathLib.joinpath input_dir)
                            (iterdir fs input_dir))) in
  (found < 6)%nat →
  main fs input_dir outdir w
  = (inl (ValueError ("Need at least 6 images in " +:+ PathLib.str input_dir
                      +:+ ", found " +:+ Py.repr_int (Z.of_nat found) +:+ ".")),
     {| heap := heap w; written := written w; dirs := dirs w ++ [outdir] |}).
Proof.
  intros found Hfound. rewrite main_run. unfold main_result.
  by rewrite (list_images_few input_dir (iterdir fs input_dir) Hfound).
Qed.

Lemma main_too_few_images_witness :
  main sparse_fs [] ["out"] empty_world
  = (inl (ValueError ("Need at least 6 images in " +:+ PathLib.str []
                      +:+ ", found " +:+ Py.repr_int (Z.of_nat 2) +:+ ".")),
     {| heap := heap empty_world; written := written empty_world;
        dirs := dirs empty_world ++ [["out"]] |}).
Proof.
  apply (main_too_few_images sparse_fs [] ["out"] empty_world).
  vm_compute. lia.
Defined.

(** The message names the directory as [str] prints it: "." for the
    current directory, and an absolute path with its leading "/". *)
Example main_too_few_images_messages :
  (main sparse_fs [] ["out"] empty_world).1
  = inl (ValueError "Need at least 6 images in ., found 2.")
  ∧ (main sparse_fs ["/"; "data"; "in"] ["out"] empty_world).1
    = inl (ValueError "Need at least 6 images in /data/in, found 2.")
  ∧ (main sparse_fs ["photos"; "new"] ["out"] empty_world).1
    = inl (ValueError "Need at least 6 images in photos/new, found 2.").
Proof. vm_compute. done. Qed.

(** X4: when one of the six selected files does not decode, [main] raises
    PIL's error for the first such file in sorted order and leaves no
    output behind: the output directory exists, but no file was written,
    since every image is loaded before the first write. *)
Theorem main_undecodable_writes_nothing (fs : FileSystem)
    (input_dir outdir : Path) (w : World) (paths : list Path) (p : Path) :
  list_images input_dir (iterdir fs input_dir) = inr paths →
  p ∈ paths → image_at fs p = None →
  ∃ q ok rest w',
    main fs input_dir outdir w = (inl (UnidentifiedImageError q), w')
    ∧ paths = ok ++ q :: rest
    ∧ Forall (λ r, is_Some (image_at fs r)) ok
    ∧ image_at fs q = None
    ∧ written w' = written w
    ∧ dirs w' = dirs w ++ [outdir]
    ∧ length (heap w') = (length (heap w) + 3 * length ok)%nat
    ∧ ∀ (r : nat) im, heap w !! r = Some im → heap w' !! r = Some im.
Proof.
  intros Hl Hin Hp.
  destruct (first_undecodable fs paths) as [q|] eqn:Hq; cycle 1.
  { apply first_undecodable_None in Hq. rewrite Forall_forall in Hq.
    destruct (Hq p Hin) as [f Hf]. congruence. }
  destruct (first_undecodable_split fs paths q Hq) as (ok & rest & -> & Hok & Hnone).
  exists q, ok, rest. eexists.
  rewrite main_run. unfold main_result. rewrite Hl, Hq.
  split; [reflexivity|]. cbn [heap written dirs].
  destruct (first_undecodable_app fs ok q rest Hok Hnone) as (_ & -> & Hn).
  split_and!; try done.
  - rewrite length_app, length_loaded_heap by done. lia.
  - intros r im. apply lookup_app_l_Some.
Qed.

Lemma main_undecodable_writes_nothing_witness :
  ∃ q ok rest w',
    main broken_fs ["in"] ["out"] empty_world
    = (inl (UnidentifiedImageError q), w')
    ∧ example_six_paths = ok ++ q :: rest
    ∧ Forall (λ r, is_Some (image_at broken_fs r)) ok
    ∧ image_at broken_fs q = None
    ∧ written w' = written empty_world
    ∧ dirs w' = dirs empty_world ++ [["out"]]
    ∧ length (heap w') = (length (heap empty_world) + 3 * length ok)%nat
    ∧ ∀ (r : nat) im, heap empty_world !! r = Some im → heap w' !! r = Some im.
Proof.
  apply (main_undecodable_writes_nothing broken_fs ["in"] ["out"] empty_world
           example_six_paths ["in"; "c.tiff"]).
  - vm_compute. reflexivity.
  - vm_compute. repeat constructor.
  - reflexivity.
Defined.

(** ** Only the selected files are read *)

Section SameSelectedFiles.

Variables fs1 fs2 : FileSystem.
Variable paths : list Path.
Hypothesis same_selected : ∀ p, p ∈ paths → image_at fs1 p = image_at fs2 p.

Lemma closed_forms_agree :
  first_undecodable fs1 paths = first_undecodable fs2 paths
  ∧ loaded_heap fs1 paths = loaded_heap fs2 paths
  ∧ loaded_images fs1 paths = loaded_images fs2 paths
  ∧ ∀ base i, assets_from fs1 base i paths = assets_from fs2 base i paths.
Proof.
  revert same_selected. clear. intros Hsame.
  induction paths as [|p ps IH]; simpl; [done|].
  rewrite <- (Hsame p) by by left.
  destruct IH as (-> & -> & -> & Hassets).
  { intros q Hq. apply Hsame. by right. }
  destruct (image_at fs1 p) as [f|]; repeat split; try done.
  intros base i. by rewrite Hassets.
Qed.

End SameSelectedFiles.

(** X5: a run reads no image file other than the six it selects.  Two file
    systems that list the same names in the input directory, in any order,
    and agree on the six selected files give the same result and the same
    final state, whatever the other files hold; in particular a seventh
    image that does not decode does no harm. *)
Theorem main_reads_only_selected (fs1 fs2 : FileSystem)
    (input_dir outdir : Path) (w : World) (paths : list Path) :
  iterdir fs1 input_dir ≡ₚ iterdir fs2 input_dir →
  list_images input_dir (iterdir fs1 input_dir) = inr paths →
  (∀ p, p ∈ paths → image_at fs1 p = image_at fs2 p) →
  main fs1 input_dir outdir w = main fs2 input_dir outdir w.
Proof.
  intros Hperm Hl Hsame.
  rewrite !main_run. unfold main_result.
  rewrite <- (list_images_perm input_dir _ _ Hperm), Hl.
  destruct (closed_forms_agree fs1 fs2 paths Hsame) as (-> & -> & -> & Ha).
  by rewrite Ha.
Qed.

Lemma main_reads_only_selected_witness :
  main example_fs ["in"] ["out"] empty_world
  = main late_broken_fs ["in"] ["out"] empty_world.
Proof.
  apply (main_reads_only_selected example_fs late_broken_fs ["in"] ["out"]
           empty_world example_six_paths).
  - simpl. eapply bool_decide_unpack. vm_compute. reflexivity.
  - vm_compute. reflexivity.
  - intros p Hp. vm_compute in Hp.
    repeat (apply elem_of_cons in Hp as [->|Hp]; [reflexivity|]).
    by apply elem_of_nil in Hp.
Defined.

(** ** What [list_images] depends on *)

Lemma filter_image_paths (d : Path) (l : list string) :
  filter (λ p, has_image_ext p = true) (map (PathLib.joinpath d) l)
  = map (PathLib.joinpath d)
      (filter (λ n, has_image_ext (PathLib.joinpath d n) = true) l).
Proof.
  induction l as [|n l IH]; [done|]. simpl.
  rewrite !filter_cons, IH. by case_decide.
Qed.

Lemma sorted_unique (l m : list Path) :
  StronglySorted PathLib.le l → l ≡ₚ m → sorted m = l.
Proof.
  intros Hl Hp. apply (StronglySorted_unique PathLib.le);
    [apply sorted_Sorted | done | by rewrite sorted_Permutation].
Qed.

Lemma list_images_image_entries (d : Path) (k1 k2 : list string) :
  filter (λ n, has_image_ext (PathLib.joinpath d n) = true) k1
  ≡ₚ filter (λ n, has_image_ext (PathLib.joinpath d n) = true) k2 →
  list_images d k1 = list_images d k2.
Proof.
  intros Hp. unfold list_images.
  assert (sorted (filter (λ p, has_image_ext p = true) (map (PathLib.joinpath d) k1))
          = sorted (filter (λ p, has_image_ext p = true) (map (PathLib.joinpath d) k2)))
    as ->; [|done].
  apply sorted_perm_eq. rewrite !filter_image_paths.
  change (map ?f ?l) with (f <$> l). by rewrite Hp.
Qed.

(** X6: the result of [list_images] depends only on the entries that have an
    image extension, as a collection: two listings whose image entries are
    the same up to order give the same result, whatever else they hold; in
    particular adding or removing an entry without an image extension
    changes nothing. *)
Theorem list_images_depends_on_image_entries (d : Path) (l1 l2 : list string) :
  filter (λ n, has_image_ext (PathLib.joinpath d n) = true) l1
  ≡ₚ filter (λ n, has_image_ext (PathLib.joinpath d n) = true) l2 →
  list_images d l1 = list_images d l2
  ∧ ∀ n l, has_image_ext (PathLib.joinpath d n) = false →
           list_images d (l ++ n :: l2) = list_images d (l ++ l2).
Proof.
  intros Hp. split; [by apply list_images_image_entries|].
  intros n l Hn. apply list_images_image_entries.
  rewrite !filter_app, filter_cons_False; [done|]. congruence.
Qed.

Lemma list_images_depends_on_image_entries_witness :
  list_images ["in"] ["b.PNG"; "notes.txt"; "a.jpg"; ".png"]
  = list_images ["in"] ["a.jpg"; "README"; "b.PNG"]
  ∧ ∀ n l, has_image_ext (PathLib.joinpath ["in"] n) = false →
           list_images ["in"] (l ++ n :: ["a.jpg"; "README"; "b.PNG"])
           = list_images ["in"] (l ++ ["a.jpg"; "README"; "b.PNG"]).
Proof.
  apply (list_images_depends_on_image_entries ["in"]
           ["b.PNG"; "notes.txt"; "a.jpg"; ".png"] ["a.jpg"; "README"; "b.PNG"]).
  eapply bool_decide_unpack. vm_compute. reflexivity.
Defined.

Lemma list_images_inr (d : Path) (entries : list string) (files : list Path) :
  list_images d entries = inr files →
  let matching := filter (λ p, has_image_ext p = true)
                    (map (PathLib.joinpath d) entries) in
  (6 ≤ length matching)%nat ∧ files = take 6 (sorted matching).
Proof.
  intros H matching.
  destruct (decide (length matching < 6)%nat) as [Hlt|Hge].
  - pose proof (list_images_few d entries Hlt). congruence.
  - split; [lia|]. rewrite (list_images_enough d entries) in H by (fold matching; lia).
    by injection H as <-.
Qed.

(** X7: an image whose name sorts after the six selected ones (or equal to
    the last) never displaces them: adding such an entry anywhere in the
    listing leaves the result of [list_images] as it was. *)
Theorem list_images_later_image_ignored (d : Path) (l1 l2 : list string)
    (n : string) (files : list Path) :
  list_images d (l1 ++ l2) = inr files →
  (∀ p, p ∈ files → String.leb (PathLib.name p) n = true) →
  list_images d (l1 ++ n :: l2) = inr files.
Proof.
  intros Hl Hn.
  destruct (has_image_ext (PathLib.joinpath d n)) eqn:Hext; cycle 1.
  { rewrite (list_images_image_entries d (l1 ++ n :: l2) (l1 ++ l2)); [done|].
    rewrite !filter_app, filter_cons_False; [done|]. congruence. }
  pose proof (list_images_inr d (l1 ++ l2) files Hl) as [Hlen Hfiles].
  simpl in Hlen, Hfiles.
  set (matching := filter (λ p, has_image_ext p = true)
                     (map (PathLib.joinpath d) (l1 ++ l2))) in *.
  set (rest := drop 6 (sorted matching)).
  assert (sorted matching = files ++ rest) as Hsplit
    by (rewrite Hfiles; symmetry; apply take_drop).
  assert (length files = 6%nat) as Hlen6.
  { rewrite Hfiles, length_take, length_sorted. lia. }
  pose proof (sorted_Sorted matching) as Hsorted. rewrite Hsplit in Hsorted.
  apply StronglySorted_app in Hsorted as (Hcross & Hsf & Hsr).
  assert (Forall (λ p, ∃ m, p = PathLib.joinpath d m) (files ++ rest)) as Hdir.
  { rewrite <- Hsplit. apply image_files_in_dir. }
  set (matching' := filter (λ p, has_image_ext p = true)
                      (map (PathLib.joinpath d) (l1 ++ n :: l2))).
  assert (matching' ≡ₚ PathLib.joinpath d n :: matching) as Hperm.
  { unfold matching', matching.
    rewrite !map_app, !filter_app. simpl. rewrite filter_cons_True by done.
    by rewrite <- Permutation_middle. }
  assert (sorted matching' = files ++ sorted (PathLib.joinpath d n :: rest)) as Hs.
  { apply sorted_unique.
    - apply StronglySorted_app_2; [|done|apply sorted_Sorted].
      intros p q Hp Hq. rewrite sorted_Permutation in Hq.
      apply elem_of_cons in Hq as [->|Hq]; [|by apply Hcross].
      rewrite Forall_forall in Hdir.
      destruct (Hdir p) as [m ->]; [apply elem_of_app; by left|].
      unfold PathLib.le. rewrite path_leb_joinpath.
      specialize (Hn _ Hp). by rewrite name_joinpath in Hn.
    - rewrite sorted_Permutation, Hperm, <- (sorted_Permutation matching), Hsplit.
      by rewrite Permutation_middle. }
  rewrite (list_images_enough d (l1 ++ n :: l2)); cycle 1.
  { fold matching'. rewrite Hperm. simpl. lia. }
  fold matching'. rewrite Hs. f_equal.
  rewrite take_app_le by lia. rewrite take_ge by lia. done.
Qed.

Lemma list_images_later_image_ignored_witness :
  list_images ["in"]
    (["b.PNG"; "notes.txt"; "a.jpg"] ++ "zebra.png"
       :: ["c.tiff"; "e.webp"; "d.Jpeg"; "f.png"; "B.png"])
  = inr example_six_paths.
Proof.
  apply (list_images_later_image_ignored ["in"] ["b.PNG"; "notes.txt"; "a.jpg"]
           ["c.tiff"; "e.webp"; "d.Jpeg"; "f.png"; "B.png"] "zebra.png"
           example_six_paths).
  - vm_compute. reflexivity.
  - intros p Hp. vm_compute in Hp.
    repeat (apply elem_of_cons in Hp as [->|Hp]; [reflexivity|]).
    by apply elem_of_nil in Hp.
Defined.

(** X8: for a directory whose entry names are distinct, the six paths
    [list_images] returns are pairwise distinct, each is the input
    directory joined with an entry that has an image extension, and their
    names are strictly increasing. *)
Theorem list_images_result_shape (d : Path) (entries : list string)
    (files : list Path) :
  NoDup entries →
  list_images d entries = inr files →
  length files = 6%nat
  ∧ NoDup files
  ∧ Forall (λ p, ∃ n, n ∈ entries ∧ p = PathLib.joinpath d n
                      ∧ has_image_ext p = true) files
  ∧ StronglySorted
      (λ p q, String.ltb (PathLib.name p) (PathLib.name q) = true) files.
Proof.
  intros Hnd Hl.
  pose proof (list_images_inr d entries files Hl) as [Hlen Hfiles].
  simpl in Hlen, Hfiles.
  set (matching := filter (λ p, has_image_ext p = true)
                     (map (PathLib.joinpath d) entries)) in *.
  assert (NoDup (sorted matching)) as Hnds.
  { rewrite sorted_Permutation. apply NoDup_filter.
    change (map ?f ?l) with (f <$> l). by apply (NoDup_fmap_2 _). }
  assert (files `sublist_of` sorted matching) as Hsub
    by (rewrite Hfiles; apply sublist_take).
  assert (NoDup files) as Hndf by (by eapply sublist_NoDup).
  assert (StronglySorted PathLib.le files) as Hsf.
  { pose proof (sorted_Sorted matching) as Hs.
    rewrite <- (take_drop 6 (sorted matching)), <- Hfiles in Hs.
    by apply StronglySorted_app_1_l in Hs. }
  assert (Forall (λ p, ∃ n, n ∈ entries ∧ p = PathLib.joinpath d n
                            ∧ has_image_ext p = true) files) as Hin.
  { apply Forall_forall. intros p Hp.
    assert (p ∈ matching) as Hm.
    { rewrite <- (sorted_Permutation matching). by eapply elem_of_sublist. }
    apply list_elem_of_filter in Hm as [Hext Hm].
    change (map ?f ?l) with (f <$> l) in Hm.
    apply list_elem_of_fmap in Hm as (n & -> & Hn). by exists n. }
  split. { rewrite Hfiles, length_take, length_sorted. lia. }
  split; [done|]. split; [done|].
  clear Hl Hfiles Hsub Hlen. induction Hsf as [|p l Hsl IH Hall]; [constructor|].
  apply NoDup_cons in Hndf as [Hp Hndl].
  apply Forall_cons in Hin as [(n & _ & -> & _) Hin].
  constructor; [by apply IH|].
  rewrite Forall_forall in Hall, Hin |- *. intros q Hq.
  destruct (Hin q Hq) as (m & _ & -> & _). specialize (Hall _ Hq).
  unfold PathLib.le in Hall. rewrite path_leb_joinpath in Hall.
  rewrite !name_joinpath. unfold String.leb in Hall. unfold String.ltb.
  destruct (String.compare n m) eqn:Hc; try done.
  apply String.compare_eq_iff in Hc. subst. done.
Qed.

Lemma list_images_result_shape_witness :
  length example_six_paths = 6%nat
  ∧ NoDup example_six_paths
  ∧ Forall (λ p, ∃ n, n ∈ iterdir example_fs ["in"]
                      ∧ p = PathLib.joinpath ["in"] n
                      ∧ has_image_ext p = true) example_six_paths
  ∧ StronglySorted
      (λ p q, String.ltb (PathLib.name p) (PathLib.name q) = true)
      example_six_paths.
Proof.
  apply (list_images_result_shape ["in"] (iterdir example_fs ["in"])
           example_six_paths).
  - eapply bool_decide_unpack. vm_compute. reflexivity.
  - vm_compute. reflexivity.
Defined.

(** ** Which names have an image extension *)

Lemma rfind_bounds (c : ascii) (s : string) :
  (-1 ≤ Py.rfind c s < Py.len s)%Z.
Proof.
  unfold Py.len. induction s as [|a s IH]; simpl; [lia|].
  destruct (Z.leb_spec 0 (Py.rfind c s)); [lia|].
  destruct (Ascii.eqb a c); lia.
Qed.

Lemma length_string_app (s t : string) :
  String.length (s +:+ t) = (String.length s + String.length t)%nat.
Proof.
  induction s as [|a s IH]; [done|].
  rewrite string_app_cons. simpl. by rewrite IH.
Qed.

Lemma rfind_app (c : ascii) (s t : string) :
  Py.rfind c (s +:+ t)
  = if (0 <=? Py.rfind c t)%Z then (Py.len s + Py.rfind c t)%Z
    else Py.rfind c s.
Proof.
  unfold Py.len. induction s as [|a s IH].
  - rewrite string_app_nil_l. simpl.
    destruct (Z.leb_spec 0 (Py.rfind c t)); [done|].
    pose proof (rfind_bounds c t). lia.
  - rewrite string_app_cons. simpl Py.rfind. rewrite IH.
    destruct (Z.leb_spec 0 (Py.rfind c t)).
    + destruct (Z.leb_spec 0 (Z.of_nat (String.length s) + Py.rfind c t)); [|lia].
      simpl String.length. lia.
    + done.
Qed.

Lemma substring_all (s : string) : String.substring 0 (String.length s) s = s.
Proof. induction s as [|a s IH]; simpl; [done | by rewrite IH]. Qed.

Lemma slice_from_app (s t : string) : Py.slice_from (Py.len s) (s +:+ t) = t.
Proof.
  unfold Py.slice_from, Py.len. rewrite Nat2Z.id, length_string_app.
  replace (String.length s + String.length t - String.length s)%nat
    with (String.length t) by lia.
  induction s as [|a s IH].
  - rewrite string_app_nil_l. apply substring_all.
  - rewrite string_app_cons. simpl. apply IH.
Qed.

Lemma substring_split (n : nat) (s : string) :
  (n ≤ String.length s)%nat →
  s = String.substring 0 n s +:+ String.substring n (String.length s - n) s
  ∧ String.length (String.substring 0 n s) = n.
Proof.
  revert n. induction s as [|a s IH]; intros [|n] Hn; simpl in *; try lia.
  - done.
  - rewrite string_app_nil_l. by rewrite substring_all.
  - destruct (IH n ltac:(lia)) as [Heq Hlen].
    rewrite string_app_cons, <- Heq, Hlen. done.
Qed.

Lemma exts_shape (e : string) :
  Py.lower e ∈ exts → Py.rfind "."%char e = 0%Z ∧ (2 ≤ String.length e)%nat.
Proof.
  intros He. rewrite <- rfind_lower, <- (length_lower e).
  unfold exts in He.
  repeat (apply elem_of_cons in He as [->|He];
            [split; [reflexivity | simpl; lia]|]).
  by apply elem_of_nil in He.
Qed.


(** ** The contact sheet for any number of assets *)



(** ** Normalized copies for any thresholds *)

Lemma has_char_app (c : ascii) (s t : string) :
  has_char c (s +:+ t) = has_char c s || has_char c t.
Proof.
  induction s as [|a s IH]; [done|].
  rewrite string_app_cons. simpl. by rewrite IH, orb_assoc.
Qed.

Lemma format_02d_no_char (c : ascii) (z : Z) :
  is_digit c = false → c ≠ "-"%char → has_char c (Py.format_02d z) = false.
Proof.
  intros Hc Hdash. unfold Py.format_02d.
  assert (∀ a s, a ≠ c → has_char c s = false → has_char c (String a "" +:+ s) = false)
    as Hcons.
  { intros a s Ha Hs. rewrite string_app_cons, string_app_nil_l.
    cbn [has_char]. rewrite Hs, orb_false_r. by apply Ascii.eqb_neq. }
  assert (∀ n, (0 ≤ n)%Z → has_char c (pretty n) = false) as Hp.
  { intros n Hn. apply all_digits_no_char; [done|].
    by apply pretty_Z_nonneg. }
  destruct (Z.ltb_spec z 0); [|destruct (Z.ltb_spec z 10)].
  - apply (Hcons "-"%char); [congruence | apply Hp; lia].
  - apply (Hcons "0"%char); [by intros <- | by apply Hp].
  - apply Hp. lia.
Qed.

(** The name of a normalized copy is one path part when the role is. *)
Lemma normalized_name_part (a : PhotoAsset) :
  name_part (role a) = true → name_part (normalized_name a) = true.
Proof.
  unfold name_part, normalized_name.
  intros [Hs Hn]%andb_true_iff.
  apply negb_true_iff in Hs, Hn.
  rewrite !has_char_app, Hs, Hn, !format_02d_no_char by done.
  reflexivity.
Qed.

(** X11: for any positive thresholds and any list of assets whose images
    are RGBA and of positive size and whose roles hold no path separator
    and no NUL, the empty list included, [save_normalized_images] creates
    the output directory once, allocates one object and writes one file
    per asset, in order, directly in that directory, and changes no
    earlier object.  The threshold of an asset is the background one
    exactly when its role is the string "background", and the element one
    for every other role.  The copy never exceeds that threshold and is
    never larger than the image; it is the image itself when the image is
    within the threshold. *)
Theorem save_normalized_images_any_thresholds (w : World)
    (assets : list PhotoAsset) (ims : list PIL.Image) (out_dir : Path)
    (max_side_element max_side_background : Z) :
  (0 < max_side_element)%Z → (0 < max_side_background)%Z →
  asset_images (heap w) assets ims →
  Forall (λ im, (0 < PIL.width im)%Z ∧ (0 < PIL.height im)%Z) ims →
  Forall (λ im, PIL.mode im = "RGBA") ims →
  Forall (λ a, name_part (role a) = true) assets →
  ∃ copies w',
    save_normalized_images assets out_dir max_side_element max_side_background w
    = (inr tt, w')
    ∧ heap w' = heap w ++ copies
    ∧ written w'
      = written w
        ++ zip_with (λ a c, (PathLib.joinpath out_dir (normalized_name a),
                             ImageData c None)) assets copies
    ∧ dirs w' = dirs w ++ [out_dir]
    ∧ length copies = length assets
    ∧ Forall (λ a, name_part (normalized_name a) = true) assets
    ∧ Forall (λ c, PIL.mode c = "RGBA") copies
    ∧ ∀ (k : nat) a im,
        assets !! k = Some a → ims !! k = Some im →
        ∃ c, copies !! k = Some c
             ∧ ∀ target,
                 (role a = "background" → target = max_side_background) →
                 (role a ≠ "background" → target = max_side_element) →
                 (Z.max (PIL.width c) (PIL.height c) ≤ target)%Z
                 ∧ (PIL.width c ≤ PIL.width im)%Z
                 ∧ (PIL.height c ≤ PIL.height im)%Z
                 ∧ ((Z.max (PIL.width im) (PIL.height im) ≤ target)%Z → c = im)
                 ∧ ((target < Z.max (PIL.width im) (PIL.height im))%Z →
                    Z.max (PIL.width c) (PIL.height c) = target).
Proof.
  intros Hmse Hmsb Ha Hpos Hrgba Hroles. destruct w as [h wr ds]. simpl in Ha.
  exists (zip_with (normalized max_side_element max_side_background) assets ims).
  eexists.
  rewrite (save_normalized_images_run _ _ _ _ _ _ _ _ Ha).
  split; [reflexivity|]. cbn [heap written dirs].
  split; [done|]. split.
  { unfold normalized_files. by rewrite zip_with_zip_with_r. }
  split; [done|].
  pose proof (Forall2_length _ _ _ Ha) as Hlen.
  split. { rewrite length_zip_with. lia. }
  split.
  { eapply Forall_impl; [exact Hroles|]. intros a. apply normalized_name_part. }
  split.
  { apply Forall_forall. intros c Hc.
    apply list_elem_of_lookup in Hc as [k Hc].
    rewrite lookup_zip_with in Hc.
    destruct (assets !! k) as [a|]; [|done]. simpl in Hc.
    destruct (ims !! k) as [im|] eqn:Hkim; [|done]. injection Hc as <-.
    rewrite Forall_forall in Hpos, Hrgba.
    pose proof (list_elem_of_lookup_2 _ _ _ Hkim) as Him.
    destruct (Hpos im Him) as [Hw Hh].
    unfold normalized.
    destruct (Z.max _ _ >? _)%Z; [|by apply Hrgba].
    set (target := if String.eqb _ _ then _ else _).
    assert (0 < target)%Z by (subst target; destruct (String.eqb _ _); lia).
    destruct (thumbnailed_spec target target im Hw Hh ltac:(done) ltac:(done))
      as (-> & _).
    by apply Hrgba. }
  intros k a im Hka Hkim.
  exists (normalized max_side_element max_side_background a im). split.
  { rewrite lookup_zip_with, Hka. simpl. by rewrite Hkim. }
  intros target Hb He.
  rewrite Forall_forall in Hpos.
  destruct (Hpos im) as [Hw Hh]. { by eapply list_elem_of_lookup_2. }
  pose proof (normalized_spec max_side_element max_side_background a im) as Hn.
  simpl in Hn.
  assert ((if String.eqb (role a) "background"
           then max_side_background else max_side_element) = target) as Ht.
  { destruct (String.eqb_spec (role a) "background") as [Hr|Hr];
      symmetry; auto. }
  rewrite Ht in Hn.
  destruct (Hn Hw Hh ltac:(destruct (String.eqb _ _); lia))
    as (Hmax & Hsame & Hs & _).
  split; [done|].
  destruct (decide (Z.max (PIL.width im) (PIL.height im) ≤ target)%Z)
    as [Hle|Hgt].
  - rewrite (Hsame Hle). split_and!; (done || lia || (intros; lia)).
  - destruct Hs as (? & ? & ? & _); [lia|].
    split_and!; (done || lia || (intros; lia)).
Qed.

Lemma save_normalized_images_any_thresholds_witness :
  ∃ copies w',
    save_normalized_images example_assets ["out"] 1000%Z 250%Z example_world
    = (inr tt, w')
    ∧ heap w' = heap example_world ++ copies
    ∧ written w'
      = written example_world
        ++ zip_with (λ a c, (PathLib.joinpath ["out"] (normalized_name a),
                             ImageData c None)) example_assets copies
    ∧ dirs w' = dirs example_world ++ [["out"]]
    ∧ length copies = length example_assets
    ∧ Forall (λ a, name_part (normalized_name a) = true) example_assets
    ∧ Forall (λ c, PIL.mode c = "RGBA") copies
    ∧ ∀ (k : nat) a im,
        example_assets !! k = Some a → example_heap !! k = Some im →
        ∃ c, copies !! k = Some c
             ∧ ∀ target,
                 (role a = "background" → target = 250%Z) →
                 (role a ≠ "background" → target = 1000%Z) →
                 (Z.max (PIL.width c) (PIL.height c) ≤ target)%Z
                 ∧ (PIL.width c ≤ PIL.width im)%Z
                 ∧ (PIL.height c ≤ PIL.height im)%Z
                 ∧ ((Z.max (PIL.width im) (PIL.height im) ≤ target)%Z → c = im)
                 ∧ ((target < Z.max (PIL.width im) (PIL.height im))%Z →
                    Z.max (PIL.width c) (PIL.height c) = target).
Proof.
  apply (save_normalized_images_any_thresholds example_world example_assets
           example_heap ["out"] 1000 250).
  - lia.
  - lia.
  - repeat constructor.
  - repeat constructor.
  - repeat constructor.
  - repeat constructor.
Defined.

(** ** The characters of the manifest *)

Lemma all_text_app (s t : string) :
  all_text (s +:+ t) = all_text s && all_text t.
Proof.
  induction s as [|c s IH]; [done|].
  rewrite string_app_cons. simpl. by rewrite IH, andb_assoc.
Qed.

Lemma all_text_escape_char (c : ascii) : all_text (Json.escape_char c) = true.
Proof. by destruct c as [[] [] [] [] [] [] [] []]. Qed.

Lemma all_text_escape (s : string) : all_text (Json.escape s) = true.
Proof.
  induction s as [|c s IH]; [done|].
  simpl. by rewrite all_text_app, all_text_escape_char, IH.
Qed.

Lemma all_digits_text (s : string) : all_digits s = true → all_text s = true.
Proof.
  induction s as [|c s IH]; [done|]. simpl.
  intros [Hc Hs]%andb_true_iff. rewrite (IH Hs), andb_true_r.
  unfold is_digit in Hc. unfold text_char.
  apply andb_true_iff in Hc as [H1%N.leb_le H2%N.leb_le].
  apply orb_true_iff. right. apply andb_true_iff.
  split; apply N.leb_le; lia.
Qed.

Lemma all_text_repr_int (z : Z) : all_text (Py.repr_int z) = true.
Proof.
  unfold Py.repr_int. destruct z as [|p|p].
  - done.
  - apply all_digits_text. by apply (pretty_Z_nonneg (Z.pos p)).
  - change (pretty (Z.neg p)) with ("-" +:+ pretty (Z.pos p)).
    rewrite all_text_app. simpl.
    apply all_digits_text. by apply (pretty_Z_nonneg (Z.pos p)).
Qed.

Lemma all_text_quoted (s : string) :
  all_text s = true → all_text (quoted s) = true.
Proof.
  intros Hs. unfold quoted. simpl. by rewrite all_text_app, Hs.
Qed.

Lemma all_text_concat (sep : string) (l : list string) :
  all_text sep = true → Forall (λ s, all_text s = true) l →
  all_text (String.concat sep l) = true.
Proof.
  intros Hsep Hl. induction Hl as [|s l Hs Hl IH]; [done|].
  simpl. destruct l as [|s' l]; [done|].
  rewrite !all_text_app, Hs, Hsep. simpl. exact IH.
Qed.

Lemma all_text_manifest_record (a : PhotoAsset) :
  all_text (manifest_record a) = true.
Proof.
  rewrite manifest_record_encoded.
  rewrite !all_text_app, !all_text_repr_int,
    !(all_text_quoted (Json.escape _)) by apply all_text_escape.
  reflexivity.
Qed.

(** X12: whatever the assets are, the manifest [write_summary] writes
    consists of printable ASCII characters and line feeds only: characters
    outside that range in a path or a role are written as escapes.  It is
    the only file the call writes, and the call touches neither the heap
    nor the directories. *)
Theorem manifest_is_printable_ascii (assets : list PhotoAsset)
    (out_path : Path) (w : World) :
  ∃ text w',
    write_summary assets out_path w = (inr tt, w')
    ∧ written w' = written w ++ [(out_path, TextData text)]
    ∧ heap w' = heap w ∧ dirs w' = dirs w
    ∧ text = Json.dumps (summary assets) 2
    ∧ all_text text = true.
Proof.
  eexists _, _. split; [reflexivity|]. cbn [heap written dirs].
  split; [done|]. split; [done|]. split; [done|]. split; [done|].
  rewrite dumps_summary. unfold manifest_text.
  destruct assets as [|a assets]; [done|].
  generalize (a :: assets). intros l.
  rewrite !all_text_app.
  rewrite (all_text_concat ("," +:+ nl +:+ "  ") (map manifest_record l));
    [done|done|].
  change (map ?f ?l) with (f <$> l). apply Forall_fmap, Forall_forall.
  intros b _. apply all_text_manifest_record.
Qed.

(** ** The manifest determines the records *)

Lemma next_char_escape_char (c : ascii) (t : string) :
  JsonRead.next_char (Json.escape_char c +:+ t) = Some (c, t).
Proof. by destruct c as [[] [] [] [] [] [] [] []]. Qed.

(** An escaped string is read back up to its closing quote. *)
Lemma escape_split (s1 s2 t1 t2 : string) :
  Json.escape s1 +:+ String Json.dquote t1
  = Json.escape s2 +:+ String Json.dquote t2 →
  s1 = s2 ∧ t1 = t2.
Proof.
  revert s2. induction s1 as [|c1 s1 IH]; intros [|c2 s2]; simpl Json.escape;
    rewrite ?string_app_nil_l, ?string_app_assoc; intros H.
  - by injection H.
  - apply (f_equal JsonRead.next_char) in H.
    by rewrite next_char_escape_char in H.
  - apply (f_equal JsonRead.next_char) in H.
    by rewrite next_char_escape_char in H.
  - apply (f_equal JsonRead.next_char) in H.
    rewrite !next_char_escape_char in H. injection H as -> H.
    by destruct (IH _ H) as [-> ->].
Qed.

Lemma split_at_char (c : ascii) (s1 s2 t1 t2 : string) :
  has_char c s1 = false → has_char c s2 = false →
  s1 +:+ String c t1 = s2 +:+ String c t2 →
  s1 = s2 ∧ t1 = t2.
Proof.
  revert s2. induction s1 as [|a s1 IH]; intros [|b s2]; simpl.
  - by intros _ _ [= ->].
  - intros _ [Hb _]%orb_false_iff [= <- _]. by rewrite Ascii.eqb_refl in Hb.
  - intros [Ha _]%orb_false_iff _ [= -> _]. by rewrite Ascii.eqb_refl in Ha.
  - intros [_ H1]%orb_false_iff [_ H2]%orb_false_iff [= -> H].
    by destruct (IH s2 H1 H2 H) as [-> ->].
Qed.

Lemma repr_int_no_char (c : ascii) (z : Z) :
  is_digit c = false → c ≠ "-"%char → has_char c (Py.repr_int z) = false.
Proof.
  intros Hc Hdash. unfold Py.repr_int. destruct z as [|p|p].
  - apply all_digits_no_char; done.
  - apply all_digits_no_char; [done|]. by apply (pretty_Z_nonneg (Z.pos p)).
  - change (pretty (Z.neg p)) with ("-" +:+ pretty (Z.pos p)).
    rewrite string_app_cons, string_app_nil_l. simpl.
    rewrite all_digits_no_char; [|done|by apply (pretty_Z_nonneg (Z.pos p))].
    rewrite orb_false_r. by apply (proj2 (Ascii.eqb_neq c "-")).
Qed.

(** An integer is read back up to the comma or line feed after it. *)
Lemma repr_int_split (c : ascii) (z1 z2 : Z) (t1 t2 : string) :
  is_digit c = false → c ≠ "-"%char →
  Py.repr_int z1 +:+ String c t1 = Py.repr_int z2 +:+ String c t2 →
  z1 = z2 ∧ t1 = t2.
Proof.
  intros Hc Hdash H.
  apply split_at_char in H as [Hz <-]; [|by apply repr_int_no_char..].
  split; [|done]. by apply (inj (@pretty Z _)).
Qed.

Lemma manifest_record_split (a b : PhotoAsset) (t1 t2 : string) :
  manifest_record a +:+ t1 = manifest_record b +:+ t2 →
  same_fields a b ∧ t1 = t2.
Proof.
  rewrite !manifest_record_encoded. unfold quoted, nl, same_fields.
  autorewrite with strnorm. intros H.
  injection H as H.
  apply repr_int_split in H as [Hid H]; [|done..].
  injection H as H.
  apply escape_split in H as [Hrole H].
  injection H as H.
  apply escape_split in H as [Hpath H].
  injection H as H.
  apply repr_int_split in H as [Hw H]; [|done..].
  injection H as H.
  apply repr_int_split in H as [Hh H]; [|done..].
  injection H as H. done.
Qed.

Lemma concat_records_cons (a : PhotoAsset) (l : list PhotoAsset) (sep t : string) :
  String.concat sep (map manifest_record (a :: l)) +:+ t
  = manifest_record a
    +:+ match l with
        | [] => t
        | _ => sep +:+ (String.concat sep (map manifest_record l) +:+ t)
        end.
Proof.
  destruct l as [|b l]; [done|].
  change (String.concat sep (map manifest_record (a :: b :: l)))
    with (manifest_record a +:+ sep
          +:+ String.concat sep (map manifest_record (b :: l))).
  by rewrite !string_app_assoc.
Qed.

Lemma concat_records_split (l1 l2 : list PhotoAsset) :
  l1 ≠ [] → l2 ≠ [] →
  String.concat ("," +:+ nl +:+ "  ") (map manifest_record l1) +:+ (nl +:+ "]")
  = String.concat ("," +:+ nl +:+ "  ") (map manifest_record l2) +:+ (nl +:+ "]") →
  Forall2 same_fields l1 l2.
Proof.
  revert l2. induction l1 as [|a l1 IH]; intros [|b l2]; try done.
  intros _ _. rewrite !concat_records_cons.
  intros [Hab H]%manifest_record_split. constructor; [done|].
  revert H. unfold nl. autorewrite with strnorm.
  destruct l1 as [|a' l1], l2 as [|b' l2]; try done.
  intros [= H]. apply IH; [done..|].
  unfold nl. by autorewrite with strnorm.
Qed.

(** X13: the manifest loses none of the five recorded fields.  Two lists of
    assets whose manifests are the same text have the same length and
    agree, asset by asset, on id, role, path, width and height, whatever
    characters the role and path strings hold; only the image object of an
    asset is left out. *)
Theorem manifest_determines_records (l1 l2 : list PhotoAsset) :
  Json.dumps (summary l1) 2 = Json.dumps (summary l2) 2 →
  Forall2 same_fields l1 l2.
Proof.
  rewrite !dumps_summary. unfold manifest_text.
  unfold nl. autorewrite with strnorm.
  destruct l1 as [|a l1], l2 as [|b l2]; try done.
  intros H. apply concat_records_split; [done..|].
  unfold nl. autorewrite with strnorm. by injection H.
Qed.

Lemma manifest_determines_records_witness :
  Forall2 same_fields example_assets
    (map (λ a, {| id := id a; role := role a; path := path a;
                  width := width a; height := height a;
                  _image := S (_image a) |}) example_assets).
Proof.
  apply (manifest_determines_records example_assets).
  vm_compute. reflexivity.
Defined.

(** ** What the outcome of a run says of its input *)

(** X15: the outcome of [main] tells what the input was.  If the run
    completes, six paths were selected, all of them decode, and eight
    files were written.  If it raises [ValueError], the message is the one
    of [list_images], fewer than six entries have an image extension, and
    no image was opened and no file written.  If it raises PIL's error for
    a path, that path is one of the six selected, has an image extension,
    is not an image PIL identifies, and no file was written. *)
Theorem main_outcomes (fs : FileSystem) (input_dir outdir : Path)
    (w w' : World) (r : Exn + unit) :
  main fs input_dir outdir w = (r, w') →
  let found := length (filter (λ p, has_image_ext p = true)
                         (map (PathLib.joinpath input_dir)
                            (iterdir fs input_dir))) in
  (r = inr tt →
   ∃ paths, list_images input_dir (iterdir fs input_dir) = inr paths
            ∧ (6 ≤ found)%nat
            ∧ Forall (λ p, is_Some (image_at fs p)) paths
            ∧ length (written w') = (length (written w) + 8)%nat)
  ∧ (∀ msg, r = inl (ValueError msg) →
       (found < 6)%nat
       ∧ msg = "Need at least 6 images in " +:+ PathLib.str input_dir
               +:+ ", found " +:+ Py.repr_int (Z.of_nat found) +:+ "."
       ∧ written w' = written w ∧ heap w' = heap w)
  ∧ (∀ p, r = inl (UnidentifiedImageError p) →
       ∃ paths, list_images input_dir (iterdir fs input_dir) = inr paths
                ∧ p ∈ paths ∧ image_at fs p = None
                ∧ has_image_ext p = true
                ∧ written w' = written w).
Proof.
  intros Hrun found. rewrite main_run in Hrun. unfold main_result in Hrun.
  destruct (Nat.lt_ge_cases found 6) as [Hfew|Hmany].
  { rewrite (list_images_few input_dir (iterdir fs input_dir) Hfew) in Hrun.
    injection Hrun as <- <-. split_and!; [done| |done].
    intros msg [= <-]. done. }
  pose proof (list_images_enough input_dir (iterdir fs input_dir) Hmany) as Hl.
  rewrite Hl in Hrun. rewrite Hl.
  set (paths := take 6 _) in *.
  destruct (first_undecodable fs paths) as [q|] eqn:Hd;
    injection Hrun as <- <-.
  - split_and!; [done|done|]. intros p [= <-].
    exists paths. split; [done|].
    destruct (first_undecodable_Some fs paths q Hd) as [Hin Hnone].
    split; [done|]. split; [done|]. split; [|done].
    apply elem_of_take in Hin as (i & Hin & _).
    apply list_elem_of_lookup_2 in Hin.
    rewrite sorted_Permutation in Hin.
    by apply list_elem_of_filter in Hin as [? _].
  - split_and!; [|done|done]. intros _.
    exists paths. split; [done|]. split; [done|].
    split; [by apply first_undecodable_None|].
    cbn [written]. rewrite !length_app. cbn [length].
    unfold normalized_files. rewrite length_zip_with.
    rewrite (length_assets_from fs paths Hd).
    rewrite <- (Forall2_length _ _ _ (loaded_images_Forall2 fs paths Hd)).
    rewrite (list_images_length input_dir (iterdir fs input_dir) paths Hl).
    simpl. lia.
Qed.

Lemma main_outcomes_witness :
  let r := (main broken_fs ["in"] ["out"] empty_world).1 in
  let w' := (main broken_fs ["in"] ["out"] empty_world).2 in
  let found := length (filter (λ p, has_image_ext p = true)
                         (map (PathLib.joinpath ["in"])
                            (iterdir broken_fs ["in"]))) in
  (r = inr tt →
   ∃ paths, list_images ["in"] (iterdir broken_fs ["in"]) = inr paths
            ∧ (6 ≤ found)%nat
            ∧ Forall (λ p, is_Some (image_at broken_fs p)) paths
            ∧ length (written w') = (length (written empty_world) + 8)%nat)
  ∧ (∀ msg, r = inl (ValueError msg) →
       (found < 6)%nat
       ∧ msg = "Need at least 6 images in " +:+ PathLib.str ["in"]
               +:+ ", found " +:+ Py.repr_int (Z.of_nat found) +:+ "."
       ∧ written w' = written empty_world ∧ heap w' = heap empty_world)
  ∧ (∀ p, r = inl (UnidentifiedImageError p) →
       ∃ paths, list_images ["in"] (iterdir broken_fs ["in"]) = inr paths
                ∧ p ∈ paths ∧ image_at broken_fs p = None
                ∧ has_image_ext p = true
                ∧ written w' = written empty_world).
Proof.
  apply (main_outcomes broken_fs ["in"] ["out"] empty_world).
  apply surjective_pairing.
Defined.
